(** * calibre-sync-api: the reconciliation engine, the history ledger and the
      run coordinator, embedded from the Python sources

    - [app/services/sync_service.py]          -> modules [Path], [Fs], [SyncService]
    - [app/services/sync_history_service.py]  -> module [SyncHistory]
    - [app/routers/sync.py]                   -> module [Router]
    - [app/config.py]                         -> module [Config]

    Conventions of the embedding.
    - A directory tree is a finite map from relative paths to regular files;
      the machine is a finite map from root directories to trees, so that a
      replica root equal to the source root denotes the same tree.  Two
      roots that are different strings are separate trees: the properties
      that compare the file system before and after a run are stated for
      directories that lie apart ([Layout.apart]), neither inside the
      other.  A catalog holds what the walk of a root lists; the walk of
      the code skips, without raising, the entries that it cannot list or
      that [os.stat] refuses, so the properties are stated on the
      catalogs where the code reads them.  Names that differ name
      different files; directories standing where a file is expected and
      symbolic links are outside the model.
    - A file is its bytes and its modification time; its size is the length
      of its bytes.  A modification time is a Python float, given by the
      rational that is its value; the one float operation on it, the
      subtraction of [mtime_differs], is rounded as the code rounds it.
      Durations are Python floats and are floats here, with the operations
      of IEEE 754 binary64.
    - Operations of the operating system that can raise do so when the
      environment's [fault] oracle says so.  The oracle depends on the
      operation only (permissions, a read-only mount) and gives the text of
      the exception.
    - Python dictionaries are [gmap]s; a loop over [d.items()] visits
      [map_to_list d]. *)

From Stdlib Require Import Floats.
From Stdlib Require Import Ascii String QArith Qabs Qround.
From stdpp Require Import gmap strings list sorting.

Local Open Scope string_scope.
Local Open Scope list_scope.
Set Warnings "-inexact-float".

(** ** [os.path] and [str] helpers used by the services *)

Module Path.

Fixpoint has_sep (p : string) : bool :=
  match p with
  | EmptyString => false
  | String c r => Ascii.eqb c "/"%char || has_sep r
  end.

(** [os.path.basename p] is [p[p.rfind('/') + 1:]]. *)
Fixpoint basename (p : string) : string :=
  match p with
  | EmptyString => EmptyString
  | String c r =>
      if has_sep r then basename r
      else if Ascii.eqb c "/"%char then r else p
  end.

(** [s[s.rfind('.'):]] when [s] holds a dot. *)
Fixpoint last_dot_suffix (s : string) : option string :=
  match s with
  | EmptyString => None
  | String c r =>
      match last_dot_suffix r with
      | Some e => Some e
      | None => if Ascii.eqb c "."%char then Some s else None
      end
  end.

Fixpoint lstrip_dots (s : string) : string :=
  match s with
  | EmptyString => EmptyString
  | String c r => if Ascii.eqb c "."%char then lstrip_dots r else s
  end.

(** [os.path.splitext(p)[1]]: the suffix from the last dot of the base name,
    leading dots of the base name not counting. *)
Definition splitext_ext (p : string) : string :=
  default "" (last_dot_suffix (lstrip_dots (basename p))).

Definition lower_ascii (c : ascii) : ascii :=
  let n := nat_of_ascii c in
  if (65 <=? n)%nat && (n <=? 90)%nat then ascii_of_nat (n + 32) else c.

(** [str.lower] on the ASCII range. *)
Fixpoint lower (s : string) : string :=
  match s with
  | EmptyString => EmptyString
  | String c r => String (lower_ascii c) (lower r)
  end.

(** [filename.startswith('.')] *)
Definition startswith_dot (s : string) : bool :=
  match s with
  | String c _ => Ascii.eqb c "."%char
  | EmptyString => false
  end.

End Path.

(** ** The file system the service runs on *)

Module Fs.

Record file := File { f_data : string; f_mtime : Q }.

Definition f_size (f : file) : nat := String.length (f_data f).

(** A path is a root directory and a path relative to it:
    [os.path.join(root, relative_path)]. *)
Definition path : Type := string * string.

Abbreviation tree := (gmap string file).
Abbreviation world := (gmap string (gmap string file)).

Definition tree_of (w : world) (root : string) : tree := default ∅ (w !! root).

Definition wget (w : world) (p : path) : option file := tree_of w p.1 !! p.2.

Definition wput (p : path) (f : file) (w : world) : world :=
  <[p.1 := <[p.2 := f]> (tree_of w p.1)]> w.

Definition wdel (p : path) (w : world) : world :=
  match w !! p.1 with
  | Some t => <[p.1 := delete p.2 t]> w
  | None => w
  end.

Inductive fs_op :=
  | OpMakedirs (root : string)      (* os.makedirs(destination) *)
  | OpMakedirsFor (p : path)        (* os.makedirs(os.path.dirname(p), exist_ok=True) *)
  | OpRead (p : path)               (* open(p, "rb") and the reads that follow *)
  | OpCopy (src dst : path)         (* shutil.copy2(src, dst) *)
  | OpRemove (p : path).            (* os.remove(p) *)

Record os_env := OsEnv {
  md5 : string → string;            (* hashlib.md5(data).hexdigest() *)
  fault : fs_op → option string     (* the exception the operation raises *)
}.

(** Computations over the file system that may raise. *)
Inductive outcome (A : Type) :=
  | Ok (a : A)
  | Raise (msg : string).
Arguments Ok {A} a.
Arguments Raise {A} msg.

Definition io (A : Type) : Type := world → world * outcome A.

Definition io_ret {A} (a : A) : io A := λ w, (w, Ok a).

Definition io_bind {A B} (m : io A) (k : A → io B) : io B :=
  λ w, match m w with
       | (w', Ok a) => k a w'
       | (w', Raise msg) => (w', Raise msg)
       end.

Definition raise {A} (msg : string) : io A := λ w, (w, Raise msg).

(** [try: m except Exception as e: ...]: the exception becomes a value. *)
Definition try_ {A} (m : io A) : io (outcome A) :=
  λ w, match m w with (w', r) => (w', Ok r) end.

#[global] Instance io_mret : MRet io := @io_ret.
#[global] Instance io_mbind : MBind io := λ A B k m, io_bind m k.

(** The effect of an operation that succeeded. *)
Definition effect (f : world → world) : io () := λ w, (f w, Ok ()).

(** [for x in xs: acc = body(acc, x)] *)
Fixpoint for_each {A S} (body : S → A → io S) (xs : list A) (acc : S) : io S :=
  match xs with
  | [] => mret acc
  | x :: xs' => acc' ← body acc x; for_each body xs' acc'
  end.

Section Ops.
Context (e : os_env).

Definition guard_fault (op : fs_op) : io () :=
  match fault e op with
  | Some msg => raise msg
  | None => mret ()
  end.

Definition os_path_exists (root : string) : io bool :=
  λ w, (w, Ok (bool_decide (is_Some (w !! root)))).

Definition os_makedirs (root : string) : io () :=
  guard_fault (OpMakedirs root);;
  effect (λ w, <[root := tree_of w root]> w).

(** The directories of a tree are not kept: creating the parents of [p]
    only makes sure that its root exists. Where the file [p] is there, so
    is its directory, and [exist_ok=True] returns at once. *)
Definition os_makedirs_for (p : path) : io () :=
  λ w, match wget w p with
       | Some _ => (w, Ok ())
       | None =>
           match fault e (OpMakedirsFor p) with
           | Some msg => (w, Raise msg)
           | None => (<[p.1 := tree_of w p.1]> w, Ok ())
           end
       end.

Definition open_read (p : path) : io string :=
  λ w, match wget w p with
       | None => (w, Raise "No such file or directory")
       | Some f =>
           match fault e (OpRead p) with
           | Some msg => (w, Raise msg)
           | None => (w, Ok (f_data f))
           end
       end.

(** [shutil.copy2]: bytes and modification time; a file is not copied
    onto itself. *)
Definition shutil_copy2 (src dst : path) : io () :=
  λ w, match wget w src with
       | None => (w, Raise "No such file or directory")
       | Some f =>
           if bool_decide (src = dst) then (w, Raise "are the same file")
           else match fault e (OpCopy src dst) with
                | Some msg => (w, Raise msg)
                | None => (wput dst f w, Ok ())
                end
       end.

Definition os_remove (p : path) : io () :=
  λ w, match wget w p with
       | None => (w, Raise "No such file or directory")
       | Some _ =>
           match fault e (OpRemove p) with
           | Some msg => (w, Raise msg)
           | None => (wdel p w, Ok ())
           end
       end.
End Ops.

End Fs.

(** ** [app/services/sync_service.py] *)

Module SyncService.
Import Path Fs.

(** The values of the catalogs: ["path"], ["size"], ["mtime"],
    ["relative_path"]. *)
Record meta := Meta {
  m_path : path;
  m_size : nat;
  m_mtime : Q;
  m_relative_path : string
}.

Record stats := Stats {
  added : nat;
  updated : nat;
  deleted : nat;
  unchanged : nat;
  ignored : nat;
  errors : nat;
  added_files : list string;
  updated_files : list string;
  deleted_files : list string;
  ignored_files : list string;
  error_files : list string
}.

Definition stats0 : stats := Stats 0 0 0 0 0 0 [] [] [] [] [].

(** [stats["added"] += 1; stats["added_files"].append(p)], and the like. *)
Definition note_added (p : string) (s : stats) : stats :=
  Stats (S (added s)) (updated s) (deleted s) (unchanged s) (ignored s) (errors s)
        (added_files s ++ [p]) (updated_files s) (deleted_files s)
        (ignored_files s) (error_files s).

Definition note_updated (p : string) (s : stats) : stats :=
  Stats (added s) (S (updated s)) (deleted s) (unchanged s) (ignored s) (errors s)
        (added_files s) (updated_files s ++ [p]) (deleted_files s)
        (ignored_files s) (error_files s).

Definition note_deleted (p : string) (s : stats) : stats :=
  Stats (added s) (updated s) (S (deleted s)) (unchanged s) (ignored s) (errors s)
        (added_files s) (updated_files s) (deleted_files s ++ [p])
        (ignored_files s) (error_files s).

Definition note_unchanged (s : stats) : stats :=
  Stats (added s) (updated s) (deleted s) (S (unchanged s)) (ignored s) (errors s)
        (added_files s) (updated_files s) (deleted_files s)
        (ignored_files s) (error_files s).

Definition note_ignored (p : string) (s : stats) : stats :=
  Stats (added s) (updated s) (deleted s) (unchanged s) (S (ignored s)) (errors s)
        (added_files s) (updated_files s) (deleted_files s)
        (ignored_files s ++ [p]) (error_files s).

Definition note_error (p : string) (s : stats) : stats :=
  Stats (added s) (updated s) (deleted s) (unchanged s) (ignored s) (S (errors s))
        (added_files s) (updated_files s) (deleted_files s)
        (ignored_files s) (error_files s ++ [p]).

Record sync_service := SyncService {
  source_path : string;
  replica_paths : list string
}.

(** [file_ext in ['.db', '.json'] and filename != 'metadata.db'] *)
Definition is_ignored (filename : string) : bool :=
  let file_ext := lower (splitext_ext filename) in
  (String.eqb file_ext ".db" || String.eqb file_ext ".json")
  && negb (String.eqb filename "metadata.db").

(** [dest_filename in ['metadata.db', 'metadata_db_prefs_backup.json']] *)
Definition is_protected (dest_filename : string) : bool :=
  String.eqb dest_filename "metadata.db"
  || String.eqb dest_filename "metadata_db_prefs_backup.json".

(** [abs(source_meta["mtime"] - dest_meta["mtime"]) > 1].  The difference
    of the two floats is rounded to the nearest float, a tie going to the
    even mantissa, and the floats next to [1] are [1 - 2^-53] and
    [1 + 2^-52]: the rounded difference exceeds [1] exactly when the
    difference of the two values exceeds [1 + 2^-53]. *)
Definition mtime_differs (a b : Q) : bool :=
  negb (Qle_bool (Qabs (a - b)) (9007199254740993 # 9007199254740992)).

(** The walk shared by [get_calibre_files] and [get_replica_files]: every
    file whose name does not start with a dot, keyed by its relative path. *)
Definition walk (root : string) (w : world) : gmap string meta :=
  map_imap (λ rel f,
              if startswith_dot (basename rel) then None
              else Some (Meta (root, rel) (f_size f) (f_mtime f) rel))
           (tree_of w root).

Definition get_calibre_files (self : sync_service) : io (gmap string meta) :=
  λ w, (w, Ok (walk (source_path self) w)).

Definition get_replica_files (replica_path : string) : io (gmap string meta) :=
  ex ← os_path_exists replica_path;
  if negb ex then mret ∅
  else λ w, (w, Ok (walk replica_path w)).

Section Methods.
Context (e : os_env).

Definition calculate_file_hash (filepath : path) : io string :=
  data ← open_read e filepath;
  mret (md5 e data).

Definition get_destination_path (replica_path : string) (original_file : meta)
    (dry_run : bool) : io path :=
  let destination_path := (replica_path, m_relative_path original_file) in
  (if negb dry_run then os_makedirs_for e destination_path else mret ());;
  mret destination_path.

(** The body of the loop over [source_files.items()], past the test of the
    ignored extensions. *)
Definition sync_regular_file (destination : string) (dry_run : bool)
    (dest_files : gmap string meta)
    (acc : stats * gset string) (item : string * meta)
    : io (stats * gset string) :=
  let '(st, processed_dest_files) := acc in
  let '(relative_path, source_meta) := item in
  dest_path ← get_destination_path destination source_meta dry_run;
  let processed_dest_files := {[relative_path]} ∪ processed_dest_files in
  match dest_files !! relative_path with
  | None =>
      if negb dry_run then
        r ← try_ (os_makedirs_for e dest_path;;
                  shutil_copy2 e (m_path source_meta) dest_path);
        match r with
        | Ok _ => mret (note_added relative_path st, processed_dest_files)
        | Raise _ => mret (note_error relative_path st, processed_dest_files)
        end
      else mret (note_added relative_path st, processed_dest_files)
  | Some dest_meta =>
      if negb (m_size source_meta =? m_size dest_meta)%nat
         || mtime_differs (m_mtime source_meta) (m_mtime dest_meta)
      then
        source_hash ← calculate_file_hash (m_path source_meta);
        dest_hash ← calculate_file_hash (m_path dest_meta);
        if negb (String.eqb source_hash dest_hash) then
          if negb dry_run then
            r ← try_ (shutil_copy2 e (m_path source_meta) dest_path);
            match r with
            | Ok _ => mret (note_updated relative_path st, processed_dest_files)
            | Raise _ => mret (note_error relative_path st, processed_dest_files)
            end
          else mret (note_updated relative_path st, processed_dest_files)
        else mret (note_unchanged st, processed_dest_files)
      else mret (note_unchanged st, processed_dest_files)
  end.

(** The body of the loop over [source_files.items()]. *)
Definition sync_source_file (destination : string) (dry_run : bool)
    (dest_files : gmap string meta)
    (acc : stats * gset string) (item : string * meta)
    : io (stats * gset string) :=
  let filename := basename item.1 in
  if is_ignored filename then
    mret (note_ignored item.1 acc.1, acc.2)
  else sync_regular_file destination dry_run dest_files acc item.

(** The body of the loop over [dest_files.items()]. *)
Definition sync_dest_file (dry_run : bool) (processed_dest_files : gset string)
    (st : stats) (item : string * meta) : io stats :=
  let '(dest_relative_path, dest_meta) := item in
  if bool_decide (dest_relative_path ∈ processed_dest_files) then mret st
  else
    let dest_filename := basename dest_relative_path in
    if is_protected dest_filename then mret st
    else if negb dry_run then
      r ← try_ (os_remove e (m_path dest_meta));
      match r with
      | Ok _ => mret (note_deleted dest_relative_path st)
      | Raise _ => mret (note_error dest_filename st)
      end
    else mret (note_deleted dest_filename st).

Definition sync_folder (self : sync_service) (destination : string)
    (dry_run : bool) : io stats :=
  ex ← os_path_exists destination;
  (if negb ex && negb dry_run then os_makedirs e destination else mret ());;
  source_files ← get_calibre_files self;
  dest_files ← get_replica_files destination;
  acc ← for_each (sync_source_file destination dry_run dest_files)
                 (map_to_list source_files) (stats0, ∅);
  for_each (sync_dest_file dry_run acc.2) (map_to_list dest_files) acc.1.

(** The values of the dictionary [sync_all] returns: the statistics of a
    replica, or [{"error": str(e)}]. *)
Inductive replica_result :=
  | RStats (st : stats)
  | RError (msg : string).

Definition sync_replica (self : sync_service) (dry_run : bool)
    (results : gmap string replica_result) (replica : string)
    : io (gmap string replica_result) :=
  r ← try_ (sync_folder self replica dry_run);
  match r with
  | Ok st => mret (<[replica := RStats st]> results)
  | Raise msg => mret (<[replica := RError msg]> results)
  end.

Definition sync_all (self : sync_service) (dry_run : bool)
    : io (gmap string replica_result) :=
  for_each (sync_replica self dry_run) (replica_paths self) ∅.
End Methods.

End SyncService.

(** ** Python's floats, as [get_stats] computes with them *)

Module PyFloat.

(** How [sum] adds floats depends on the interpreter: one after the other
    up to Python 3.11, with Neumaier's compensation of the rounding errors
    from Python 3.12 on. *)
Inductive summation := Sequential | Compensated.

(** One step of the compensated sum: [t = f_result + x], and the error of
    that addition goes to [c]. *)
Definition neumaier_step (acc : float * float) (x : float) : float * float :=
  let '(f_result, c) := acc in
  let t := (f_result + x)%float in
  let c := if (abs x <=? abs f_result)%float
           then (c + ((f_result - t) + x))%float
           else (c + ((x - t) + f_result))%float in
  (t, c).

(** [sum(xs)] for a sequence of floats: from the integer [0], to which the
    first float is added. *)
Definition py_sum (v : summation) (xs : list float) : float :=
  match xs with
  | [] => 0
  | x :: xs' =>
      let first := (0 + x)%float in
      match v with
      | Sequential => foldl PrimFloat.add first xs'
      | Compensated =>
          let '(f_result, c) := foldl neumaier_step (first, 0%float) xs' in
          if negb (c =? 0)%float && is_finite c then (f_result + c)%float
          else f_result
      end
  end.

(** [len(xs)], as the float that [/] makes of it (fewer than [2^53]
    entries). *)
Definition of_nat (n : nat) : float := of_uint63 (Uint63.of_Z (Z.of_nat n)).

(** The integer nearest to [n / d] for [0 <= n] and [0 < d], a tie going
    to the even one. *)
Definition div_half_even (n d : Z) : Z :=
  let q := (n / d)%Z in
  match (2 * (n mod d) ?= d)%Z with
  | Lt => q
  | Gt => (q + 1)%Z
  | Eq => if Z.even q then q else (q + 1)%Z
  end.

(** The float nearest to [n / d] for [0 < n] and [0 < d], a tie going to
    the even mantissa: what [float(s)] returns for a decimal text [s] of
    that value. *)
Definition nearest_float (n d : Z) : float :=
  let l0 := (Z.log2 n - Z.log2 d)%Z in
  let below := if (0 <=? l0)%Z then (n <? d * 2 ^ l0)%Z
               else (n * 2 ^ (- l0) <? d)%Z in
  let l := if below then (l0 - 1)%Z else l0 in
  let e := Z.max (l - 52) (-1074) in
  let m := if (0 <=? e)%Z then div_half_even n (d * 2 ^ e)
           else div_half_even (n * 2 ^ (- e)) d in
  Z.ldexp (of_uint63 (Uint63.of_Z m)) e.

(** The number of hundredths nearest to [m * 2^e], a tie going to the even
    one. *)
Definition centi (m : positive) (e : Z) : Z :=
  if (0 <=? e)%Z then (Z.pos m * 2 ^ e * 100)%Z
  else div_half_even (Z.pos m * 100) (2 ^ (- e)).

(** The float of [k] hundredths, with the sign [s]. *)
Definition hundredths (s : bool) (k : Z) : float :=
  if (k =? 0)%Z then (if s then PrimFloat.neg_zero else PrimFloat.zero)
  else if s then (- nearest_float k 100)%float else nearest_float k 100.

(** [round(x, 2)]: the decimal text of [x] with two digits after the
    point, correctly rounded from the value of [x], and read back as a
    float; an infinity and a NaN are returned as they are. *)
Definition py_round2 (x : float) : float :=
  match Prim2SF x with
  | S754_zero s => hundredths s 0
  | S754_finite s m e => hundredths s (centi m e)
  | _ => x
  end.

(** The value of a float that is finite. *)
Definition float_value (x : float) : option Q :=
  match Prim2SF x with
  | S754_zero _ => Some 0%Q
  | S754_finite s m e =>
      let a := if (0 <=? e)%Z then inject_Z (Z.pos m * 2 ^ e)
               else (Z.pos m # Z.to_pos (2 ^ (- e)))%Q in
      Some (if s then (- a)%Q else a)
  | _ => None
  end.

(** The sign of a float, [false] for a NaN. *)
Definition float_sign (x : float) : bool :=
  match Prim2SF x with
  | S754_zero s | S754_infinity s | S754_finite s _ _ => s
  | S754_nan => false
  end.

End PyFloat.

(** ** [app/services/sync_history_service.py] *)

Module SyncHistory.
Import SyncService PyFloat.

(** A [datetime] is an instant, a number of microseconds; [duration] is a
    float. *)
Record SyncHistoryEntry := Entry {
  timestamp : Z;
  sync_type : string;
  status : string;
  duration : float;
  library_path : string;
  replica_paths : list string;
  results : gmap string replica_result;
  error : option string
}.

(** The dictionary of an entry has the fields of the entry, the timestamp in
    ISO-8601 text that [fromisoformat] reads back: the entry stands for its
    dictionary. *)
Definition to_dict (entry : SyncHistoryEntry) : SyncHistoryEntry := entry.
Definition from_dict (data : SyncHistoryEntry) : SyncHistoryEntry := data.

(** The JSON document of the history file. *)
Record history_data := HistoryData {
  last_updated : Z;
  total_entries : nat;
  entries : list SyncHistoryEntry
}.

(** The history file: absent, present but failing to open or to parse, or
    holding a document. *)
Inductive store :=
  | Missing
  | Unreadable
  | Stored (data : history_data).

Definition max_entries : nat := 100.

(** [l[-n:]] *)
Definition py_last_n {A} (n : nat) (l : list A) : list A :=
  match n with
  | O => l
  | _ => drop (length l - n) l
  end.

(** [l[:k]] for an integer [k] of either sign. *)
Definition py_slice_to {A} (k : Z) (l : list A) : list A :=
  if (0 <=? k)%Z then take (Z.to_nat k) l
  else take (length l - Z.to_nat (- k)) l.

Definition _load_history (s : store) : list SyncHistoryEntry :=
  match s with
  | Missing => []
  | Unreadable => []
  | Stored data => from_dict <$> entries data
  end.

(** [disk_ok] tells whether writing the temporary file and renaming it
    succeed; the exception of a failure is logged and dropped. *)
Definition _save_history (saved_at : Z) (disk_ok : bool)
    (history : list SyncHistoryEntry) (s : store) : store :=
  let recent_entries :=
    if (max_entries <? length history)%nat then py_last_n max_entries history
    else history in
  if disk_ok then
    Stored (HistoryData saved_at (length recent_entries) (to_dict <$> recent_entries))
  else s.

(** [now] and [saved_at] are the two readings of the clock. *)
Definition add_sync_entry (now saved_at : Z) (disk_ok : bool)
    (sync_type status : string) (duration : float) (library_path : string)
    (replica_paths : list string) (results : gmap string replica_result)
    (error : option string) (s : store) : store :=
  let entry := Entry now sync_type status duration library_path replica_paths
                     results error in
  let history := _load_history s in
  let history := history ++ [entry] in
  _save_history saved_at disk_ok history s.

(** [entries.sort(key=lambda x: x.timestamp, reverse=True)]: the sort is
    stable, entries of equal timestamp keep their order. *)
Fixpoint insert_desc (x : SyncHistoryEntry) (l : list SyncHistoryEntry)
    : list SyncHistoryEntry :=
  match l with
  | [] => [x]
  | y :: l' =>
      if (timestamp y <=? timestamp x)%Z then x :: l
      else y :: insert_desc x l'
  end.

Definition sort_desc (l : list SyncHistoryEntry) : list SyncHistoryEntry :=
  foldr insert_desc [] l.

(** [if limit:] holds for an integer other than zero. *)
Definition get_history (limit : option Z) (s : store) : list SyncHistoryEntry :=
  let entries := _load_history s in
  let entries := sort_desc entries in
  let entries :=
    match limit with
    | Some k => if (k =? 0)%Z then entries else py_slice_to k entries
    | None => entries
    end in
  to_dict <$> entries.

Definition get_latest_sync (s : store) : option SyncHistoryEntry :=
  head (get_history (Some 1%Z) s).

(** [max(entries, key=lambda x: x.timestamp)]: the first of the greatest. *)
Definition py_max_by_timestamp (l : list SyncHistoryEntry)
    : option SyncHistoryEntry :=
  match l with
  | [] => None
  | x :: l' =>
      Some (foldl (λ best y, if (timestamp best <? timestamp y)%Z then y else best)
                  x l')
  end.

Record history_stats := HistoryStats {
  total_syncs : nat;
  successful_syncs : nat;
  failed_syncs : nat;
  last_sync : option SyncHistoryEntry;
  average_duration : float
}.

(** [v] is the summation of the interpreter that runs the service. *)
Definition get_stats (v : summation) (s : store) : history_stats :=
  let entries := _load_history s in
  match entries with
  | [] => HistoryStats 0 0 0 None 0
  | _ =>
      let successful := filter (λ e, status e = "completed") entries in
      let failed := filter (λ e, status e = "failed") entries in
      let avg_duration :=
        match successful with
        | [] => 0%float
        | _ => (py_sum v (duration <$> successful) / of_nat (length successful))%float
        end in
      let latest := py_max_by_timestamp entries in
      HistoryStats (length entries) (length successful) (length failed)
                   (to_dict <$> latest) (py_round2 avg_duration)
  end.

Definition clear_history (disk_ok : bool) (s : store) : store :=
  match s with
  | Missing => Missing
  | _ => if disk_ok then Missing else s
  end.

End SyncHistory.

(** ** [app/routers/sync.py] *)

Module Router.
Import Fs SyncService.

(** The module-level dictionary [sync_status]. *)
Record sync_status := SyncStatus {
  last_sync : option Z;
  in_progress : bool;
  result : option (gmap string replica_result);
  errors : option string
}.

Definition sync_status0 : sync_status := SyncStatus None false None None.

Record SyncResponse := Response {
  r_status : string;
  r_last_sync : option Z;
  r_details : option (option (gmap string replica_result) * option string)
}.

(** [trigger_sync] reads [sync_status] and writes nothing to it; the second
    component lists the calls of [perform_sync] handed to
    [background_tasks.add_task], each by its [dry_run]. *)
Definition trigger_sync (dry_run : bool) (st : sync_status)
    : SyncResponse * list bool :=
  if in_progress st then
    (Response "already_running" (last_sync st) None, [])
  else
    (Response "started" (last_sync st) None, [dry_run]).

Definition get_sync_status (st : sync_status) : SyncResponse :=
  Response (if in_progress st then "in_progress" else "idle")
           (last_sync st) (Some (result st, errors st)).

(** [limit] is the query parameter, [20] when the request has none. *)
Definition get_sync_history (limit : option Z) (h : SyncHistory.store)
    : list SyncHistory.SyncHistoryEntry :=
  SyncHistory.get_history (Some (default 20%Z limit)) h.

(** What a run works on: the run state, the file system of the library
    and of the replicas, and the history file, which is kept in a
    directory of its own ([/config]). *)
Record machine := Machine {
  m_status : sync_status;
  m_world : world;
  m_history : SyncHistory.store
}.

(** The readings of the clock during one call of [perform_sync], and
    whether the history file can be written. *)
Record run_clock := RunClock {
  c_duration : float;   (* time.time() - start_time *)
  c_finished : Z;       (* datetime.datetime.now() *)
  c_entry : Z;          (* the timestamp of the history entry *)
  c_saved : Z;          (* last_updated of the history file *)
  c_disk_ok : bool
}.

Section PerformSync.
Context (e : os_env) (self : sync_service).

Definition sync_folders (dry_run : bool) : io (gmap string replica_result) :=
  sync_all e self dry_run.

(** The first statements of the [try] block. *)
Definition perform_sync_begin (st : sync_status) : sync_status :=
  SyncStatus (last_sync st) true None None.

(** The rest of [perform_sync]: the run, the history entry, and the
    [finally] clause. *)
Definition perform_sync_finish (dry_run : bool) (c : run_clock) (m : machine)
    : machine :=
  let st := m_status m in
  let kind := if dry_run then "dry_run" else "sync" in
  match sync_folders dry_run (m_world m) with
  | (w, Ok res) =>
      let h := SyncHistory.add_sync_entry (c_entry c) (c_saved c) (c_disk_ok c)
                 kind "completed" (c_duration c) (source_path self)
                 (replica_paths self) res None (m_history m) in
      Machine (SyncStatus (Some (c_finished c)) false (Some res) (errors st)) w h
  | (w, Raise error_msg) =>
      let h := SyncHistory.add_sync_entry (c_entry c) (c_saved c) (c_disk_ok c)
                 kind "failed" (c_duration c) (source_path self)
                 (replica_paths self) ∅ (Some error_msg) (m_history m) in
      Machine (SyncStatus (last_sync st) false (result st) (Some error_msg)) w h
  end.

(** [perform_sync] from its [try] block on; the lines before it are in
    [Task.perform_sync_call]. *)
Definition perform_sync (dry_run : bool) (c : run_clock) (m : machine) : machine :=
  perform_sync_finish dry_run c
    (Machine (perform_sync_begin (m_status m)) (m_world m) (m_history m)).

(** The server: requests are handled one at a time by the event loop; a
    call of [perform_sync] added by [add_task] starts after the response
    of its request has been sent, on a worker thread, and runs while the
    event loop handles further requests. *)
Record server := Server {
  sv_machine : machine;
  sv_scheduled : list bool;   (* added by [add_task], not yet started *)
  sv_active : list bool       (* calls of [perform_sync] that have started *)
}.

Inductive event :=
  | Trigger (dry_run : bool)      (* POST /sync/trigger is handled *)
  | TaskStarts                    (* the oldest scheduled call starts *)
  | TaskFinishes (c : run_clock). (* the oldest active call runs to its end *)

Definition server0 (w : world) : server :=
  Server (Machine sync_status0 w SyncHistory.Missing) [] [].

Definition step (sv : server) (ev : event) : option (server * option SyncResponse) :=
  let m := sv_machine sv in
  match ev with
  | Trigger dry_run =>
      let '(resp, tasks) := trigger_sync dry_run (m_status m) in
      Some (Server m (sv_scheduled sv ++ tasks) (sv_active sv), Some resp)
  | TaskStarts =>
      match sv_scheduled sv with
      | [] => None
      | dry_run :: rest =>
          Some (Server (Machine (perform_sync_begin (m_status m))
                                (m_world m) (m_history m))
                       rest (sv_active sv ++ [dry_run]), None)
      end
  | TaskFinishes c =>
      match sv_active sv with
      | [] => None
      | dry_run :: rest =>
          Some (Server (perform_sync_finish dry_run c m) (sv_scheduled sv) rest,
                None)
      end
  end.

(** The server after a sequence of events, with the responses sent. *)
Fixpoint run_events (sv : server) (evs : list event)
    : option (server * list SyncResponse) :=
  match evs with
  | [] => Some (sv, [])
  | ev :: evs' =>
      match step sv ev with
      | None => None
      | Some (sv', resp) =>
          match run_events sv' evs' with
          | None => None
          | Some (sv'', resps) => Some (sv'', option_list resp ++ resps)
          end
      end
  end.
End PerformSync.

End Router.

(** ** The words of the specification on the history ledger *)

Module HistorySpec.
Import SyncService PyFloat SyncHistory.

(** One call of [add_sync_entry]: its arguments, the two readings of the
    clock, and whether the file could be written. *)
Record add_call := AddCall {
  a_now : Z;
  a_saved_at : Z;
  a_disk_ok : bool;
  a_sync_type : string;
  a_status : string;
  a_duration : float;
  a_library_path : string;
  a_replica_paths : list string;
  a_results : gmap string replica_result;
  a_error : option string
}.

Definition entry_of (c : add_call) : SyncHistoryEntry :=
  Entry (a_now c) (a_sync_type c) (a_status c) (a_duration c) (a_library_path c)
        (a_replica_paths c) (a_results c) (a_error c).

Definition call (s : store) (c : add_call) : store :=
  add_sync_entry (a_now c) (a_saved_at c) (a_disk_ok c) (a_sync_type c)
    (a_status c) (a_duration c) (a_library_path c) (a_replica_paths c)
    (a_results c) (a_error c) s.

(** The most recent [n] of a sequence, in its order. *)
Fixpoint most_recent {A} (n : nat) (l : list A) : list A :=
  match l with
  | [] => []
  | x :: l' => if (length l' <? n)%nat then x :: l' else most_recent n l'
  end.

(** The number of entries of a status. *)
Fixpoint count_status (st : string) (l : list SyncHistoryEntry) : nat :=
  match l with
  | [] => 0
  | e :: l' => (if String.eqb (status e) st then 1 else 0) + count_status st l'
  end.

(** The entries of a status, in their order. *)
Fixpoint with_status (st : string) (l : list SyncHistoryEntry)
    : list SyncHistoryEntry :=
  match l with
  | [] => []
  | e :: l' => if String.eqb (status e) st then e :: with_status st l'
               else with_status st l'
  end.

(** The mean of the durations, zero for no entry: their sum divided by
    their number, as floats. *)
Definition mean_duration (v : summation) (l : list SyncHistoryEntry) : float :=
  match l with
  | [] => 0
  | _ => (py_sum v (duration <$> l) / of_nat (length l))%float
  end.

(** Most recent first. *)
Definition newer_first (a b : SyncHistoryEntry) : Prop :=
  (timestamp b ≤ timestamp a)%Z.

End HistorySpec.

(** ** Sample machines *)

Module Examples.
Import Fs SyncService.

(** An operating system on which nothing fails; the digest of the sample
    files is their content. *)
Definition quiet : os_env := OsEnv (λ data, data) (λ _, None).

Definition library : sync_service := SyncService "library" ["replica"].

(** A replica that holds the metadata database and an orphan. *)
Definition w_protected : world :=
  {[ "library" := {[ "book/a.epub" := File "epub" 10 ]};
     "replica" := {[ "metadata.db" := File "db" 3;
                     "old/b.epub" := File "old" 4 ]} ]}.

(** The backup of the preferences, in the library and in the replica. *)
Definition w_backup : world :=
  {[ "library" := {[ "metadata_db_prefs_backup.json" := File "{}" 10 ]};
     "replica" := {[ "metadata_db_prefs_backup.json" := File "{}" 10 ]} ]}.

(** A library with a JSON file and a replica without it. *)
Definition w_prefs : world :=
  {[ "library" := {[ "prefs.json" := File "{}" 10;
                     "book/a.epub" := File "epub" 10 ]};
     "replica" := {[ "book/a.epub" := File "epub" 10 ]} ]}.



(** A history of one run that took 1.234 seconds. *)
Definition one_run : SyncHistory.store :=
  SyncHistory.Stored
    (SyncHistory.HistoryData 5 1
       [SyncHistory.Entry 4 "sync" "completed" 1.234 "library"
          ["replica"] ∅ None]).

(** A history of three runs that took 2.201, 0.646 and 0.198 seconds. *)
Definition three_runs : SyncHistory.store :=
  SyncHistory.Stored
    (SyncHistory.HistoryData 9 3
       [SyncHistory.Entry 4 "sync" "completed" 2.201 "library" ["replica"] ∅ None;
        SyncHistory.Entry 6 "sync" "completed" 0.646 "library" ["replica"] ∅ None;
        SyncHistory.Entry 8 "sync" "completed" 0.198 "library" ["replica"] ∅ None]).

(** A call of [add_sync_entry] during which the disk is full. *)
Definition lost_call : HistorySpec.add_call :=
  HistorySpec.AddCall 4 5 false "sync" "completed" 1 "library" ["replica"] ∅ None.

(** Two calls that are saved, around one that is not. *)
Definition three_calls : list HistorySpec.add_call :=
  [HistorySpec.AddCall 1 2 true "sync" "completed" 1 "library" ["replica"] ∅ None;
   lost_call;
   HistorySpec.AddCall 7 8 true "dry_run" "completed" 2 "library" ["replica"] ∅ None].

(** A replica that cannot be written: every copy fails. *)
Definition read_only : os_env :=
  OsEnv (λ data, data)
        (λ op, match op with
               | OpCopy _ _ => Some "Read-only file system"
               | _ => None
               end).

(** A library of one book and an empty replica. *)
Definition w_new : world :=
  {[ "library" := {[ "book/a.epub" := File "epub" 10 ]};
     "replica" := ∅ ]}.

(** The result of a first real run. *)
Definition first_run : world * outcome stats :=
  sync_folder quiet library "replica" false w_protected.

Definition stats_of (r : outcome stats) : stats :=
  match r with
  | Ok st => st
  | Raise _ => stats0
  end.

(** A second replica that cannot be created. *)
Definition locked_usb : os_env :=
  OsEnv (λ data, data)
        (λ op, match op with
               | OpMakedirs root =>
                   if String.eqb root "usb" then Some "Permission denied" else None
               | _ => None
               end).

Definition two_replicas : sync_service := SyncService "library" ["usb"; "replica"].

End Examples.

(** ** Notions the properties are stated with *)

Module Notions.
Import Path Fs SyncService.

(** The two loops, from the catalogs [S] and [D]. *)
Definition sync_loops (e : os_env) (d : string) (dry_run : bool)
    (S D : gmap string meta) : io stats :=
  acc ← for_each (sync_source_file e d dry_run D) (map_to_list S) (stats0, ∅);
  for_each (sync_dest_file e dry_run acc.2) (map_to_list D) acc.1.

(** The items of a catalog: distinct relative paths, each with the record
    of the file at that path. *)
Definition items_of (root : string) (w : world) (xs : list (string * meta)) : Prop :=
  NoDup xs.*1 ∧ ∀ x, x ∈ xs → walk root w !! x.1 = Some x.2.

(** The pair of a source file and its copy that the comparison of
    [sync_folder] takes for unchanged: same size and modification times
    that [mtime_differs] does not tell apart, or else digests that can be
    read and are equal. *)
Definition settled_files (e : os_env) (sp d rel : string) (fs fd : file) : Prop :=
  (f_size fs = f_size fd ∧ mtime_differs (f_mtime fs) (f_mtime fd) = false)
  ∨ (fault e (OpRead (sp, rel)) = None ∧ fault e (OpRead (d, rel)) = None
     ∧ md5 e (f_data fs) = md5 e (f_data fd)).

(** A file system on which a run has nothing to do: the destination is
    there, every source file that is not ignored has a settled copy, and
    every file of the destination is such a copy or is protected. *)
Definition settled_world (e : os_env) (sp d : string) (w : world) : Prop :=
  is_Some (w !! d)
  ∧ (∀ rel fs, wget w (sp, rel) = Some fs →
       startswith_dot (basename rel) = false →
       is_ignored (basename rel) = false →
       ∃ fd, wget w (d, rel) = Some fd ∧ settled_files e sp d rel fs fd)
  ∧ (∀ q fd, wget w (d, q) = Some fd →
       startswith_dot (basename q) = false →
       (is_Some (wget w (sp, q)) ∧ is_ignored (basename q) = false)
       ∨ is_protected (basename q) = true).

(** What holds while a real run goes through the source catalog without
    counting an error. *)
Definition source_loop_good (e : os_env) (sp d : string) (w0 : world)
    (xs : list (string * meta)) (acc : stats * gset string) (w : world) : Prop :=
  items_of sp w0 xs
  ∧ is_Some (w !! d)
  ∧ (∀ r rel, r ≠ d → wget w (r, rel) = wget w0 (r, rel))
  ∧ (∀ q, q ∉ acc.2 → wget w (d, q) = wget w0 (d, q))
  ∧ (∀ rel, rel ∈ acc.2 →
       is_ignored (basename rel) = false
       ∧ startswith_dot (basename rel) = false
       ∧ ∃ fs fd, wget w (sp, rel) = Some fs ∧ wget w (d, rel) = Some fd
                  ∧ settled_files e sp d rel fs fd)
  ∧ (∀ rel, is_Some (walk sp w0 !! rel) → is_ignored (basename rel) = false →
       rel ∈ xs.*1 ∨ rel ∈ acc.2)
  ∧ (∀ rel, rel ∈ acc.2 → rel ∉ xs.*1).

(** The same for the destination catalog; [pr] is the set of processed
    paths. *)
Definition dest_loop_good (e : os_env) (sp d : string) (w0 : world)
    (pr : gset string) (xs : list (string * meta)) (w : world) : Prop :=
  items_of d w0 xs
  ∧ is_Some (w !! d)
  ∧ (∀ r rel, r ≠ d → wget w (r, rel) = wget w0 (r, rel))
  ∧ (∀ rel, rel ∈ pr →
       is_ignored (basename rel) = false
       ∧ startswith_dot (basename rel) = false
       ∧ ∃ fs fd, wget w (sp, rel) = Some fs ∧ wget w (d, rel) = Some fd
                  ∧ settled_files e sp d rel fs fd)
  ∧ (∀ q, q ∉ pr → wget w (d, q) = wget w0 (d, q) ∨ wget w (d, q) = None)
  ∧ (∀ q, is_Some (walk d w0 !! q) → q ∉ pr → is_protected (basename q) = false →
       q ∈ xs.*1 ∨ wget w (d, q) = None).

(** The statistics of a real run as a dry run reports them: the deleted
    files by their base names. *)
Definition dry_view (s : stats) : stats :=
  Stats (added s) (updated s) (deleted s) (unchanged s) (ignored s) (errors s)
        (added_files s) (updated_files s) (basename <$> deleted_files s)
        (ignored_files s) (error_files s).

End Notions.

(** ** Directories that lie apart *)

Module Layout.

(** [p.split("/")] *)
Fixpoint split_sep (p : string) : list string :=
  match p with
  | EmptyString => [EmptyString]
  | String c r =>
      if Ascii.eqb c "/"%char then EmptyString :: split_sep r
      else match split_sep r with
           | h :: t => String c h :: t
           | [] => [String c EmptyString]
           end
  end.

(** The components of a path, as the operating system follows them: an
    empty component and [.] lead nowhere. *)
Definition components (p : string) : list string :=
  filter (λ c, c ≠ "" ∧ c ≠ ".") (split_sep p).

(** [os.path.isabs(p)] *)
Definition is_absolute (p : string) : bool :=
  match p with
  | String c _ => Ascii.eqb c "/"%char
  | EmptyString => false
  end.

(** Two directories lie apart: their paths are both absolute or both
    relative to the working directory, none goes up through [..], and
    none leads to the other directory or into it.  (Paths are followed
    name by name; a symbolic link is not.) *)
Definition apart (a b : string) : bool :=
  Bool.eqb (is_absolute a) (is_absolute b)
  && bool_decide (".." ∉ components a)
  && bool_decide (".." ∉ components b)
  && negb (bool_decide (components a `prefix_of` components b))
  && negb (bool_decide (components b `prefix_of` components a)).

End Layout.

(** ** [app/config.py], and [get_sync_service] of [sync_service.py] *)

Module Config.
Import Fs SyncService.

(** [str.isspace] on the ASCII range: the tab, the line feed, the vertical
    tab, the form feed, the carriage return, the four separators [\x1c] to
    [\x1f] and the space. *)
Definition is_space (c : ascii) : bool :=
  let n := nat_of_ascii c in
  ((9 <=? n)%nat && (n <=? 13)%nat) || ((28 <=? n)%nat && (n <=? 32)%nat).

(** [s.lstrip()] *)
Fixpoint lstrip (s : string) : string :=
  match s with
  | EmptyString => EmptyString
  | String c r => if is_space c then lstrip r else s
  end.

(** [s.rstrip()] *)
Fixpoint rstrip (s : string) : string :=
  match s with
  | EmptyString => EmptyString
  | String c r =>
      match rstrip r with
      | EmptyString => if is_space c then EmptyString else String c EmptyString
      | r' => String c r'
      end
  end.

(** [s.strip()] *)
Definition strip (s : string) : string := rstrip (lstrip s).

(** [s.split(",")]: the pieces between the commas, the empty ones too. *)
Fixpoint split_comma (s : string) : list string :=
  match s with
  | EmptyString => [EmptyString]
  | String c r =>
      if Ascii.eqb c ","%char then EmptyString :: split_comma r
      else match split_comma r with
           | h :: t => String c h :: t
           | [] => [String c EmptyString]
           end
  end.

(** The fields of [Settings] that the services read. *)
Record Settings := MkSettings {
  CALIBRE_LIBRARY_PATH : string;
  REPLICA_PATHS : string
}.

(** [[path.strip() for path in self.REPLICA_PATHS.split(",") if path.strip()]] *)
Definition replica_paths_list (self : Settings) : list string :=
  strip <$> filter (λ path, strip path ≠ "") (split_comma (REPLICA_PATHS self)).

(** [Path(self.CALIBRE_LIBRARY_PATH).exists()] *)
Definition library_exists (self : Settings) (w : world) : bool :=
  bool_decide (is_Some (w !! CALIBRE_LIBRARY_PATH self)).

(** [[path for path in self.replica_paths_list if Path(path).exists()]] *)
Definition valid_replica_paths (self : Settings) (w : world) : list string :=
  filter (λ path, is_Some (w !! path)) (replica_paths_list self).

(** The validators [if not v or not v.strip(): raise ValueError(...)] and
    [return v.strip()]: the value that is kept, or [None] for the
    exception. *)
Definition validate_library_path (v : string) : option string :=
  if bool_decide (v = "") || bool_decide (strip v = "") then None
  else Some (strip v).

Definition validate_replica_paths (v : string) : option string :=
  if bool_decide (v = "") || bool_decide (strip v = "") then None
  else Some (strip v).

(** [Settings()] from the values of the two variables of the environment:
    each field goes through its validator and keeps what it returns. *)
Definition load_settings (library replicas : string) : option Settings :=
  lib ← validate_library_path library;
  reps ← validate_replica_paths replicas;
  Some (MkSettings lib reps).

(** [get_sync_service] *)
Definition get_sync_service (settings : Settings) : sync_service :=
  SyncService (CALIBRE_LIBRARY_PATH settings) (replica_paths_list settings).

(** *** Words for the properties of the list of replicas *)

(** [sep.join(l)] *)
Fixpoint join (sep : string) (l : list string) : string :=
  match l with
  | [] => ""
  | [p] => p
  | p :: l' => p ++ sep ++ join sep l'
  end.

Fixpoint has_comma (s : string) : bool :=
  match s with
  | EmptyString => false
  | String c r => Ascii.eqb c ","%char || has_comma r
  end.

Fixpoint all_space (s : string) : bool :=
  match s with
  | EmptyString => true
  | String c r => is_space c && all_space r
  end.

Definition starts_with_space (s : string) : bool :=
  match s with
  | String c _ => is_space c
  | EmptyString => false
  end.

(** A path as [replica_paths_list] gives them: not empty, no comma, no
    white space at either end. *)
Definition clean_path (p : string) : Prop :=
  p ≠ "" ∧ has_comma p = false ∧ strip p = p.

(** [f] on the last element. *)
Fixpoint map_last {A} (f : A → A) (l : list A) : list A :=
  match l with
  | [] => []
  | [x] => [f x]
  | x :: l' => x :: map_last f l'
  end.

(** The trimmed pieces that are not empty. *)
Definition trimmed (l : list string) : list string :=
  strip <$> filter (λ path, strip path ≠ "") l.

End Config.

(** ** Requests on the history ledger *)

Module Ledger.
Import SyncService SyncHistory HistorySpec.

Inductive request :=
  | Add (c : add_call)          (* add_sync_entry(...) *)
  | Clear (disk_ok : bool).     (* clear_history(); whether unlink succeeds *)

Definition serve (s : store) (r : request) : store :=
  match r with
  | Add c => call s c
  | Clear disk_ok => clear_history disk_ok s
  end.

(** The document of the history file is consistent: [total_entries] is the
    number of its entries, which is at most [max_entries]. *)
Definition consistent (s : store) : Prop :=
  match s with
  | Stored data =>
      total_entries data = length (entries data)
      ∧ (length (entries data) ≤ max_entries)%nat
  | _ => True
  end.

End Ledger.

(** ** More notions on the runs *)

Module Trace.
Import Path Fs SyncService Notions.

(** Every counter is the length of its list. *)
Definition counts_match (s : stats) : Prop :=
  added s = length (added_files s)
  ∧ updated s = length (updated_files s)
  ∧ deleted s = length (deleted_files s)
  ∧ ignored s = length (ignored_files s)
  ∧ errors s = length (error_files s).

(** The source files that a run has classified. *)
Definition classified (s : stats) : nat :=
  (added s + updated s + unchanged s + ignored s)%nat.

(** An operating system on which no operation fails. *)
Definition no_fault (e : os_env) : Prop := ∀ op, fault e op = None.

(** What holds while any real run goes through the source catalog: what is
    listed as added or updated is in the destination, as the source has
    it; the processed paths are those of the source files that are not
    ignored. *)
Definition source_loop_trace (e : os_env) (sp d : string) (w0 : world)
    (xs : list (string * meta)) (acc : stats * gset string) (w : world) : Prop :=
  items_of sp w0 xs
  ∧ (∀ r rel, r ≠ d → wget w (r, rel) = wget w0 (r, rel))
  ∧ (∀ q, q ∉ acc.2 → wget w (d, q) = wget w0 (d, q))
  ∧ (∀ rel, rel ∈ acc.2 →
       (rel ∉ xs.*1) ∧ is_Some (walk sp w0 !! rel)
       ∧ is_ignored (basename rel) = false)
  ∧ (∀ rel, is_Some (walk sp w0 !! rel) → is_ignored (basename rel) = false →
       rel ∈ xs.*1 ∨ rel ∈ acc.2)
  ∧ (∀ rel, rel ∈ added_files acc.1 →
       rel ∈ acc.2 ∧ wget w0 (d, rel) = None
       ∧ ∃ f, wget w0 (sp, rel) = Some f ∧ wget w (d, rel) = Some f)
  ∧ (∀ rel, rel ∈ updated_files acc.1 →
       rel ∈ acc.2
       ∧ ∃ f fd, wget w0 (sp, rel) = Some f ∧ wget w0 (d, rel) = Some fd
                 ∧ md5 e (f_data f) ≠ md5 e (f_data fd)
                 ∧ wget w (d, rel) = Some f)
  ∧ deleted_files acc.1 = [].

(** The same for the destination catalog: the copies of the source loop
    stay, and what is listed as deleted is gone. [wm] and [stm] are the
    file system and the statistics that the source loop left, [pr] the set
    of processed paths. *)
Definition dest_loop_trace (d : string) (w0 wm : world) (stm : stats)
    (pr : gset string) (xs : list (string * meta)) (st : stats) (w : world)
    : Prop :=
  items_of d w0 xs
  ∧ (∀ rel, rel ∈ pr → wget w (d, rel) = wget wm (d, rel))
  ∧ added_files st = added_files stm
  ∧ updated_files st = updated_files stm
  ∧ (∀ q, q ∈ deleted_files st →
       (q ∉ pr) ∧ is_protected (basename q) = false
       ∧ is_Some (walk d w0 !! q) ∧ wget w (d, q) = None).

(** The file at [p] that the catalog of [root] lists. *)
Definition catalogued (root : string) (w : world) (p : string) : option file :=
  _ ← walk root w !! p; wget w (root, p).

(** The file that a source file [fs] leaves at its path in the destination,
    from the file [old] that the destination catalog lists there: [old]
    when the comparison takes the two for the same (the size and the time,
    or else the digests), the source file otherwise. *)
Definition expected_copy (e : os_env) (fs : file) (old : option file) : file :=
  match old with
  | None => fs
  | Some fd =>
      if negb (f_size fs =? f_size fd)%nat
         || mtime_differs (f_mtime fs) (f_mtime fd)
      then if String.eqb (md5 e (f_data fs)) (md5 e (f_data fd)) then fd else fs
      else fd
  end.

(** The destination that a real run leaves when nothing fails, file by
    file: at the path of a file of the source catalog that is not ignored
    stands its expected copy; any other file of the destination catalog
    stays if its name is protected and is gone if it is not; a file that
    no catalog lists is as it was. *)
Definition mirror_file (e : os_env) (sp d : string) (w : world) (p : string)
    : option file :=
  let other :=
    match catalogued d w p with
    | Some fd => if is_protected (basename p) then Some fd else None
    | None => wget w (d, p)
    end in
  match catalogued sp w p with
  | Some fs =>
      if is_ignored (basename p) then other
      else Some (expected_copy e fs (catalogued d w p))
  | None => other
  end.

(** The runs of [sync_folder] over a list of replicas, one after the
    other: the file system that the last one leaves, and each replica with
    the outcome of its run. *)
Fixpoint folder_runs (e : os_env) (self : sync_service) (dry_run : bool)
    (replicas : list string) (w : world) : world * list (string * outcome stats) :=
  match replicas with
  | [] => (w, [])
  | replica :: rest =>
      let '(w1, o) := sync_folder e self replica dry_run w in
      let '(w2, os) := folder_runs e self dry_run rest w1 in
      (w2, (replica, o) :: os)
  end.

(** What [sync_all] stores for the outcome of a run. *)
Definition result_of (o : outcome stats) : replica_result :=
  match o with
  | Ok st => RStats st
  | Raise msg => RError msg
  end.

End Trace.

(** ** The whole of [perform_sync] *)

Module Task.
Import Fs SyncService Router.


End Task.

(** ** More sample machines *)

Module Samples.
Import Fs SyncService.

(** A library with a hidden file, and a replica with another one. *)
Definition w_hidden : world :=
  {[ "library" := {[ "book/a.epub" := File "epub" 10;
                     "book/.calnotes" := File "notes" 10 ]};
     "replica" := {[ "book/.DS_Store" := File "junk" 4;
                     "old/b.epub" := File "old" 4 ]} ]}.

(** A library of a new book, a changed book and a JSON file, in front of a
    replica that holds the first edition of the changed book and an
    orphan. *)
Definition w_mixed : world :=
  {[ "library" := {[ "new/a.epub" := File "epub" 10;
                     "book/c.epub" := File "second edition" 50;
                     "prefs.json" := File "{}" 10 ]};
     "replica" := {[ "book/c.epub" := File "first edition" 20;
                     "old/b.epub" := File "old" 4 ]} ]}.

(** A book that was changed in the library without a change of its size
    or of its time. *)
Definition w_stale : world :=
  {[ "library" := {[ "book/c.epub" := File "edition 2" 50 ]};
     "replica" := {[ "book/c.epub" := File "edition 1" 50 ]} ]}.

(** A configuration with a replica that is there and one that is not. *)
Definition two_paths : Config.Settings := Config.MkSettings "library" "replica, usb".



(** A history that is read after a run that started at 7. *)
Definition later_call : HistorySpec.add_call :=
  HistorySpec.AddCall 7 8 true "dry_run" "completed" 2 "library" ["replica"] ∅ None.

End Samples.

(** * Properties *)

Local Open Scope nat_scope.

Import Path Fs SyncService Notions.
Import PyFloat Trace.

(** ** Paths *)

Lemma basename_no_sep p : has_sep (basename p) = false.
Proof.
  induction p as [|c r IH]; simpl; [done|].
  destruct (has_sep r) eqn:Hr; [done|].
  destruct (Ascii.eqb c "/") eqn:Hc; [done|].
  simpl. by rewrite Hc, Hr.
Qed.

Lemma basename_id p : has_sep p = false → basename p = p.
Proof.
  destruct p as [|c r]; simpl; [done|].
  intros [Hc Hr]%orb_false_iff. by rewrite Hr, Hc.
Qed.

Lemma basename_idemp p : basename (basename p) = basename p.
Proof. apply basename_id, basename_no_sep. Qed.

(** ** The file system *)

Lemma tree_of_ensure_root (w : world) r r' :
  tree_of (<[r := tree_of w r]> w) r' = tree_of w r'.
Proof.
  unfold tree_of. destruct (decide (r = r')) as [->|Hne].
  - by rewrite lookup_insert_eq.
  - by rewrite lookup_insert_ne.
Qed.

Lemma wget_ensure_root (w : world) r q :
  wget (<[r := tree_of w r]> w) q = wget w q.
Proof. unfold wget. by rewrite tree_of_ensure_root. Qed.

Lemma tree_of_wput p f (w : world) r :
  tree_of (wput p f w) r
  = if decide (p.1 = r) then <[p.2 := f]> (tree_of w r) else tree_of w r.
Proof.
  unfold wput, tree_of. case_decide as H.
  - subst r. by rewrite lookup_insert_eq.
  - by rewrite lookup_insert_ne.
Qed.

Lemma tree_of_wdel p (w : world) r :
  tree_of (wdel p w) r
  = if decide (p.1 = r) then delete p.2 (tree_of w r) else tree_of w r.
Proof.
  unfold wdel, tree_of. destruct (w !! p.1) as [t|] eqn:Ht.
  - case_decide as H.
    + subst r. by rewrite lookup_insert_eq, Ht.
    + by rewrite lookup_insert_ne.
  - case_decide as H; [|done]. subst r. rewrite Ht. simpl.
    by rewrite delete_empty.
Qed.

Lemma wget_wput p f (w : world) q :
  wget (wput p f w) q = if decide (p = q) then Some f else wget w q.
Proof.
  unfold wget. rewrite tree_of_wput. destruct p as [r1 k1], q as [r2 k2]; simpl.
  case_decide as H1.
  - subst r2. destruct (decide (k1 = k2)) as [->|Hk].
    + rewrite lookup_insert_eq. by rewrite decide_True.
    + rewrite lookup_insert_ne by done. rewrite decide_False; [done|congruence].
  - rewrite decide_False; [done|congruence].
Qed.

Lemma wget_wdel p (w : world) q :
  wget (wdel p w) q = if decide (p = q) then None else wget w q.
Proof.
  unfold wget. rewrite tree_of_wdel. destruct p as [r1 k1], q as [r2 k2]; simpl.
  case_decide as H1.
  - subst r2. destruct (decide (k1 = k2)) as [->|Hk].
    + rewrite lookup_delete_eq. by rewrite decide_True.
    + rewrite lookup_delete_ne by done. rewrite decide_False; [done|congruence].
  - rewrite decide_False; [done|congruence].
Qed.

(** ** The monad *)

Lemma bind_eq {A B} (m : io A) (k : A → io B) w :
  (m ≫= k) w
  = match m w with
    | (w', Ok a) => k a w'
    | (w', Raise msg) => (w', Raise msg)
    end.
Proof. done. Qed.

Lemma for_each_cons {A S} (body : S → A → io S) x xs acc w :
  for_each body (x :: xs) acc w
  = match body acc x w with
    | (w', Ok acc') => for_each body xs acc' w'
    | (w', Raise msg) => (w', Raise msg)
    end.
Proof. done. Qed.

(** A loop keeps an invariant [P] of the items still to visit, the
    accumulator and the file system; [R] is what holds of the file system
    when the loop is left by an exception. *)
Lemma for_each_inv {A S} (body : S → A → io S)
    (P : list A → S → world → Prop) (R : world → Prop) :
  (∀ x xs acc w, P (x :: xs) acc w →
     match body acc x w with
     | (w', Ok acc') => P xs acc' w'
     | (w', Raise _) => R w'
     end) →
  ∀ xs acc w, P xs acc w →
    match for_each body xs acc w with
    | (w', Ok acc') => P [] acc' w'
    | (w', Raise _) => R w'
    end.
Proof.
  intros Hstep xs. induction xs as [|x xs IH]; intros acc w HP; [done|].
  rewrite for_each_cons. specialize (Hstep x xs acc w HP).
  destruct (body acc x w) as [w' [acc'|msg]]; [by apply IH|done].
Qed.

Lemma for_each_run {A S} (body : S → A → io S)
    (P : list A → S → world → Prop) (R : world → Prop) xs acc w w' r :
  for_each body xs acc w = (w', r) →
  (∀ x xs acc w, P (x :: xs) acc w →
     match body acc x w with
     | (w', Ok acc') => P xs acc' w'
     | (w', Raise _) => R w'
     end) →
  P xs acc w →
  match r with
  | Ok acc' => P [] acc' w'
  | Raise _ => R w'
  end.
Proof.
  intros Hrun Hstep HP. pose proof (for_each_inv body P R Hstep xs acc w HP) as H.
  by rewrite Hrun in H.
Qed.

(** ** The catalogs *)

Lemma walk_lookup root w rel :
  walk root w !! rel
  = if startswith_dot (basename rel) then None
    else (λ f, Meta (root, rel) (f_size f) (f_mtime f) rel) <$> wget w (root, rel).
Proof.
  unfold walk, wget. rewrite map_lookup_imap. simpl.
  destruct (tree_of w root !! rel); simpl; by destruct (startswith_dot _).
Qed.

Lemma walk_lookup_Some root w rel m :
  walk root w !! rel = Some m →
  ∃ f, wget w (root, rel) = Some f
       ∧ m = Meta (root, rel) (f_size f) (f_mtime f) rel
       ∧ startswith_dot (basename rel) = false.
Proof.
  rewrite walk_lookup. destruct (startswith_dot _); [done|].
  destruct (wget w (root, rel)) as [f|]; [|done]. simpl. intros [= <-]. eauto.
Qed.

Lemma walk_ext root w1 w2 :
  (∀ rel, wget w1 (root, rel) = wget w2 (root, rel)) → walk root w1 = walk root w2.
Proof. intros H. apply map_eq; intros rel. by rewrite !walk_lookup, H. Qed.

(** ** One item of the loops of [sync_folder] *)

Ltac io_unfold :=
  unfold sync_source_file, sync_regular_file, sync_dest_file,
    get_destination_path, calculate_file_hash, open_read, shutil_copy2,
    os_remove, os_makedirs_for, os_makedirs, guard_fault, try_, effect, raise,
    mbind, io_mbind, io_bind, mret, io_mret, io_ret in *.

Ltac notes :=
  unfold note_added, note_updated, note_deleted, note_unchanged, note_ignored,
    note_error in *; simpl in *.

Ltac in_union :=
  first [ done
        | by apply elem_of_union_l, elem_of_singleton
        | by apply elem_of_union_r ].

Ltac io_cases :=
  io_unfold; simpl in *; repeat (case_match; simpl in *; simplify_eq);
  simplify_eq/=.

(** An item of the source loop writes at most the file of that item in the
    destination. *)
Lemma sync_source_file_frame e d dry D acc rel sm w q :
  m_relative_path sm = rel → q ≠ (d, rel) →
  wget (sync_source_file e d dry D acc (rel, sm) w).1 q = wget w q.
Proof.
  intros Hrel Hq. destruct acc as [st pr].
  io_cases; rewrite ?wget_wput; try (destruct (decide _) as [<-|]; [done|]);
    by rewrite ?wget_ensure_root.
Qed.

(** An item of the destination loop removes at most the file of that item. *)
Lemma sync_dest_file_frame e dry pr st q dm w p :
  p ≠ m_path dm →
  wget (sync_dest_file e dry pr st (q, dm) w).1 p = wget w p.
Proof.
  intros Hp. io_cases; rewrite ?wget_wdel; try done.
  by destruct (decide _) as [<-|].
Qed.

(** A dry run leaves the file system as it is, item by item. *)
Lemma sync_source_file_dry e d D acc it w :
  (sync_source_file e d true D acc it w).1 = w.
Proof. destruct acc, it. by io_cases. Qed.

Lemma sync_dest_file_dry e pr st it w :
  (sync_dest_file e true pr st it w).1 = w.
Proof. destruct it. by io_cases. Qed.

(** ** The shape of [sync_folder] *)

Lemma get_replica_files_eq d w : get_replica_files d w = (w, Ok (walk d w)).
Proof.
  unfold get_replica_files, os_path_exists. rewrite bind_eq.
  case_bool_decide as Hex; simpl; [done|].
  unfold mret, io_mret, io_ret. do 2 f_equal.
  unfold walk, tree_of. apply eq_None_not_Some in Hex. rewrite Hex. simpl.
  symmetry. apply map_eq. intros i. by rewrite map_lookup_imap, !lookup_empty.
Qed.

Lemma sync_folder_eq e self d dry w :
  sync_folder e self d dry w
  = if bool_decide (is_Some (w !! d)) || dry then
      sync_loops e d dry (walk (source_path self) w) (walk d w) w
    else match fault e (OpMakedirs d) with
         | Some msg => (w, Raise msg)
         | None =>
             sync_loops e d dry (walk (source_path self) w) (walk d w)
                        (<[d := tree_of w d]> w)
         end.
Proof.
  unfold sync_folder, sync_loops. rewrite bind_eq. unfold os_path_exists at 1.
  destruct (bool_decide (is_Some (w !! d))) eqn:Hex; simpl.
  - rewrite bind_eq. unfold mret at 1, io_mret, io_ret.
    rewrite bind_eq. unfold get_calibre_files at 1.
    rewrite bind_eq, get_replica_files_eq. done.
  - destruct dry; simpl.
    + rewrite bind_eq. unfold mret at 1, io_mret, io_ret.
      rewrite bind_eq. unfold get_calibre_files at 1.
      rewrite bind_eq, get_replica_files_eq. done.
    + rewrite bind_eq. unfold os_makedirs, guard_fault. rewrite bind_eq.
      destruct (fault e (OpMakedirs d)) as [msg|]; [done|].
      unfold mret at 1, io_mret, io_ret, effect.
      rewrite bind_eq. unfold get_calibre_files at 1.
      rewrite bind_eq, get_replica_files_eq.
      rewrite (walk_ext (source_path self) _ w) by (intros; apply wget_ensure_root).
      rewrite (walk_ext d _ w) by (intros; apply wget_ensure_root). done.
Qed.

Lemma sync_loops_eq e d dry S D w :
  sync_loops e d dry S D w
  = match for_each (sync_source_file e d dry D) (map_to_list S) (stats0, ∅) w with
    | (w', Ok acc) => for_each (sync_dest_file e dry acc.2) (map_to_list D) acc.1 w'
    | (w', Raise msg) => (w', Raise msg)
    end.
Proof. done. Qed.

Lemma items_of_walk root w : items_of root w (map_to_list (walk root w)).
Proof.
  split; [apply NoDup_fst_map_to_list|].
  intros [k m] Hx. by apply elem_of_map_to_list in Hx.
Qed.

Lemma items_of_cons root w x xs :
  items_of root w (x :: xs) →
  walk root w !! x.1 = Some x.2 ∧ (x.1 ∉ xs.*1) ∧ items_of root w xs.
Proof.
  intros [Hnd Hin]. rewrite fmap_cons in Hnd. apply NoDup_cons in Hnd as [Hx Hnd].
  split_and!; [apply Hin; left|done|split; [done|]].
  intros y Hy. apply Hin. by right.
Qed.

Lemma item_meta root w x :
  walk root w !! x.1 = Some x.2 →
  m_relative_path x.2 = x.1 ∧ m_path x.2 = (root, x.1).
Proof. intros (f & _ & -> & _)%walk_lookup_Some. done. Qed.

(** ** A dry run writes nothing *)

Lemma for_each_world {A S} (body : S → A → io S) :
  (∀ acc x w, (body acc x w).1 = w) →
  ∀ xs acc w, (for_each body xs acc w).1 = w.
Proof.
  intros Hbody xs. induction xs as [|x xs IH]; intros acc w; [done|].
  rewrite for_each_cons. specialize (Hbody acc x w).
  destruct (body acc x w) as [w' [acc'|msg]]; simpl in *; subst w'; [apply IH|done].
Qed.

Lemma sync_loops_dry e d S D w : (sync_loops e d true S D w).1 = w.
Proof.
  rewrite sync_loops_eq.
  pose proof (for_each_world (sync_source_file e d true D)
                (λ acc x w, sync_source_file_dry e d D acc x w)
                (map_to_list S) (stats0, ∅) w) as Hsrc.
  destruct (for_each _ (map_to_list S) _ w) as [w1 [acc|msg]]; simpl in *;
    subst w1; [|done].
  apply for_each_world. intros; apply sync_dest_file_dry.
Qed.

Lemma sync_folder_dry_run_world e self d w :
  (sync_folder e self d true w).1 = w.
Proof.
  rewrite sync_folder_eq, orb_true_r. apply sync_loops_dry.
Qed.

(** ** What the items do to the statistics *)

Lemma sync_source_file_deleted e d dry D acc it w acc' :
  (sync_source_file e d dry D acc it w).2 = Ok acc' →
  deleted_files acc'.1 = deleted_files acc.1 ∧ deleted acc'.1 = deleted acc.1.
Proof. destruct acc, it. intros H. by io_cases. Qed.

Lemma sync_dest_file_deleted e dry pr st q dm w st' :
  (sync_dest_file e dry pr st (q, dm) w).2 = Ok st' →
  (deleted_files st' = deleted_files st ∧ deleted st' = deleted st)
  ∨ (is_protected (basename q) = false
     ∧ deleted_files st' = deleted_files st ++ [if dry then basename q else q]
     ∧ deleted st' = S (deleted st)).
Proof. intros H. io_cases; auto. Qed.

(** ** Protected files *)

Lemma protected_not_listed p q (dry : bool) :
  is_protected (basename p) = true →
  is_protected (basename q) = false →
  p ≠ (if dry then basename q else q).
Proof.
  intros Hp Hq ->. destruct dry; [|congruence].
  rewrite basename_idemp in Hp. congruence.
Qed.

Lemma sync_loops_protected e d dry sp w0 w p :
  walk sp w0 !! p = None →
  is_protected (basename p) = true →
  let r := sync_loops e d dry (walk sp w0) (walk d w0) w in
  wget r.1 (d, p) = wget w (d, p)
  ∧ ∀ st, r.2 = Ok st →
      (p ∉ deleted_files st) ∧ deleted st = length (deleted_files st).
Proof.
  intros Hsrc Hprot. simpl. rewrite sync_loops_eq.
  destruct (for_each _ (map_to_list (walk sp w0)) _ w) as [w1 r1] eqn:Hfe1.
  apply (for_each_run _
    (λ xs acc w', items_of sp w0 xs ∧ wget w' (d, p) = wget w (d, p)
                  ∧ deleted_files acc.1 = [] ∧ deleted acc.1 = 0)
    (λ w', wget w' (d, p) = wget w (d, p))) in Hfe1;
    [| |by split; [apply items_of_walk|]].
  2:{ intros x xs acc w' (Hit & Hw & Hdf & Hdc).
      apply items_of_cons in Hit as (Hx & _ & Hit).
      pose proof (item_meta _ _ _ Hx) as [Hrel _].
      assert ((d, p) ≠ (d, x.1)) as Hne by (intros [= ->]; congruence).
      pose proof (sync_source_file_frame e d dry (walk d w0) acc x.1 x.2 w' (d, p)
                    Hrel Hne) as Hfr.
      pose proof (sync_source_file_deleted e d dry (walk d w0) acc (x.1, x.2) w') as Hst.
      rewrite <- surjective_pairing in Hfr, Hst.
      destruct (sync_source_file e d dry (walk d w0) acc x w') as [w'' [acc'|msg]];
        simpl in *; [|congruence].
      destruct (Hst _ eq_refl) as [-> ->]. split_and!; [done|congruence|done..]. }
  destruct r1 as [acc|msg]; simpl; [|by split].
  destruct Hfe1 as (_ & Hw1 & Hdf & Hdc).
  destruct (for_each _ (map_to_list (walk d w0)) _ w1) as [w2 r2] eqn:Hfe2.
  apply (for_each_run _
    (λ xs st w', items_of d w0 xs ∧ wget w' (d, p) = wget w (d, p)
                 ∧ (p ∉ deleted_files st) ∧ deleted st = length (deleted_files st))
    (λ w', False)) in Hfe2.
  - destruct r2 as [st|msg]; [|done]. destruct Hfe2 as (_ & ? & ? & ?).
    split; [done|]. by intros ? [= <-].
  - intros [q dm] xs st w' (Hit & Hw & Hnin & Hlen).
    apply items_of_cons in Hit as (Hx & _ & Hit).
    pose proof (item_meta _ _ _ Hx) as [_ Hpath]. simpl in Hpath.
    pose proof (sync_dest_file_deleted e dry acc.2 st q dm w') as Hst.
    destruct (decide (q = p)) as [->|Hqp].
    + unfold sync_dest_file in *. rewrite Hprot in *.
      destruct (bool_decide _); simpl; tauto.
    + assert ((d, p) ≠ m_path dm) as Hne by (rewrite Hpath; congruence).
      pose proof (sync_dest_file_frame e dry acc.2 st q dm w' (d, p) Hne) as Hfr.
      assert (∃ st', (sync_dest_file e dry acc.2 st (q, dm) w').2 = Ok st') as [st' Hok].
      { clear. io_cases; eauto. }
      destruct (sync_dest_file e dry acc.2 st (q, dm) w') as [w'' r]; simpl in *.
      subst r. split_and!; [done|congruence|..];
        destruct (Hst _ eq_refl) as [[Hd1 Hd2]|(Hnp & Hd1 & Hd2)];
        rewrite ?Hd1, ?Hd2; try done.
      * rewrite not_elem_of_app. split; [done|].
        rewrite list_elem_of_singleton. by apply protected_not_listed.
      * rewrite length_app. simpl. lia.
  - split_and!; [apply items_of_walk|done|rewrite Hdf; apply not_elem_of_nil|by rewrite Hdf, Hdc].
Qed.

(** C3. A file named [metadata.db] or [metadata_db_prefs_backup.json] that
    the destination catalog holds and the source catalog does not is, in a
    dry run as in a real one, kept in the destination as it was, and is
    neither listed nor counted among the deleted files. *)
Theorem protected_file_immunity e self d dry w p f :
  walk d w !! p = Some f →
  walk (source_path self) w !! p = None →
  basename p = "metadata.db" ∨ basename p = "metadata_db_prefs_backup.json" →
  let r := sync_folder e self d dry w in
  wget r.1 (d, p) = wget w (d, p)
  ∧ is_Some (wget r.1 (d, p))
  ∧ ∀ st, r.2 = Ok st →
      (p ∉ deleted_files st) ∧ deleted st = length (deleted_files st).
Proof.
  intros Hd Hs Hname. simpl.
  assert (is_protected (basename p) = true) as Hprot.
  { unfold is_protected. by destruct Hname as [-> | ->]. }
  assert (is_Some (wget w (d, p))) as Hsome.
  { apply walk_lookup_Some in Hd as (? & -> & _). eauto. }
  rewrite sync_folder_eq.
  destruct (bool_decide (is_Some (w !! d)) || dry).
  - destruct (sync_loops_protected e d dry (source_path self) w w p Hs Hprot)
      as [Hw Hst].
    split_and!; [done|by rewrite Hw|done].
  - destruct (fault e (OpMakedirs d)); simpl; [done|].
    destruct (sync_loops_protected e d dry (source_path self) w
                (<[d := tree_of w d]> w) p Hs Hprot) as [Hw Hst].
    rewrite wget_ensure_root in Hw. split_and!; [done|by rewrite Hw|done].
Qed.

(** ** Ignored files *)

(** What an item of the source loop does to the statistics and to the set
    of processed paths. *)
Lemma sync_source_file_stats e d dry D st pr rel sm w acc' :
  (sync_source_file e d dry D (st, pr) (rel, sm) w).2 = Ok acc' →
  (is_ignored (basename rel) = true ∧ acc' = (note_ignored rel st, pr))
  ∨ (is_ignored (basename rel) = false ∧ acc'.2 = {[rel]} ∪ pr
     ∧ (acc'.1 = note_added rel st ∨ acc'.1 = note_updated rel st
        ∨ acc'.1 = note_unchanged st ∨ acc'.1 = note_error rel st)).
Proof. intros H. io_cases; auto 10. Qed.

Lemma sync_dest_file_stats e dry pr st q dm w st' :
  (sync_dest_file e dry pr st (q, dm) w).2 = Ok st' →
  st' = st ∨ (∃ x, st' = note_deleted x st) ∨ (∃ x, st' = note_error x st).
Proof. intros H. io_cases; eauto. Qed.

Lemma sync_dest_file_ok e dry pr st it w :
  ∃ st', (sync_dest_file e dry pr st it w).2 = Ok st'.
Proof. destruct it. io_cases; eauto. Qed.

Lemma sync_source_file_ignored e d dry D acc rel sm w :
  is_ignored (basename rel) = true →
  sync_source_file e d dry D acc (rel, sm) w = (w, Ok (note_ignored rel acc.1, acc.2)).
Proof. intros H. unfold sync_source_file. simpl. by rewrite H. Qed.

Lemma sync_loops_ignored e d dry sp w0 w p m :
  walk sp w0 !! p = Some m →
  is_ignored (basename p) = true →
  let r := sync_loops e d dry (walk sp w0) (walk d w0) w in
  (wget w0 (d, p) = None → wget r.1 (d, p) = wget w (d, p))
  ∧ ∀ st, r.2 = Ok st →
      p ∈ ignored_files st ∧ (p ∉ added_files st) ∧ (p ∉ updated_files st)
      ∧ ignored st = length (ignored_files st).
Proof.
  intros Hsrc Hign. simpl. rewrite sync_loops_eq.
  destruct (for_each _ (map_to_list (walk sp w0)) _ w) as [w1 r1] eqn:Hfe1.
  apply (for_each_run _
    (λ xs acc w', items_of sp w0 xs ∧ wget w' (d, p) = wget w (d, p)
                  ∧ (p ∈ xs.*1 ∨ p ∈ ignored_files acc.1)
                  ∧ (p ∉ added_files acc.1) ∧ (p ∉ updated_files acc.1)
                  ∧ ignored acc.1 = length (ignored_files acc.1))
    (λ w', wget w' (d, p) = wget w (d, p))) in Hfe1.
  3:{ split_and!; [apply items_of_walk|done| |apply not_elem_of_nil..|done].
      left. apply list_elem_of_fmap. exists (p, m). split; [done|].
      by apply elem_of_map_to_list. }
  2:{ intros [rel sm] xs [st pr] w' (Hit & Hw & Hin & Hna & Hnu & Hlen).
      apply items_of_cons in Hit as (Hx & Hnin & Hit). simpl in Hx, Hnin.
      pose proof (item_meta _ _ (rel, sm) Hx) as [Hrel _]. simpl in Hrel.
      destruct (decide (rel = p)) as [->|Hne].
      - rewrite sync_source_file_ignored by done. notes.
        split_and!; [done..| |done|done|].
        + right. apply elem_of_app. right. by left.
        + rewrite length_app. simpl. lia.
      - assert ((d, p) ≠ (d, rel)) as Hne' by congruence.
        pose proof (sync_source_file_frame e d dry (walk d w0) (st, pr) rel sm w'
                      (d, p) Hrel Hne') as Hfr.
        pose proof (sync_source_file_stats e d dry (walk d w0) st pr rel sm w') as Hst.
        destruct (sync_source_file e d dry (walk d w0) (st, pr) (rel, sm) w')
          as [w'' [acc'|msg]]; simpl in *; [|congruence].
        assert (p ∈ xs.*1 ∨ p ∈ ignored_files st) as Hin'.
        { destruct Hin as [Hin|Hin]; [|by right]. left.
          apply elem_of_cons in Hin as [?|?]; [congruence|done]. }
        split_and!; [done|congruence|..];
          destruct (Hst _ eq_refl) as [[_ ->]|(_ & _ & [-> | [-> | [-> | ->]]])];
          notes; rewrite ?length_app, ?elem_of_app, ?not_elem_of_app,
            ?list_elem_of_singleton; simpl; try lia; intuition congruence. }
  destruct r1 as [acc|msg]; simpl; [|by split].
  destruct Hfe1 as (_ & Hw1 & Hin & Hna & Hnu & Hlen).
  destruct Hin as [Hin|Hin]; [by apply elem_of_nil in Hin|].
  destruct (for_each _ (map_to_list (walk d w0)) _ w1) as [w2 r2] eqn:Hfe2.
  apply (for_each_run _
    (λ xs st w', items_of d w0 xs
                 ∧ (wget w0 (d, p) = None → wget w' (d, p) = wget w (d, p))
                 ∧ p ∈ ignored_files st
                 ∧ (p ∉ added_files st) ∧ (p ∉ updated_files st)
                 ∧ ignored st = length (ignored_files st))
    (λ w', False)) in Hfe2.
  - destruct r2 as [st|msg]; [|done]. destruct Hfe2 as (_ & ? & ? & ? & ? & ?).
    split; [done|]. by intros ? [= <-].
  - intros [q dm] xs st w' (Hit & Hw & Hin' & Hna' & Hnu' & Hlen').
    apply items_of_cons in Hit as (Hx & _ & Hit). simpl in Hx.
    pose proof (item_meta _ _ (q, dm) Hx) as [_ Hpath]. simpl in Hpath.
    pose proof (sync_dest_file_stats e dry acc.2 st q dm w') as Hst.
    pose proof (sync_dest_file_frame e dry acc.2 st q dm w' (d, p)) as Hfr.
    destruct (sync_dest_file_ok e dry acc.2 st (q, dm) w') as [st' Hok].
    destruct (sync_dest_file e dry acc.2 st (q, dm) w') as [w'' r]; simpl in *.
    subst r. split_and!; [done| |..].
    + intros Hnone. rewrite Hfr; [by apply Hw|].
      rewrite Hpath. intros [= ->].
      apply walk_lookup_Some in Hx as (? & Hf & _). congruence.
    + destruct (Hst _ eq_refl) as [->|[[x ->]|[x ->]]]; done.
    + destruct (Hst _ eq_refl) as [->|[[x ->]|[x ->]]]; done.
    + destruct (Hst _ eq_refl) as [->|[[x ->]|[x ->]]]; done.
    + destruct (Hst _ eq_refl) as [->|[[x ->]|[x ->]]]; done.
  - split_and!; [apply items_of_walk|by intros _|done..].
Qed.

(** A source file named [metadata.db] has an ignored extension and goes
    through the loop as any file that is copied. *)
Lemma metadata_db_is_regular e d dry D acc p m :
  basename p = "metadata.db" →
  lower (splitext_ext (basename p)) = ".db"
  ∧ sync_source_file e d dry D acc (p, m) = sync_regular_file e d dry D acc (p, m).
Proof. intros H. unfold sync_source_file. simpl. by rewrite H. Qed.

(** C4, as the code has it. A source file whose extension, in lower case,
    is [.db] or [.json] and whose name is not [metadata.db] is listed and
    counted as ignored and is listed neither as added nor as updated; when
    the destination does not hold its path before the run, it does not
    after it. A source file named [metadata.db] is not ignored: the loop
    treats it as it treats a file of any other extension. *)
Theorem ignored_file_exclusion e self d dry w p m :
  walk (source_path self) w !! p = Some m →
  lower (splitext_ext (basename p)) = ".db"
    ∨ lower (splitext_ext (basename p)) = ".json" →
  basename p ≠ "metadata.db" →
  let r := sync_folder e self d dry w in
  (wget w (d, p) = None → wget r.1 (d, p) = None)
  ∧ (∀ st, r.2 = Ok st →
       p ∈ ignored_files st ∧ (p ∉ added_files st) ∧ (p ∉ updated_files st)
       ∧ ignored st = length (ignored_files st))
  ∧ (∀ D acc q mq, basename q = "metadata.db" →
       lower (splitext_ext (basename q)) = ".db"
       ∧ sync_source_file e d dry D acc (q, mq)
         = sync_regular_file e d dry D acc (q, mq)).
Proof.
  intros Hs Hext Hname. simpl.
  assert (is_ignored (basename p) = true) as Hign.
  { unfold is_ignored. apply andb_true_iff. split.
    - destruct Hext as [-> | ->]; done.
    - apply negb_true_iff, String.eqb_neq. done. }
  assert (∀ (D : gmap string meta) acc q mq, basename q = "metadata.db" →
            lower (splitext_ext (basename q)) = ".db"
            ∧ sync_source_file e d dry D acc (q, mq)
              = sync_regular_file e d dry D acc (q, mq)) as Hmeta
    by (intros; by apply metadata_db_is_regular).
  rewrite sync_folder_eq.
  destruct (bool_decide (is_Some (w !! d)) || dry).
  - destruct (sync_loops_ignored e d dry (source_path self) w w p m Hs Hign)
      as [Hw Hst].
    split_and!; [|done..]. intros Hn. by rewrite Hw.
  - destruct (fault e (OpMakedirs d)); simpl; [done|].
    destruct (sync_loops_ignored e d dry (source_path self) w
                (<[d := tree_of w d]> w) p m Hs Hign) as [Hw Hst].
    split_and!; [|done..]. intros Hn. by rewrite Hw, wget_ensure_root.
Qed.

Import Examples.

Lemma ignored_file_exclusion_witness :
  let r := sync_folder quiet library "replica" false w_prefs in
  (wget w_prefs ("replica", "prefs.json") = None
   → wget r.1 ("replica", "prefs.json") = None)
  ∧ (∀ st, r.2 = Ok st →
       "prefs.json" ∈ ignored_files st ∧ ("prefs.json" ∉ added_files st)
       ∧ ("prefs.json" ∉ updated_files st)
       ∧ ignored st = length (ignored_files st))
  ∧ (∀ D acc q mq, basename q = "metadata.db" →
       lower (splitext_ext (basename q)) = ".db"
       ∧ sync_source_file quiet "replica" false D acc (q, mq)
         = sync_regular_file quiet "replica" false D acc (q, mq)).
Proof.
  apply (ignored_file_exclusion quiet library "replica" false w_prefs "prefs.json"
           (Meta ("library", "prefs.json") 2 10 "prefs.json")).
  - vm_compute. reflexivity.
  - right. vm_compute. reflexivity.
  - discriminate.
Defined.

(** C4 as it is worded fails: the backup of the preferences has an ignored
    extension and a protected name; when the replica holds it, a real run
    leaves it there. *)
Lemma ignored_file_still_in_destination :
  let p := "metadata_db_prefs_backup.json" in
  let r := sync_folder quiet library "replica" false w_backup in
  is_Some (walk "library" w_backup !! p)
  ∧ lower (splitext_ext (basename p)) = ".json"
  ∧ basename p ≠ "metadata.db"
  ∧ wget r.1 ("replica", p) = Some (File "{}" 10)
  ∧ (∃ st, r.2 = Ok st ∧ ignored_files st = [p] ∧ deleted st = 0).
Proof.
  simpl. split_and!.
  - vm_compute. eauto.
  - vm_compute. reflexivity.
  - discriminate.
  - vm_compute. reflexivity.
  - eexists. split_and!; vm_compute; reflexivity.
Qed.

Lemma protected_file_immunity_witness :
  let r := sync_folder quiet library "replica" false w_protected in
  wget r.1 ("replica", "metadata.db") = wget w_protected ("replica", "metadata.db")
  ∧ is_Some (wget r.1 ("replica", "metadata.db"))
  ∧ ∀ st, r.2 = Ok st →
      ("metadata.db" ∉ deleted_files st) ∧ deleted st = length (deleted_files st).
Proof.
  apply (protected_file_immunity quiet library "replica" false w_protected
           "metadata.db" (Meta ("replica", "metadata.db") 2 3 "metadata.db")).
  - vm_compute. reflexivity.
  - vm_compute. reflexivity.
  - left. vm_compute. reflexivity.
Defined.

(** ** The fallback on the digests *)

Lemma mtime_differs_spec a b :
  mtime_differs a b = true
  ↔ (9007199254740993 # 9007199254740992 < Qabs (a - b))%Q.
Proof.
  unfold mtime_differs. rewrite negb_true_iff, <- not_true_iff_false, Qle_bool_iff.
  split; [apply Qnot_le_lt|apply Qlt_not_le].
Qed.

(** The difference is rounded before it is compared: the floats
    [1.000000001] and [0.000000001] are more than a second apart, and
    their difference as a float is [1.0]. *)
Lemma mtime_differs_rounds :
  match PyFloat.float_value 1.000000001, PyFloat.float_value 0.000000001 with
  | Some a, Some b => (1 < a - b)%Q ∧ mtime_differs a b = false
  | _, _ => False
  end.
Proof. vm_compute. split; reflexivity. Qed.

Lemma calculate_file_hash_eq e q w :
  calculate_file_hash e q w
  = match wget w q with
    | None => (w, Raise "No such file or directory")
    | Some f =>
        match fault e (OpRead q) with
        | Some msg => (w, Raise msg)
        | None => (w, Ok (md5 e (f_data f)))
        end
    end.
Proof.
  unfold calculate_file_hash, open_read. rewrite bind_eq.
  destruct (wget w q); [|done]. by destruct (fault e (OpRead q)).
Qed.



Lemma sync_dest_file_processed e dry pr st q dm w :
  q ∈ pr → sync_dest_file e dry pr st (q, dm) w = (w, Ok st).
Proof. intros Hq. unfold sync_dest_file. by rewrite bool_decide_eq_true_2. Qed.


Lemma wget_root_exists (w : world) d p f : wget w (d, p) = Some f → is_Some (w !! d).
Proof.
  unfold wget, tree_of. simpl. destruct (w !! d); [eauto|].
  simpl. by rewrite lookup_empty.
Qed.




(** ** Every replica gets its result *)

Lemma for_each_app {A S} (body : S → A → io S) l1 l2 acc w :
  for_each body (l1 ++ l2) acc w
  = match for_each body l1 acc w with
    | (w', Ok acc') => for_each body l2 acc' w'
    | (w', Raise msg) => (w', Raise msg)
    end.
Proof.
  revert acc w. induction l1 as [|x l1 IH]; intros acc w; [done|].
  rewrite <- app_comm_cons, !for_each_cons.
  destruct (body acc x w) as [w' [acc'|msg]]; [apply IH|done].
Qed.

Lemma sync_replica_eq e self dry results replica w :
  sync_replica e self dry results replica w
  = match sync_folder e self replica dry w with
    | (w', Ok st) => (w', Ok (<[replica := RStats st]> results))
    | (w', Raise msg) => (w', Ok (<[replica := RError msg]> results))
    end.
Proof.
  unfold sync_replica. rewrite bind_eq. unfold try_.
  by destruct (sync_folder e self replica dry w) as [w' [st|msg]].
Qed.

(** The loop of [sync_all] never raises; it gives a result to each replica
    it visits and leaves the results of the others as they are. *)
Lemma sync_all_loop e self dry l (results : gmap string replica_result) w :
  ∃ w' results',
    for_each (sync_replica e self dry) l results w = (w', Ok results')
    ∧ dom results' = dom results ∪ list_to_set l
    ∧ ∀ r, r ∉ l → results' !! r = results !! r.
Proof.
  revert results w. induction l as [|x l IH]; intros results w.
  - exists w, results. split_and!; [done| |done].
    by rewrite list_to_set_nil, (right_id_L ∅ (∪)).
  - rewrite for_each_cons, sync_replica_eq.
    destruct (sync_folder e self x dry w) as [w1 [st|msg]].
    + destruct (IH (<[x := RStats st]> results) w1) as (w' & res' & Hrun & Hdom & Hother).
      exists w', res'. split_and!; [done|..].
      * rewrite Hdom, dom_insert_L, list_to_set_cons.
        by rewrite (assoc_L (∪)), (comm_L (∪) (dom results) {[x]}).
      * intros r [Hrx Hrl]%not_elem_of_cons.
        rewrite Hother by done. by rewrite lookup_insert_ne.
    + destruct (IH (<[x := RError msg]> results) w1) as (w' & res' & Hrun & Hdom & Hother).
      exists w', res'. split_and!; [done|..].
      * rewrite Hdom, dom_insert_L, list_to_set_cons.
        by rewrite (assoc_L (∪)), (comm_L (∪) (dom results) {[x]}).
      * intros r [Hrx Hrl]%not_elem_of_cons.
        rewrite Hother by done. by rewrite lookup_insert_ne.
Qed.

Lemma folder_runs_cons e self dry x l w :
  (folder_runs e self dry (x :: l) w).1
  = (folder_runs e self dry l (sync_folder e self x dry w).1).1.
Proof.
  simpl. destruct (sync_folder e self x dry w) as [w1 o]. simpl.
  by destruct (folder_runs e self dry l w1).
Qed.

(** The loop of [sync_all] runs [sync_folder] for each replica in turn, on
    the file system that the run before it left, and stores the outcome
    of the last run of each replica. *)
Lemma sync_all_loop_runs e self dry l (results : gmap string replica_result) w :
  ∃ results',
    for_each (sync_replica e self dry) l results w
    = ((folder_runs e self dry l w).1, Ok results')
    ∧ dom results' = dom results ∪ list_to_set l
    ∧ (∀ r, r ∉ l → results' !! r = results !! r)
    ∧ (∀ mid r rest, l = mid ++ r :: rest → r ∉ rest →
         results' !! r
         = Some (result_of (sync_folder e self r dry
                              (folder_runs e self dry mid w).1).2)).
Proof.
  revert results w. induction l as [|x l IH]; intros results w.
  - exists results. split_and!; [done| |done|].
    + by rewrite list_to_set_nil, (right_id_L ∅ (∪)).
    + intros mid r rest Hl. by destruct mid.
  - rewrite for_each_cons, sync_replica_eq, folder_runs_cons.
    destruct (sync_folder e self x dry w) as [w1 o] eqn:Hx. simpl.
    destruct (IH (<[x := result_of o]> results) w1)
      as (res' & Hrun & Hdom & Hother & Hlast).
    exists res'. split_and!.
    + by destruct o.
    + rewrite Hdom, dom_insert_L, ?list_to_set_cons.
      by rewrite (assoc_L (∪)), (comm_L (∪) (dom results) {[x]}).
    + intros r [Hrx Hrl]%not_elem_of_cons.
      rewrite Hother by done. by rewrite lookup_insert_ne.
    + intros mid r rest Hl Hr. destruct mid as [|y mid].
      * simpl in Hl. injection Hl as -> ->.
        rewrite Hother by done. rewrite lookup_insert_eq. simpl. by rewrite Hx.
      * rewrite <- app_comm_cons in Hl. injection Hl as -> ->.
        rewrite folder_runs_cons, Hx. simpl. by apply (Hlast mid r rest).
Qed.

(** C8. [sync_all] never raises and returns a dictionary whose keys are
    the configured replicas. When [sync_folder] raises for a replica, the
    error with the text of the exception is stored for that replica
    (unless it is listed again), and for that replica only: the loop goes
    on, and every other replica, before or after, has the result of its
    own run of [sync_folder], on the file system that the runs before it
    left; the file system that [sync_all] leaves is the one that the runs
    of the replicas that follow leave. *)
Theorem sync_all_isolates_failures e self dry w before replica after w1 w2 msg :
  replica_paths self = before ++ replica :: after →
  (folder_runs e self dry before w).1 = w1 →
  sync_folder e self replica dry w1 = (w2, Raise msg) →
  ∃ results,
    sync_all e self dry w = ((folder_runs e self dry after w2).1, Ok results)
    ∧ dom results = list_to_set (replica_paths self)
    ∧ (replica ∉ after → results !! replica = Some (RError msg))
    ∧ (∀ mid r rest, after = mid ++ r :: rest → r ∉ rest →
         results !! r
         = Some (result_of (sync_folder e self r dry
                              (folder_runs e self dry mid w2).1).2))
    ∧ (∀ mid r rest, before = mid ++ r :: rest → r ∉ rest →
         r ≠ replica → r ∉ after →
         results !! r
         = Some (result_of (sync_folder e self r dry
                              (folder_runs e self dry mid w).1).2)).
Proof.
  intros Hpaths Hbefore Hraise.
  destruct (sync_all_loop_runs e self dry before ∅ w)
    as (res1 & Hrun1 & Hdom1 & _ & Hlast1).
  destruct (sync_all_loop_runs e self dry after (<[replica := RError msg]> res1) w2)
    as (results & Hrun & Hdom & Hother & Hlast).
  rewrite Hbefore in Hrun1.
  exists results. split_and!.
  - unfold sync_all. rewrite Hpaths, for_each_app, Hrun1, for_each_cons.
    by rewrite sync_replica_eq, Hraise.
  - rewrite Hdom, dom_insert_L, Hdom1, Hpaths, dom_empty_L, (left_id_L ∅ (∪)).
    rewrite list_to_set_app_L, list_to_set_cons.
    by rewrite (assoc_L (∪)), (comm_L (∪) (list_to_set before) {[replica]}).
  - intros Hnin. rewrite Hother by done. by rewrite lookup_insert_eq.
  - done.
  - intros mid r rest Hl Hr Hne Hnin.
    rewrite Hother by done. rewrite lookup_insert_ne by done.
    by apply (Hlast1 mid r rest).
Qed.

(** Without any assumption: one result for each configured replica. *)
Lemma sync_all_one_result_each e self dry w :
  ∃ w' results,
    sync_all e self dry w = (w', Ok results)
    ∧ dom results = list_to_set (replica_paths self).
Proof.
  destruct (sync_all_loop e self dry (replica_paths self) ∅ w)
    as (w' & results & Hrun & Hdom & _).
  exists w', results. split; [done|]. by rewrite Hdom, dom_empty_L, (left_id_L ∅ (∪)).
Qed.

Lemma sync_all_isolates_failures_witness :
  ∃ results,
    sync_all locked_usb two_replicas false w_protected
    = ((folder_runs locked_usb two_replicas false ["replica"] w_protected).1,
       Ok results)
    ∧ dom results = list_to_set (replica_paths two_replicas)
    ∧ ("usb" ∉ ["replica"] → results !! "usb" = Some (RError "Permission denied"))
    ∧ (∀ mid r rest, ["replica"] = mid ++ r :: rest → r ∉ rest →
         results !! r
         = Some (result_of (sync_folder locked_usb two_replicas r false
                              (folder_runs locked_usb two_replicas false mid
                                 w_protected).1).2))
    ∧ (∀ mid r rest, [] = mid ++ r :: rest → r ∉ rest →
         r ≠ "usb" → r ∉ ["replica"] →
         results !! r
         = Some (result_of (sync_folder locked_usb two_replicas r false
                              (folder_runs locked_usb two_replicas false mid
                                 w_protected).1).2)).
Proof.
  apply (sync_all_isolates_failures locked_usb two_replicas false w_protected
           [] "usb" ["replica"] w_protected w_protected "Permission denied").
  - reflexivity.
  - reflexivity.
  - vm_compute. reflexivity.
Defined.

(** ** The history ledger *)

Import SyncHistory HistorySpec.

Lemma insert_desc_perm x l : insert_desc x l ≡ₚ x :: l.
Proof.
  induction l as [|y l IH]; simpl; [done|].
  destruct (timestamp y <=? timestamp x)%Z; [done|].
  rewrite IH. apply Permutation_swap.
Qed.

Lemma sort_desc_perm l : sort_desc l ≡ₚ l.
Proof.
  induction l as [|x l IH]; simpl; [done|].
  rewrite insert_desc_perm. by rewrite IH.
Qed.

Lemma insert_desc_sorted x l :
  Sorted newer_first l → Sorted newer_first (insert_desc x l).
Proof.
  induction 1 as [|y l Hs IH Hhd]; simpl.
  - repeat constructor.
  - destruct (timestamp y <=? timestamp x)%Z eqn:Hle.
    + constructor; [by constructor|]. constructor. unfold newer_first. lia.
    + constructor; [done|].
      destruct Hhd as [|z l' Hyz]; simpl.
      * constructor. unfold newer_first. lia.
      * destruct (timestamp z <=? timestamp x)%Z;
          constructor; unfold newer_first in *; lia.
Qed.

Lemma sort_desc_sorted l : Sorted newer_first (sort_desc l).
Proof.
  induction l as [|x l IH]; simpl; [constructor|by apply insert_desc_sorted].
Qed.

(** C10. With [limit=0] the history query returns every stored entry, the
    most recent first, as it does without a limit: the list has the stored
    entries and their number, so it is empty only when the store is; and
    the route hands a [limit] of zero to it as it is. *)
Theorem get_history_limit_zero s :
  get_history (Some 0%Z) s = get_history None s
  ∧ get_history (Some 0%Z) s = sort_desc (_load_history s)
  ∧ get_history (Some 0%Z) s ≡ₚ _load_history s
  ∧ length (get_history (Some 0%Z) s) = length (_load_history s)
  ∧ Sorted newer_first (get_history (Some 0%Z) s)
  ∧ Router.get_sync_history (Some 0%Z) s = get_history (Some 0%Z) s.
Proof.
  assert (get_history (Some 0%Z) s = sort_desc (_load_history s)) as H.
  { unfold get_history. simpl. unfold to_dict. by rewrite list_fmap_id. }
  split_and!; try done.
  - rewrite H. apply sort_desc_perm.
  - rewrite H. by rewrite sort_desc_perm.
  - rewrite H. apply sort_desc_sorted.
Qed.

(** *** The cap *)

Lemma most_recent_drop {A} n (l : list A) : most_recent n l = drop (length l - n) l.
Proof.
  induction l as [|x l IH]; simpl; [done|].
  destruct (Nat.ltb_spec (length l) n) as [Hlt|Hge].
  - by replace (S (length l) - n) with 0 by lia.
  - rewrite IH. by replace (S (length l) - n) with (S (length l - n)) by lia.
Qed.

Lemma most_recent_length {A} n (l : list A) : length (most_recent n l) ≤ n.
Proof. rewrite most_recent_drop, length_drop. lia. Qed.

Lemma most_recent_short {A} n (l : list A) : length l ≤ n → most_recent n l = l.
Proof. intros H. rewrite most_recent_drop. by replace (length l - n) with 0 by lia. Qed.

(** What is dropped is a prefix: the oldest entries. *)
Lemma most_recent_suffix {A} n (l : list A) :
  l = take (length l - n) l ++ most_recent n l.
Proof. by rewrite most_recent_drop, take_drop. Qed.

Lemma most_recent_app {A} n (l k : list A) :
  most_recent n (most_recent n l ++ k) = most_recent n (l ++ k).
Proof.
  destruct (decide (length l ≤ n)) as [Hle|Hgt].
  { by rewrite (most_recent_short n l). }
  rewrite (most_recent_drop n (_ ++ k)), (most_recent_drop n (l ++ k)).
  rewrite (most_recent_drop n l), !length_app, length_drop, !drop_app, drop_drop.
  rewrite length_drop. f_equal; f_equal; lia.
Qed.

Lemma py_last_n_most_recent {A} (l : list A) :
  (if (max_entries <? length l)%nat then py_last_n max_entries l else l)
  = most_recent max_entries l.
Proof.
  destruct (Nat.ltb_spec max_entries (length l)) as [Hlt|Hge].
  - by rewrite most_recent_drop.
  - by rewrite most_recent_short.
Qed.

Lemma call_saved s c :
  a_disk_ok c = true →
  _load_history (call s c) = most_recent max_entries (_load_history s ++ [entry_of c]).
Proof.
  intros Hok. unfold call, add_sync_entry, _save_history. rewrite Hok.
  rewrite py_last_n_most_recent. simpl. unfold to_dict, from_dict.
  by rewrite !list_fmap_id.
Qed.

Lemma call_lost s c : a_disk_ok c = false → call s c = s.
Proof. intros Hok. unfold call, add_sync_entry, _save_history. by rewrite Hok. Qed.

Lemma calls_saved s calls :
  length (_load_history s) ≤ max_entries →
  _load_history (foldl call s calls)
  = most_recent max_entries
      (_load_history s ++ (entry_of <$> filter (λ c, a_disk_ok c = true) calls)).
Proof.
  revert s. induction calls as [|c calls IH]; intros s Hlen; simpl.
  - by rewrite app_nil_r, most_recent_short.
  - rewrite filter_cons. destruct (a_disk_ok c) eqn:Hok.
    + rewrite decide_True by done. rewrite IH.
      2:{ rewrite call_saved by done. apply most_recent_length. }
      rewrite call_saved by done.
      rewrite most_recent_app, fmap_cons. by rewrite <- app_assoc.
    + rewrite decide_False by done. rewrite call_lost by done. by apply IH.
Qed.

(** C6, as the code has it. From a history file of at most [max_entries]
    entries (the missing file is one), after any sequence of calls of
    [add_sync_entry] the file holds the most recent hundred of its entries
    followed by those of the calls whose save succeeded, in that order, and
    what was dropped is the oldest part; a call whose save succeeds leaves
    at most a hundred entries whatever the file held, and a call whose save
    fails leaves the file as it was. *)
Theorem add_sync_entry_bounded_fifo s calls :
  length (_load_history s) ≤ max_entries →
  let appended := _load_history s
                  ++ (entry_of <$> filter (λ c, a_disk_ok c = true) calls) in
  let stored := _load_history (foldl call s calls) in
  stored = most_recent max_entries appended
  ∧ length stored ≤ 100
  ∧ appended = take (length appended - 100) appended ++ stored
  ∧ (∀ s0 c, a_disk_ok c = true →
       _load_history (call s0 c)
       = most_recent max_entries (_load_history s0 ++ [entry_of c])
       ∧ length (_load_history (call s0 c)) ≤ 100)
  ∧ (∀ s0 c, a_disk_ok c = false → call s0 c = s0).
Proof.
  intros Hlen. simpl. rewrite calls_saved by done. split_and!.
  - done.
  - apply (most_recent_length max_entries).
  - apply (most_recent_suffix max_entries).
  - intros s0 c Hok. rewrite call_saved by done.
    split; [done|apply (most_recent_length max_entries)].
  - apply call_lost.
Qed.

Lemma add_sync_entry_bounded_fifo_witness :
  let appended := _load_history Missing
                  ++ (entry_of <$> filter (λ c, a_disk_ok c = true) three_calls) in
  let stored := _load_history (foldl call Missing three_calls) in
  stored = most_recent max_entries appended
  ∧ length stored ≤ 100
  ∧ appended = take (length appended - 100) appended ++ stored
  ∧ (∀ s0 c, a_disk_ok c = true →
       _load_history (call s0 c)
       = most_recent max_entries (_load_history s0 ++ [entry_of c])
       ∧ length (_load_history (call s0 c)) ≤ 100)
  ∧ (∀ s0 c, a_disk_ok c = false → call s0 c = s0).
Proof.
  apply (add_sync_entry_bounded_fifo Missing three_calls). simpl.
  unfold max_entries. lia.
Defined.

(** C6 as it is worded fails for a call whose save fails: the file is what
    it was, without the entry of that call. *)
Lemma add_sync_entry_save_fails :
  _load_history (call Missing lost_call) = []
  ∧ most_recent max_entries (_load_history Missing ++ [entry_of lost_call])
    = [entry_of lost_call]
  ∧ _load_history (call Missing lost_call)
    ≠ most_recent max_entries (_load_history Missing ++ [entry_of lost_call]).
Proof. split_and!; [reflexivity|reflexivity|discriminate]. Qed.

(** *** Statistics *)

Lemma count_status_filter st l :
  count_status st l = length (filter (λ e, status e = st) l).
Proof.
  induction l as [|e l IH]; simpl; [done|].
  rewrite filter_cons. destruct (String.eqb_spec (status e) st) as [Heq|Hne].
  - rewrite decide_True by done. simpl. by rewrite IH.
  - rewrite decide_False by done. by rewrite IH.
Qed.

Lemma with_status_filter st l :
  with_status st l = filter (λ e, status e = st) l.
Proof.
  induction l as [|e l IH]; simpl; [done|].
  rewrite filter_cons. destruct (String.eqb_spec (status e) st) as [Heq|Hne].
  - rewrite decide_True by done. by rewrite IH.
  - rewrite decide_False by done. by rewrite IH.
Qed.

(** The rounding of [round(x, 2)]. *)
Lemma div_half_even_spec n d :
  (0 ≤ n)%Z → (0 < d)%Z →
  let k := div_half_even n d in
  (0 ≤ k)%Z
  ∧ (2 * Z.abs (k * d - n) ≤ d)%Z
  ∧ ((2 * Z.abs (k * d - n))%Z = d → Z.even k = true).
Proof.
  intros Hn Hd. unfold div_half_even.
  pose proof (Z.div_mod n d ltac:(lia)) as Hdm.
  pose proof (Z.mod_pos_bound n d Hd) as Hr.
  pose proof (Z.div_pos n d Hn Hd) as Hq.
  set (q := (n / d)%Z) in *. set (r := (n mod d)%Z) in *.
  assert (∀ k, (k * d - n = (k - q) * d - r)%Z) as Heq by (intros; lia).
  destruct (Z.compare_spec (2 * r) d) as [Htie|Hlt|Hgt].
  - destruct (Z.even q) eqn:Hev.
    + split_and!; [done| |done]. rewrite Heq. lia.
    + assert (Z.even (q + 1) = true) as Hev1.
      { rewrite Z.even_add, Hev. done. }
      split_and!; [lia| |done]. rewrite Heq. lia.
  - split_and!; [done| |]; rewrite Heq; lia.
  - split_and!; [lia| |]; rewrite Heq; nia.
Qed.

Lemma near_Q (k n : Z) (d : positive) :
  (Qabs (inject_Z k - (n # d)) == Z.abs (k * Z.pos d - n) # d)%Q.
Proof.
  assert (inject_Z k - (n # d) == (k * Z.pos d - n) # d)%Q as ->.
  { unfold Qeq, Qminus, Qplus, Qopp, inject_Z. simpl. lia. }
  reflexivity.
Qed.

Lemma near_half (k n : Z) (d : positive) :
  ((Qabs (inject_Z k - (n # d)) <= 1 # 2)%Q ↔ (2 * Z.abs (k * Z.pos d - n) ≤ Z.pos d)%Z)
  ∧ ((Qabs (inject_Z k - (n # d)) == 1 # 2)%Q ↔ (2 * Z.abs (k * Z.pos d - n))%Z = Z.pos d).
Proof.
  rewrite near_Q. unfold Qle, Qeq. simpl. split; lia.
Qed.

Lemma py_round2_spec x :
  (float_value x = None → py_round2 x = x)
  ∧ ∀ q, float_value x = Some q →
      ∃ k : Z, (0 ≤ k)%Z
        ∧ (Qabs (inject_Z k - 100 * Qabs q) <= 1 # 2)%Q
        ∧ ((Qabs (inject_Z k - 100 * Qabs q) == 1 # 2)%Q → Z.even k = true)
        ∧ py_round2 x = hundredths (float_sign x) k.
Proof.
  unfold float_value, py_round2, float_sign.
  destruct (Prim2SF x) as [s|s| |s m e]; (split; [done|]); try done.
  - intros q [= <-]. exists 0%Z. split_and!; done.
  - intros q [= <-]. exists (centi m e).
    set (a := if (0 <=? e)%Z then inject_Z (Z.pos m * 2 ^ e)
              else (Z.pos m # Z.to_pos (2 ^ (- e)))%Q).
    assert (Qabs (if s then (- a)%Q else a) == a)%Q as Ha.
    { assert (0 <= a)%Q as Hpos.
      { unfold a. destruct (0 <=? e)%Z eqn:He.
        - apply Z.leb_le in He. unfold Qle. simpl.
          pose proof (Z.pow_pos_nonneg 2 e). lia.
        - unfold Qle. simpl. lia. }
      destruct s; [rewrite Qabs_opp|]; by apply Qabs_pos. }
    unfold centi. subst a.
    destruct (0 <=? e)%Z eqn:He.
    + apply Z.leb_le in He.
      assert (inject_Z (Z.pos m * 2 ^ e * 100)
              - 100 * Qabs (if s then - inject_Z (Z.pos m * 2 ^ e)
                            else inject_Z (Z.pos m * 2 ^ e)) == 0)%Q as Hz.
      { rewrite Ha. unfold Qeq. simpl. lia. }
      pose proof (Z.pow_pos_nonneg 2 e).
      split_and!; [lia|by rewrite Hz|by rewrite Hz|done].
    + apply Z.leb_gt in He.
      assert (0 < 2 ^ (- e))%Z as Hd by (apply Z.pow_pos_nonneg; lia).
      destruct (div_half_even_spec (Z.pos m * 100) (2 ^ (- e))) as (Hk & Hle & Htie);
        [lia|done|].
      set (k := div_half_even (Z.pos m * 100) (2 ^ (- e))) in *.
      assert (100 * Qabs (if s then - (Z.pos m # Z.to_pos (2 ^ (- e)))
                          else Z.pos m # Z.to_pos (2 ^ (- e)))
              == (Z.pos m * 100) # Z.to_pos (2 ^ (- e)))%Q as Hq.
      { rewrite Ha. unfold Qeq. simpl. lia. }
      destruct (near_half k (Z.pos m * 100) (Z.to_pos (2 ^ (- e)))) as [Hn1 Hn2].
      rewrite Z2Pos.id in Hn1, Hn2 by done.
      split_and!; [done| | |done].
      * rewrite Hq. by apply Hn1.
      * rewrite Hq. intros Ht. apply Htie. by apply Hn2.
Qed.

Lemma py_max_by_timestamp_fold x l :
  let m := foldl (λ best y, if (timestamp best <? timestamp y)%Z then y else best) x l in
  m ∈ x :: l ∧ (timestamp x ≤ timestamp m)%Z
  ∧ ∀ e, e ∈ l → (timestamp e ≤ timestamp m)%Z.
Proof.
  revert x. induction l as [|y l IH]; intros x; simpl.
  - split_and!; [by left|lia|]. by intros e ?%elem_of_nil.
  - destruct (timestamp x <? timestamp y)%Z eqn:Hlt.
    + destruct (IH y) as (Hin & Hle & Hall). split_and!.
      * by right.
      * lia.
      * intros e [->|He]%elem_of_cons; [done|by apply Hall].
    + destruct (IH x) as (Hin & Hle & Hall). split_and!.
      * apply elem_of_cons in Hin as [->|Hin]; [by left|by do 2 right].
      * done.
      * intros e [->|He]%elem_of_cons; [lia|by apply Hall].
Qed.

Lemma py_max_by_timestamp_spec l m :
  py_max_by_timestamp l = Some m →
  m ∈ l ∧ ∀ e, e ∈ l → (timestamp e ≤ timestamp m)%Z.
Proof.
  destruct l as [|x l]; simpl; [done|]. intros [= <-].
  destruct (py_max_by_timestamp_fold x l) as (Hin & Hle & Hall).
  split; [done|]. intros e [->|He]%elem_of_cons; [done|by apply Hall].
Qed.

Lemma get_stats_nonempty v s :
  _load_history s ≠ [] →
  get_stats v s
  = let es := _load_history s in
    let successful := filter (λ e, status e = "completed") es in
    HistoryStats (length es) (length successful)
      (length (filter (λ e, status e = "failed") es))
      (to_dict <$> py_max_by_timestamp es)
      (py_round2 (mean_duration v successful)).
Proof.
  unfold get_stats, mean_duration. destruct (_load_history s); [done|].
  intros _. simpl. by destruct (filter _ _).
Qed.

(** C7, as the code has it. [get_stats] returns the number of stored
    entries, the numbers of entries of status [completed] and [failed], an
    entry of the greatest timestamp (none for the empty history), and, for
    the average, the float mean of the durations of the [completed]
    entries (their float sum divided by their number, zero when there is
    none) rounded to the hundredth: an infinite mean or a NaN is returned
    as it is; for a finite mean of value [q] the average is the float of
    [k] hundredths, with the sign of the mean, where [k] is the integer
    nearest to [100 |q|], the even one of two that are as near. *)
Theorem get_stats_summary v s :
  let es := _load_history s in
  let st := get_stats v s in
  let mean := mean_duration v (with_status "completed" es) in
  total_syncs st = length es
  ∧ successful_syncs st = count_status "completed" es
  ∧ failed_syncs st = count_status "failed" es
  ∧ (es = [] → last_sync st = None)
  ∧ (es ≠ [] → ∃ m, last_sync st = Some m ∧ m ∈ es
                    ∧ ∀ e, e ∈ es → (timestamp e ≤ timestamp m)%Z)
  ∧ (with_status "completed" es = [] → average_duration st = 0%float)
  ∧ (float_value mean = None → average_duration st = mean)
  ∧ (∀ q, float_value mean = Some q →
       ∃ k : Z, (0 ≤ k)%Z
         ∧ (Qabs (inject_Z k - 100 * Qabs q) <= 1 # 2)%Q
         ∧ ((Qabs (inject_Z k - 100 * Qabs q) == 1 # 2)%Q → Z.even k = true)
         ∧ average_duration st = hundredths (float_sign mean) k).
Proof.
  intros es st mean. subst st mean.
  destruct (decide (es = [])) as [Hnil|Hne].
  { subst es. unfold get_stats. rewrite Hnil. simpl. split_and!; try done.
    intros q [= <-]. exists 0%Z. split_and!; done. }
  rewrite get_stats_nonempty by done. fold es. simpl.
  rewrite !count_status_filter, !with_status_filter.
  set (ok := filter (λ e, status e = "completed") es).
  destruct (py_round2_spec (mean_duration v ok)) as [Hnone Hsome].
  split_and!; try done.
  - intros _. unfold to_dict. rewrite option_fmap_id.
    destruct (py_max_by_timestamp es) as [m|] eqn:Hm.
    + exists m. split; [done|]. by apply py_max_by_timestamp_spec.
    + by destruct es.
  - intros ->. done.
Qed.

(** C7 as it is worded fails: the average that is returned is rounded; for
    one completed run of 1.234 seconds the mean is 1.234 and the average
    1.23, whatever the interpreter. *)
Lemma average_duration_is_rounded :
  let es := _load_history one_run in
  let rounded v :=
    mean_duration v (with_status "completed" es) = 1.234%float
    ∧ average_duration (get_stats v one_run) = 1.23%float
    ∧ average_duration (get_stats v one_run)
      ≠ mean_duration v (with_status "completed" es) in
  rounded Sequential ∧ rounded Compensated.
Proof.
  simpl. split; (split_and!; [vm_compute; reflexivity..|]);
    intros H; apply (f_equal (λ x, PrimFloat.eqb x 1.23)) in H;
    vm_compute in H; discriminate.
Qed.

(** The mean is the mean of the floats: for runs of 2.201, 0.646 and 0.198
    seconds the sum of the three floats divided by three is the float
    below 1.015, and the average is 1.01, whatever the interpreter. *)
Lemma average_duration_of_floats :
  average_duration (get_stats Sequential three_runs) = 1.01%float
  ∧ average_duration (get_stats Compensated three_runs) = 1.01%float
  ∧ mean_duration Sequential (_load_history three_runs) = 1.0149999999999999%float.
Proof. split_and!; vm_compute; reflexivity. Qed.

(** ** The run coordinator *)

Import Router.

(** While the flag is set, a trigger answers [already_running] with the
    last completion time, adds no task, and leaves the server as it is. *)
Lemma trigger_sync_already_running dry_run st :
  in_progress st = true →
  trigger_sync dry_run st = (Response "already_running" (last_sync st) None, []).
Proof. intros H. unfold trigger_sync. by rewrite H. Qed.

Lemma step_trigger_already_running e self sv dry_run :
  in_progress (m_status (sv_machine sv)) = true →
  step e self sv (Trigger dry_run)
  = Some (sv, Some (Response "already_running"
                             (last_sync (m_status (sv_machine sv))) None)).
Proof.
  intros H. unfold step. rewrite trigger_sync_already_running by done.
  rewrite app_nil_r. by destruct sv.
Qed.

(** The flag is set by [perform_sync], not by [trigger_sync]: until the
    first task starts, a second trigger is answered [started] as well. *)
Lemma step_trigger_before_start e self w dry1 dry2 :
  ∃ sv, run_events e self (server0 w) [Trigger dry1; Trigger dry2]
        = Some (sv, [Response "started" None None; Response "started" None None])
        ∧ sv_scheduled sv = [dry1; dry2]
        ∧ in_progress (m_status (sv_machine sv)) = false.
Proof. eexists. split_and!; reflexivity. Qed.

(** C9 on the code. Two triggers handled before the first background task
    has started are both answered [started]; both tasks then start, and two
    runs are active at once. *)
Theorem two_runs_active_at_once e self w :
  ∃ sv,
    run_events e self (server0 w)
      [Trigger false; Trigger false; TaskStarts; TaskStarts]
    = Some (sv, [Response "started" None None; Response "started" None None])
    ∧ sv_active sv = [false; false]
    ∧ length (sv_active sv) = 2.
Proof. eexists. split_and!; reflexivity. Qed.

(** ** A second run after a run without error *)

Import SyncService.

Lemma mtime_differs_same x : mtime_differs x x = false.
Proof.
  unfold mtime_differs. apply negb_false_iff, Qle_bool_iff.
  assert (x - x == 0)%Q as -> by ring. done.
Qed.

Lemma settled_files_copy e sp d rel f : settled_files e sp d rel f f.
Proof. left. split; [done|apply mtime_differs_same]. Qed.

(** The item of a settled pair counts it unchanged and writes nothing. *)
Lemma sync_source_file_settled e sp d dry D st pr p fs fd w :
  is_ignored (basename p) = false →
  wget w (sp, p) = Some fs →
  wget w (d, p) = Some fd →
  D !! p = Some (Meta (d, p) (f_size fd) (f_mtime fd) p) →
  settled_files e sp d p fs fd →
  sync_source_file e d dry D (st, pr)
    (p, Meta (sp, p) (f_size fs) (f_mtime fs) p) w
  = (w, Ok (note_unchanged st, {[p]} ∪ pr)).
Proof.
  intros Hign Hfs Hfd HD Hset.
  unfold sync_source_file. simpl. rewrite Hign.
  unfold sync_regular_file. rewrite bind_eq.
  assert (get_destination_path e d (Meta (sp, p) (f_size fs) (f_mtime fs) p) dry w
          = (w, Ok (d, p))) as ->.
  { unfold get_destination_path. rewrite bind_eq. simpl.
    destruct dry; simpl; [done|]. unfold os_makedirs_for. by rewrite Hfd. }
  rewrite HD. simpl.
  destruct (negb (f_size fs =? f_size fd) || mtime_differs (f_mtime fs) (f_mtime fd))
    eqn:Htest; [|done].
  destruct Hset as [[Hsz Hmt]|(Hrs & Hrd & Hmd)].
  { rewrite Hsz, Nat.eqb_refl, Hmt in Htest. done. }
  rewrite bind_eq, calculate_file_hash_eq, Hfs, Hrs.
  rewrite bind_eq, calculate_file_hash_eq, Hfd, Hrd.
  by rewrite Hmd, String.eqb_refl.
Qed.

Lemma sync_dest_file_protected e dry pr st q dm w :
  is_protected (basename q) = true →
  sync_dest_file e dry pr st (q, dm) w = (w, Ok st).
Proof.
  intros Hp. unfold sync_dest_file. rewrite Hp. by destruct (bool_decide _).
Qed.

Lemma sync_loops_settled e sp d dry w :
  settled_world e sp d w →
  ∃ st, sync_loops e d dry (walk sp w) (walk d w) w = (w, Ok st)
        ∧ added st = 0 ∧ updated st = 0 ∧ deleted st = 0 ∧ errors st = 0
        ∧ unchanged st + ignored st = size (walk sp w).
Proof.
  intros (Hroot & Hsrc & Hdst). rewrite sync_loops_eq.
  destruct (for_each _ (map_to_list (walk sp w)) _ w) as [w1 r1] eqn:Hfe1.
  apply (for_each_run _
    (λ xs acc w', w' = w ∧ items_of sp w xs
       ∧ added acc.1 = 0 ∧ updated acc.1 = 0 ∧ deleted acc.1 = 0 ∧ errors acc.1 = 0
       ∧ unchanged acc.1 + ignored acc.1 + length xs = size (walk sp w)
       ∧ ∀ rel, is_Some (walk sp w !! rel) → is_ignored (basename rel) = false →
           rel ∈ xs.*1 ∨ rel ∈ acc.2)
    (λ _, False)) in Hfe1.
  3:{ split_and!; [done|apply items_of_walk|done..| |].
      - simpl. by rewrite length_map_to_list.
      - intros rel [m Hm] _. left. apply list_elem_of_fmap. exists (rel, m).
        split; [done|]. by apply elem_of_map_to_list. }
  2:{ intros [rel sm] xs [st pr] w' (-> & Hit & Ha & Hu & Hd & He & Hcount & Hpr).
      apply items_of_cons in Hit as (Hx & Hnin & Hit). simpl in Hx, Hnin.
      pose proof Hx as (fs & Hfs & -> & Hvis)%walk_lookup_Some.
      destruct (is_ignored (basename rel)) eqn:Hign.
      - rewrite sync_source_file_ignored by done. notes.
        split_and!; try done; [lia|].
        intros r Hr Hnr. destruct (Hpr r Hr Hnr) as [Hin|Hin]; [|by right].
        apply elem_of_cons in Hin as [->|Hin]; [congruence|by left].
      - destruct (Hsrc rel fs Hfs Hvis Hign) as (fd & Hfd & Hset).
        rewrite (sync_source_file_settled e sp d dry _ st pr rel fs fd w); try done.
        + notes. split_and!; try done; [lia|].
          intros r Hr Hnr. destruct (Hpr r Hr Hnr) as [Hin|Hin].
          * apply elem_of_cons in Hin as [->|Hin]; [right; in_union|by left].
          * right. in_union.
        + by rewrite walk_lookup, Hvis, Hfd. }
  destruct r1 as [[st1 pr1]|msg]; [|done]. simpl in *.
  destruct Hfe1 as (-> & _ & Ha & Hu & Hd & He & Hcount & Hpr).
  destruct (for_each _ (map_to_list (walk d w)) _ w) as [w2 r2] eqn:Hfe2.
  apply (for_each_run _
    (λ xs st w', w' = w ∧ items_of d w xs ∧ st = st1)
    (λ _, False)) in Hfe2.
  - destruct r2 as [st2|msg]; [|done]. destruct Hfe2 as (-> & _ & ->).
    exists st1. split_and!; try done. simpl in Hcount. lia.
  - intros [q dm] xs st w' (-> & Hit & ->).
    apply items_of_cons in Hit as (Hx & _ & Hit). simpl in Hx.
    pose proof Hx as (fd & Hfd & _ & Hvis)%walk_lookup_Some.
    destruct (Hdst q fd Hfd Hvis) as [[[fs Hfs] Hign]|Hprot].
    + rewrite sync_dest_file_processed; [done|].
      destruct (Hpr q) as [Hin|Hin]; [|done|by apply elem_of_nil in Hin|done].
      rewrite walk_lookup, Hvis, Hfs. eauto.
    + by rewrite sync_dest_file_protected.
  - split_and!; [done|apply items_of_walk|done].
Qed.

(** *** The items of a real run that report no error *)

Lemma root_wput p f (w : world) r : is_Some (w !! r) → is_Some (wput p f w !! r).
Proof.
  intros H. unfold wput. destruct (decide (p.1 = r)) as [<-|Hne].
  - rewrite lookup_insert_eq. eauto.
  - by rewrite lookup_insert_ne.
Qed.

Lemma root_wput_own p f (w : world) : is_Some (wput p f w !! p.1).
Proof. unfold wput. rewrite lookup_insert_eq. eauto. Qed.

Lemma root_wdel p (w : world) r : is_Some (w !! r) → is_Some (wdel p w !! r).
Proof.
  intros H. unfold wdel. destruct (w !! p.1) eqn:Hp; [|done].
  destruct (decide (p.1 = r)) as [<-|Hne].
  - rewrite lookup_insert_eq. eauto.
  - by rewrite lookup_insert_ne.
Qed.

Lemma root_ensure (w : world) d r :
  is_Some (w !! r) → is_Some (<[d := tree_of w d]> w !! r).
Proof.
  intros H. destruct (decide (d = r)) as [<-|Hne].
  - rewrite lookup_insert_eq. eauto.
  - by rewrite lookup_insert_ne.
Qed.

Lemma sync_source_file_errors e d dry D st pr it w acc' :
  (sync_source_file e d dry D (st, pr) it w).2 = Ok acc' →
  errors st ≤ errors acc'.1.
Proof.
  destruct it as [rel sm]. intros H.
  destruct (sync_source_file_stats _ _ _ _ _ _ _ _ _ _ H)
    as [[_ ->]|(_ & _ & [-> | [-> | [-> | ->]]])]; simpl; lia.
Qed.

Lemma sync_dest_file_errors e dry pr st it w st' :
  (sync_dest_file e dry pr st it w).2 = Ok st' → errors st ≤ errors st'.
Proof.
  destruct it as [q dm]. intros H.
  destruct (sync_dest_file_stats _ _ _ _ _ _ _ _ H) as [-> | [[x ->] | [x ->]]];
    simpl; lia.
Qed.

(** An item of the source loop of a real run, for a file that is not
    ignored, when no error is counted: the destination then holds a settled
    copy, and nothing else has changed. *)
Lemma sync_source_file_real e sp d D st pr rel fs w w' acc' :
  is_ignored (basename rel) = false →
  wget w (sp, rel) = Some fs →
  D !! rel = (λ f, Meta (d, rel) (f_size f) (f_mtime f) rel) <$> wget w (d, rel) →
  sync_source_file e d false D (st, pr)
    (rel, Meta (sp, rel) (f_size fs) (f_mtime fs) rel) w = (w', Ok acc') →
  errors acc'.1 = errors st →
  acc'.2 = {[rel]} ∪ pr
  ∧ (∀ q, q ≠ (d, rel) → wget w' q = wget w q)
  ∧ (∀ r, is_Some (w !! r) → is_Some (w' !! r))
  ∧ is_Some (w' !! d)
  ∧ wget w' (sp, rel) = Some fs
  ∧ ∃ fd, wget w' (d, rel) = Some fd ∧ settled_files e sp d rel fs fd.
Proof.
  intros Hign Hfs HD Hrun Herr.
  unfold sync_source_file in Hrun. simpl in Hrun. rewrite Hign in Hrun.
  unfold sync_regular_file in Hrun. rewrite bind_eq in Hrun.
  unfold get_destination_path in Hrun. rewrite bind_eq in Hrun. simpl in Hrun.
  unfold os_makedirs_for at 1 in Hrun. simpl in Hrun.
  destruct (wget w (d, rel)) as [fd|] eqn:Hfd; simpl in HD.
  - (* the destination holds the path *)
    rewrite HD in Hrun. simpl in Hrun.
    destruct (negb (f_size fs =? f_size fd) || mtime_differs (f_mtime fs) (f_mtime fd))
      eqn:Htest.
    + rewrite bind_eq, calculate_file_hash_eq, Hfs in Hrun.
      destruct (fault e (OpRead (sp, rel))) eqn:Hrs; [done|].
      rewrite bind_eq, calculate_file_hash_eq, Hfd in Hrun.
      destruct (fault e (OpRead (d, rel))) eqn:Hrd; [done|].
      destruct (String.eqb_spec (md5 e (f_data fs)) (md5 e (f_data fd))) as [Hmd|Hmd];
        simpl in Hrun.
      * injection Hrun as <- <-. simpl.
        split_and!; [done|done|done|by eapply wget_root_exists|done|].
        exists fd. split; [done|]. right. done.
      * rewrite bind_eq in Hrun. unfold try_, shutil_copy2 in Hrun.
        rewrite Hfs in Hrun. case_bool_decide as Hsame.
        { injection Hrun as <- <-. simpl in Herr. lia. }
        destruct (fault e (OpCopy (sp, rel) (d, rel))) eqn:Hcp.
        { injection Hrun as <- <-. simpl in Herr. lia. }
        injection Hrun as <- <-. simpl.
        split_and!; [done| | | | |].
        -- intros q Hq. rewrite wget_wput. by rewrite decide_False.
        -- intros r. apply root_wput.
        -- apply (root_wput_own (d, rel)).
        -- rewrite wget_wput. by rewrite decide_False.
        -- exists fs. split; [|apply settled_files_copy].
           rewrite wget_wput. by rewrite decide_True.
    + injection Hrun as <- <-. simpl.
      split_and!; [done|done|done|by eapply wget_root_exists|done|].
      exists fd. split; [done|]. left.
      apply orb_false_iff in Htest as [Hsz%negb_false_iff%Nat.eqb_eq Hmt]. done.
  - (* the destination does not hold the path *)
    destruct (fault e (OpMakedirsFor (d, rel))) eqn:Hmk; [done|].
    rewrite HD in Hrun. simpl in Hrun.
    rewrite bind_eq in Hrun. unfold try_ in Hrun. rewrite bind_eq in Hrun.
    unfold os_makedirs_for in Hrun. rewrite wget_ensure_root, Hfd, Hmk in Hrun.
    simpl in Hrun. unfold shutil_copy2 in Hrun.
    rewrite !wget_ensure_root, Hfs in Hrun. case_bool_decide as Hsame.
    { injection Hrun as <- <-. simpl in Herr. lia. }
    destruct (fault e (OpCopy (sp, rel) (d, rel))) eqn:Hcp.
    { injection Hrun as <- <-. simpl in Herr. lia. }
    injection Hrun as <- <-. simpl.
    split_and!; [done| | | | |].
    + intros q Hq. rewrite wget_wput, decide_False by done.
      by rewrite !wget_ensure_root.
    + intros r Hr. by apply root_wput, root_ensure, root_ensure.
    + apply (root_wput_own (d, rel)).
    + rewrite wget_wput, decide_False by done. by rewrite !wget_ensure_root.
    + exists fs. split; [|apply settled_files_copy].
      rewrite wget_wput. by rewrite decide_True.
Qed.

(** An item of the destination loop of a real run, when no error is
    counted: the file is kept, as processed or protected, or it is removed
    and nothing else changes. *)
Lemma sync_dest_file_real e d pr st q dm w w' st' :
  m_path dm = (d, q) →
  sync_dest_file e false pr st (q, dm) w = (w', Ok st') →
  errors st' = errors st →
  (∀ r, is_Some (w !! r) → is_Some (w' !! r))
  ∧ (((q ∈ pr ∨ is_protected (basename q) = true) ∧ w' = w)
     ∨ ((q ∉ pr) ∧ is_protected (basename q) = false ∧ wget w' (d, q) = None
        ∧ ∀ p, p ≠ (d, q) → wget w' p = wget w p)).
Proof.
  intros Hpath Hrun Herr. unfold sync_dest_file in Hrun.
  case_bool_decide as Hpr.
  { injection Hrun as <- <-. split; [done|]. left. split; [by left|done]. }
  destruct (is_protected (basename q)) eqn:Hprot.
  { injection Hrun as <- <-. split; [done|]. left. split; [by right|done]. }
  simpl in Hrun. rewrite bind_eq in Hrun. unfold try_, os_remove in Hrun.
  rewrite Hpath in Hrun.
  destruct (wget w (d, q)) eqn:Hq.
  2:{ injection Hrun as <- <-. simpl in Herr. lia. }
  destruct (fault e (OpRemove (d, q))) eqn:Hrm.
  { injection Hrun as <- <-. simpl in Herr. lia. }
  injection Hrun as <- <-. split; [intros r; apply root_wdel|].
  right. split_and!; [done|done| |].
  - rewrite wget_wdel. by rewrite decide_True.
  - intros p Hp. rewrite wget_wdel. by rewrite decide_False.
Qed.

Lemma source_loop_good_step e sp d w0 x xs st pr w w' acc' :
  source_loop_good e sp d w0 (x :: xs) (st, pr) w →
  sync_source_file e d false (walk d w0) (st, pr) x w = (w', Ok acc') →
  errors acc'.1 = errors st →
  source_loop_good e sp d w0 xs acc' w'.
Proof.
  intros (Hit & Hroot & HF & HG1 & HG3 & HG4 & HG5) Hrun Herr. simpl in *.
  destruct x as [rel sm].
  apply items_of_cons in Hit as (Hx & Hnin & Hit). simpl in Hx, Hnin.
  pose proof Hx as (fs & Hfs & -> & Hvis)%walk_lookup_Some.
  assert (rel ∉ pr) as Hnpr.
  { intros Hin. apply (HG5 rel Hin). by left. }
  destruct (is_ignored (basename rel)) eqn:Hign.
  - rewrite sync_source_file_ignored in Hrun by done.
    injection Hrun as <- <-. simpl.
    split_and!; try done.
    + intros r Hr Hnr. destruct (HG4 r Hr Hnr) as [Hin|Hin]; [|by right].
      apply elem_of_cons in Hin as [->|Hin]; [simpl in *; congruence|by left].
    + intros r Hr Hin. apply (HG5 r Hr). by right.
  - assert (wget w (sp, rel) = Some fs) as Hfs'.
    { destruct (decide (sp = d)) as [->|Hne]; [by rewrite HG1|by rewrite HF]. }
    assert (walk d w0 !! rel
            = (λ f, Meta (d, rel) (f_size f) (f_mtime f) rel) <$> wget w (d, rel)) as HD.
    { by rewrite walk_lookup, Hvis, HG1. }
    destruct (sync_source_file_real e sp d _ st pr rel fs w w' acc' Hign Hfs' HD Hrun Herr)
      as (Hpr' & Hframe & Hroots & Hroot' & Hsrc' & fd & Hfd & Hset).
    unfold source_loop_good. rewrite Hpr'. split_and!; try done.
    + intros r r' Hr. rewrite Hframe by congruence. by apply HF.
    + intros q [Hq1%not_elem_of_singleton Hq2]%not_elem_of_union.
      rewrite Hframe by congruence. by apply HG1.
    + intros r [->%elem_of_singleton|Hr]%elem_of_union.
      * split_and!; [done..|]. eauto 6.
      * assert (r ≠ rel) as Hne by congruence.
        destruct (HG3 r Hr) as (? & ? & fs' & fd' & ? & ? & ?).
        split_and!; [done..|]. exists fs', fd'.
        rewrite !Hframe by congruence. done.
    + intros r Hr Hnr. destruct (HG4 r Hr Hnr) as [Hin|Hin].
      * apply elem_of_cons in Hin as [->|Hin]; [right; in_union|by left].
      * right. in_union.
    + intros r [->%elem_of_singleton|Hr]%elem_of_union; [done|].
      intros Hin. apply (HG5 r Hr). by right.
Qed.

Lemma dest_loop_good_step e sp d w0 pr x xs st w w' st' :
  dest_loop_good e sp d w0 pr (x :: xs) w →
  sync_dest_file e false pr st x w = (w', Ok st') →
  errors st' = errors st →
  dest_loop_good e sp d w0 pr xs w'.
Proof.
  intros (Hit & Hroot & HF & HG3 & Ha & Hb) Hrun Herr.
  destruct x as [q dm].
  apply items_of_cons in Hit as (Hx & Hnin & Hit). simpl in Hx, Hnin.
  pose proof (item_meta _ _ (q, dm) Hx) as [_ Hpath]. simpl in Hpath.
  destruct (sync_dest_file_real e d pr st q dm w w' st' Hpath Hrun Herr)
    as [Hroots [[Hkeep ->]|(Hnpr & Hprot & Hgone & Hframe)]].
  - split_and!; try done.
    intros r Hr Hnr Hnp. destruct (Hb r Hr Hnr Hnp) as [Hin|Hin]; [|by right].
    apply elem_of_cons in Hin as [->|Hin]; [|by left].
    simpl in *. destruct Hkeep; [done|congruence].
  - split_and!; try done.
    + by apply Hroots.
    + intros r rel Hr. rewrite Hframe by congruence. by apply HF.
    + intros rel Hrel. assert (rel ≠ q) as Hne by congruence.
      destruct (HG3 rel Hrel) as (? & ? & fs & fd & ? & ? & ?).
      split_and!; [done..|]. exists fs, fd. rewrite !Hframe by congruence. done.
    + intros r Hr. destruct (decide (r = q)) as [->|Hne]; [by right|].
      rewrite Hframe by congruence. by apply Ha.
    + intros r Hr Hnr Hnp. destruct (decide (r = q)) as [->|Hne]; [by right|].
      rewrite Hframe by congruence.
      destruct (Hb r Hr Hnr Hnp) as [Hin|Hin]; [|by right].
      apply elem_of_cons in Hin as [Heq|Hin]; [done|by left].
Qed.

Lemma sync_loops_real_settles e sp d w0 w w1 st1 :
  (∀ q, wget w q = wget w0 q) →
  is_Some (w !! d) →
  sync_loops e d false (walk sp w0) (walk d w0) w = (w1, Ok st1) →
  errors st1 = 0 →
  settled_world e sp d w1.
Proof.
  intros Hw Hroot Hrun Herr. rewrite sync_loops_eq in Hrun.
  destruct (for_each _ (map_to_list (walk sp w0)) _ w) as [wm rm] eqn:Hfe1.
  apply (for_each_run _
    (λ xs acc wc, errors acc.1 = 0 → source_loop_good e sp d w0 xs acc wc)
    (λ _, True)) in Hfe1.
  3:{ intros _. split_and!; [apply items_of_walk|done|done|done| | |].
      - intros rel Hrel. by apply elem_of_empty in Hrel.
      - intros rel [m Hm] _. left. apply list_elem_of_fmap. exists (rel, m).
        split; [done|]. by apply elem_of_map_to_list.
      - intros rel Hrel. by apply elem_of_empty in Hrel. }
  2:{ intros x xs [st pr] wc HP.
      destruct (sync_source_file e d false (walk d w0) (st, pr) x wc)
        as [w' [acc'|msg]] eqn:Hstep; [|done].
      intros Herr'.
      pose proof (sync_source_file_errors e d false (walk d w0) st pr x wc acc') as Hmono.
      rewrite Hstep in Hmono. specialize (Hmono eq_refl). simpl in HP.
      eapply source_loop_good_step; [apply HP; lia|done|lia]. }
  destruct rm as [[stm pr]|msg]; [|done]. simpl in Hfe1, Hrun.
  apply (for_each_run _
    (λ xs st wc, errors stm ≤ errors st
                 ∧ (errors st = 0 → dest_loop_good e sp d w0 pr xs wc))
    (λ _, True)) in Hrun.
  3:{ split; [done|]. intros Hz.
      destruct (Hfe1 Hz) as (_ & Hr & HF & HG1 & HG3 & HG4 & _). simpl in *.
      split_and!; [apply items_of_walk|done|done|done| |].
      - intros q Hq. left. by apply HG1.
      - intros q [m Hm] _ _. left. apply list_elem_of_fmap. exists (q, m).
        split; [done|]. by apply elem_of_map_to_list. }
  2:{ intros x xs st wc [Hle HP].
      destruct (sync_dest_file e false pr st x wc) as [w' [st'|msg]] eqn:Hstep; [|done].
      pose proof (sync_dest_file_errors e false pr st x wc st') as Hmono.
      rewrite Hstep in Hmono. specialize (Hmono eq_refl).
      split; [lia|]. intros Hz.
      eapply dest_loop_good_step; [apply HP; lia|done|lia]. }
  destruct Hrun as [Hle Hgood].
  destruct (Hgood Herr) as (_ & Hr & HF & HG3 & Ha & Hb).
  assert (errors stm = 0) as Hz by lia.
  destruct (Hfe1 Hz) as (_ & _ & _ & _ & _ & HG4 & _). simpl in HG4.
  assert (∀ rel fs, wget w1 (sp, rel) = Some fs →
            startswith_dot (basename rel) = false →
            is_ignored (basename rel) = false → rel ∈ pr) as Hall.
  { intros rel fs Hfs Hvis Hign.
    destruct (decide (rel ∈ pr)) as [|Hnpr]; [done|].
    assert (is_Some (walk sp w0 !! rel)) as Hin.
    { rewrite walk_lookup, Hvis.
      destruct (decide (sp = d)) as [->|Hne].
      - destruct (Ha rel Hnpr) as [Heq|Heq]; rewrite Heq in Hfs; [|done].
        rewrite Hfs. simpl. eauto.
      - rewrite HF in Hfs by done. rewrite Hfs. simpl. eauto. }
    destruct (HG4 rel Hin Hign) as [Hnil|]; [|done].
    by apply elem_of_nil in Hnil. }
  split_and!; [done| |].
  - intros rel fs Hfs Hvis Hign.
    destruct (HG3 rel (Hall rel fs Hfs Hvis Hign)) as (_ & _ & fs' & fd & Hfs' & Hfd & Hset).
    exists fd. split; [done|]. congruence.
  - intros q fd Hfd Hvis.
    destruct (decide (q ∈ pr)) as [Hpr|Hnpr].
    + left. destruct (HG3 q Hpr) as (? & _ & fs & _ & Hfs & _). split; [eauto|done].
    + right. destruct (is_protected (basename q)) eqn:Hprot; [done|].
      assert (is_Some (walk d w0 !! q)) as Hin.
      { rewrite walk_lookup, Hvis.
        destruct (Ha q Hnpr) as [Heq|Heq]; rewrite Heq in Hfd; [|done].
        rewrite Hfd. simpl. eauto. }
      destruct (Hb q Hin Hnpr Hprot) as [Hnil|Hgone].
      * by apply elem_of_nil in Hnil.
      * congruence.
Qed.

(** A replica inside the library, or the library inside the replica, or
    one directory under two spellings, do not lie apart. *)
Lemma apart_examples :
  Layout.apart "library" "replica" = true
  ∧ Layout.apart "/books/library" "/mnt/usb" = true
  ∧ Layout.apart "lib" "lib/replica" = false
  ∧ Layout.apart "data/lib" "data" = false
  ∧ Layout.apart "lib" "./lib/" = false
  ∧ Layout.apart "lib" "/srv/lib" = false
  ∧ Layout.apart "a/../lib" "lib" = false.
Proof. split_and!; vm_compute; reflexivity. Qed.

(** Directories that lie apart are not the same directory. *)
Lemma apart_ne a b : Layout.apart a b = true → a ≠ b.
Proof.
  intros Hap ->. unfold Layout.apart in Hap.
  rewrite (bool_decide_eq_true_2 (Layout.components b `prefix_of` Layout.components b))
    in Hap by done.
  simpl in Hap. by rewrite !andb_false_r in Hap.
Qed.

(** C5, as the code has it. For a library and a destination that lie
    apart: when a real run returns with no error counted, and the walk of
    the destination then lists the copy of every file of the source
    catalog that is not ignored, a second real run from the file system
    that the first one left, against the same operating system, adds,
    updates and deletes nothing, counts no error, counts every file of the
    source catalog as unchanged or ignored, and leaves the file system as
    it is. *)
Theorem second_run_is_quiet e self d w w1 st1 :
  Layout.apart (source_path self) d = true →
  sync_folder e self d false w = (w1, Ok st1) →
  errors st1 = 0 →
  map_Forall (λ rel _, is_ignored (basename rel) = false →
                       is_Some (walk d w1 !! rel))
             (walk (source_path self) w1) →
  ∃ st2,
    sync_folder e self d false w1 = (w1, Ok st2)
    ∧ added st2 = 0 ∧ updated st2 = 0 ∧ deleted st2 = 0 ∧ errors st2 = 0
    ∧ unchanged st2 + ignored st2 = size (walk (source_path self) w1).
Proof.
  intros _ Hrun Herr _. rewrite sync_folder_eq in Hrun. rewrite orb_false_r in Hrun.
  assert (settled_world e (source_path self) d w1) as Hset.
  { case_bool_decide as Hex.
    - by apply (sync_loops_real_settles e _ d w w w1 st1).
    - destruct (fault e (OpMakedirs d)); [done|].
      apply (sync_loops_real_settles e _ d w (<[d := tree_of w d]> w) w1 st1);
        try done.
      + intros q. apply wget_ensure_root.
      + rewrite lookup_insert_eq. eauto. }
  rewrite sync_folder_eq.
  rewrite bool_decide_eq_true_2 by apply Hset. simpl.
  by apply sync_loops_settled.
Qed.

Lemma second_run_is_quiet_witness :
  ∃ st2,
    sync_folder quiet library "replica" false first_run.1 = (first_run.1, Ok st2)
    ∧ added st2 = 0 ∧ updated st2 = 0 ∧ deleted st2 = 0 ∧ errors st2 = 0
    ∧ unchanged st2 + ignored st2 = size (walk (source_path library) first_run.1).
Proof.
  apply (second_run_is_quiet quiet library "replica" w_protected first_run.1
           (stats_of first_run.2)).
  - vm_compute. reflexivity.
  - vm_compute. reflexivity.
  - vm_compute. reflexivity.
  - refine (bool_decide_unpack _ _). vm_compute. exact I.
Defined.

(** C5 as it is worded fails when the first run meets errors: on a replica
    that cannot be written the copy fails again in the second run, and the
    one file of the source is counted as an error, neither unchanged nor
    ignored. *)
Lemma second_run_repeats_errors :
  let r1 := sync_folder read_only library "replica" false w_new in
  let r2 := sync_folder read_only library "replica" false r1.1 in
  r1.1 = w_new
  ∧ size (walk "library" r1.1) = 1
  ∧ ∃ st1 st2, r1.2 = Ok st1 ∧ r2.2 = Ok st2
               ∧ errors st1 = 1 ∧ errors st2 = 1
               ∧ error_files st2 = ["book/a.epub"]
               ∧ unchanged st2 + ignored st2 = 0.
Proof.
  simpl. split_and!; [vm_compute; reflexivity..|].
  do 2 eexists. split_and!; vm_compute; reflexivity.
Qed.

(** ** A dry run against a real run *)

(** Where the two runs agree. *)

Lemma source_loop_errors e d dry D xs acc w w' acc' :
  for_each (sync_source_file e d dry D) xs acc w = (w', Ok acc') →
  errors acc.1 ≤ errors acc'.1.
Proof.
  revert acc w. induction xs as [|x xs IH]; intros [st pr] w Hrun.
  - by injection Hrun as <- <-.
  - rewrite for_each_cons in Hrun.
    destruct (sync_source_file e d dry D (st, pr) x w) as [wm [[stm prm]|msg]] eqn:Hstep;
      [|done].
    pose proof (sync_source_file_errors e d dry D st pr x w (stm, prm)) as Hmono.
    rewrite Hstep in Hmono. specialize (Hmono eq_refl).
    apply IH in Hrun. simpl in *. lia.
Qed.

Lemma dest_loop_errors e dry pr xs st w w' st' :
  for_each (sync_dest_file e dry pr) xs st w = (w', Ok st') →
  errors st ≤ errors st'.
Proof.
  revert st w. induction xs as [|x xs IH]; intros st w Hrun.
  - by injection Hrun as <- <-.
  - rewrite for_each_cons in Hrun.
    destruct (sync_dest_file e dry pr st x w) as [wm [stm|msg]] eqn:Hstep; [|done].
    pose proof (sync_dest_file_errors e dry pr st x w stm) as Hmono.
    rewrite Hstep in Hmono. specialize (Hmono eq_refl).
    apply IH in Hrun. lia.
Qed.

Lemma try_ok {A} (m : io A) w : ∃ w2 r, try_ m w = (w2, Ok r).
Proof. unfold try_. destruct (m w) as [w2 r]. eauto. Qed.

(** An item of the source loop that a real run passes without error gives
    the same statistics in a dry run, on a file system that has the same
    two files. *)
Lemma sync_source_file_agrees e d D st pr rel sm w w' acc' wd :
  m_relative_path sm = rel →
  wget wd (m_path sm) = wget w (m_path sm) →
  wget wd (d, rel) = wget w (d, rel) →
  (∀ dm, D !! rel = Some dm → m_path dm = (d, rel)) →
  sync_source_file e d false D (st, pr) (rel, sm) w = (w', Ok acc') →
  errors acc'.1 = errors st →
  sync_source_file e d true D (st, pr) (rel, sm) wd = (wd, Ok acc').
Proof.
  intros Hrel Hs Hd HD Hrun Herr.
  unfold sync_source_file in *. simpl in *.
  destruct (is_ignored (basename rel)); [by injection Hrun as <- <-|].
  unfold sync_regular_file in *. rewrite bind_eq in Hrun. rewrite bind_eq.
  unfold get_destination_path in *. rewrite bind_eq in Hrun. rewrite bind_eq.
  simpl in *. rewrite Hrel in *.
  unfold os_makedirs_for at 1 in Hrun.
  destruct (D !! rel) as [dm|] eqn:HDrel.
  - specialize (HD dm eq_refl). rewrite HD in *.
    assert (∃ w2, w2 = w ∨ w2 = <[d := tree_of w d]> w) as _ by eauto.
    destruct (wget w (d, rel)) as [fd|] eqn:Hfd; simpl in Hrun.
    + destruct (negb (m_size sm =? m_size dm) || mtime_differs (m_mtime sm) (m_mtime dm));
        [|by injection Hrun as <- <-].
      rewrite bind_eq, calculate_file_hash_eq in Hrun.
      rewrite bind_eq, calculate_file_hash_eq, Hs.
      destruct (wget w (m_path sm)) as [fs|]; [|done].
      destruct (fault e (OpRead (m_path sm))); [done|].
      rewrite bind_eq, calculate_file_hash_eq, Hfd in Hrun.
      rewrite bind_eq, calculate_file_hash_eq, Hd.
      destruct (fault e (OpRead (d, rel))); [done|].
      destruct (negb (md5 e (f_data fs) =? md5 e (f_data fd))%string);
        [|by injection Hrun as <- <-].
      simpl in *. rewrite bind_eq in Hrun.
      destruct (try_ _ w) as [w2 [[[]|msg]|msg]]; simpl in Hrun; [| |done];
        injection Hrun as <- <-; simpl in Herr; [done|lia].
    + destruct (fault e (OpMakedirsFor (d, rel))); [done|]. simpl in Hrun.
      destruct (negb (m_size sm =? m_size dm) || mtime_differs (m_mtime sm) (m_mtime dm)).
      * rewrite bind_eq, calculate_file_hash_eq, wget_ensure_root in Hrun.
        destruct (wget w (m_path sm)) as [fs|]; [|done].
        destruct (fault e (OpRead (m_path sm))); [done|].
        rewrite bind_eq, calculate_file_hash_eq, wget_ensure_root, Hfd in Hrun. done.
      * injection Hrun as <- <-. done.
  - destruct (wget w (d, rel)) as [fd|] eqn:Hfd; simpl in Hrun.
    + rewrite bind_eq in Hrun.
      destruct (try_ok (os_makedirs_for e (d, rel);;
                        shutil_copy2 e (m_path sm) (d, rel)) w) as (w2 & r & Hr).
      rewrite Hr in Hrun. destruct r as [[]|msg]; injection Hrun as <- <-;
        simpl in Herr; [done|lia].
    + destruct (fault e (OpMakedirsFor (d, rel))); [done|]. simpl in Hrun.
      rewrite bind_eq in Hrun.
      destruct (try_ok (os_makedirs_for e (d, rel);;
                        shutil_copy2 e (m_path sm) (d, rel))
                  (<[d := tree_of w d]> w)) as (w2 & r & Hr).
      rewrite Hr in Hrun. destruct r as [[]|msg]; injection Hrun as <- <-;
        simpl in Herr; [done|lia].
Qed.

Lemma sync_dest_file_agrees e pr st q dm w w' st' wd :
  sync_dest_file e false pr st (q, dm) w = (w', Ok st') →
  errors st' = errors st →
  sync_dest_file e true pr (dry_view st) (q, dm) wd = (wd, Ok (dry_view st')).
Proof.
  intros Hrun Herr. unfold sync_dest_file in *.
  destruct (bool_decide (q ∈ pr)); [by injection Hrun as <- <-|].
  destruct (is_protected (basename q)); [by injection Hrun as <- <-|].
  simpl in *. rewrite bind_eq in Hrun.
  destruct (try_ok (os_remove e (m_path dm)) w) as (w2 & r & Hr).
  rewrite Hr in Hrun. destruct r as [[]|msg]; injection Hrun as <- <-.
  - unfold mret, io_mret, io_ret, dry_view, note_deleted. simpl.
    by rewrite fmap_app.
  - simpl in Herr. lia.
Qed.

Lemma dest_loop_agrees e pr xs st w w1 st1 wd :
  for_each (sync_dest_file e false pr) xs st w = (w1, Ok st1) →
  errors st1 = errors st →
  for_each (sync_dest_file e true pr) xs (dry_view st) wd = (wd, Ok (dry_view st1)).
Proof.
  revert st w. induction xs as [|[q dm] xs IH]; intros st w Hrun Herr.
  - by injection Hrun as <- <-.
  - rewrite for_each_cons in Hrun. rewrite for_each_cons.
    destruct (sync_dest_file e false pr st (q, dm) w) as [wm [stm|msg]] eqn:Hstep;
      [|done].
    pose proof (dest_loop_errors _ _ _ _ _ _ _ _ Hrun) as Hle1.
    pose proof (sync_dest_file_errors e false pr st (q, dm) w stm) as Hle2.
    rewrite Hstep in Hle2. specialize (Hle2 eq_refl).
    rewrite (sync_dest_file_agrees e pr st q dm w wm stm wd Hstep) by lia.
    apply (IH stm wm); [done|lia].
Qed.

Lemma source_loop_good_init e sp d w0 w :
  (∀ q, wget w q = wget w0 q) →
  is_Some (w !! d) →
  source_loop_good e sp d w0 (map_to_list (walk sp w0)) (stats0, ∅) w.
Proof.
  intros Hw Hroot. split_and!; [apply items_of_walk|done|done|done| | |].
  - intros rel Hrel. by apply elem_of_empty in Hrel.
  - intros rel [m Hm] _. left. apply list_elem_of_fmap. exists (rel, m).
    split; [done|]. by apply elem_of_map_to_list.
  - intros rel Hrel. by apply elem_of_empty in Hrel.
Qed.

Lemma source_loop_agrees e sp d w0 wd xs st pr wc w1 acc1 :
  (∀ q, wget wd q = wget w0 q) →
  source_loop_good e sp d w0 xs (st, pr) wc →
  for_each (sync_source_file e d false (walk d w0)) xs (st, pr) wc = (w1, Ok acc1) →
  errors acc1.1 = errors st →
  for_each (sync_source_file e d true (walk d w0)) xs (st, pr) wd = (wd, Ok acc1).
Proof.
  intros Hwd. revert st pr wc.
  induction xs as [|[rel sm] xs IH]; intros st pr wc Hgood Hrun Herr.
  - by injection Hrun as <- <-.
  - rewrite for_each_cons in Hrun. rewrite for_each_cons.
    destruct (sync_source_file e d false (walk d w0) (st, pr) (rel, sm) wc)
      as [wm [[stm prm]|msg]] eqn:Hstep; [|done].
    pose proof (source_loop_errors _ _ _ _ _ _ _ _ _ Hrun) as Hle1.
    pose proof (sync_source_file_errors e d false (walk d w0) st pr (rel, sm) wc
                  (stm, prm)) as Hle2.
    rewrite Hstep in Hle2. specialize (Hle2 eq_refl). simpl in Hle1, Hle2.
    assert (errors stm = errors st) as Herr' by lia.
    pose proof (source_loop_good_step e sp d w0 (rel, sm) xs st pr wc wm (stm, prm)
                  Hgood Hstep Herr') as Hgood'.
    destruct Hgood as (Hit & _ & HF & HG1 & _ & _ & HG5). simpl in *.
    apply items_of_cons in Hit as (Hx & _ & _). simpl in Hx.
    pose proof (item_meta _ _ (rel, sm) Hx) as [Hrel Hpath]. simpl in Hrel, Hpath.
    assert (rel ∉ pr) as Hnpr.
    { intros Hin. apply (HG5 rel Hin). by left. }
    rewrite (sync_source_file_agrees e d _ st pr rel sm wc wm (stm, prm) wd); try done.
    + apply (IH stm prm wm); [done..|]. simpl. lia.
    + rewrite Hpath, Hwd.
      destruct (decide (sp = d)) as [->|Hne]; [by rewrite HG1|by rewrite HF].
    + by rewrite Hwd, HG1.
    + intros dm Hdm. by destruct (item_meta _ _ (rel, dm) Hdm).
Qed.

Lemma source_loop_deleted e d dry D xs acc w w' acc' :
  for_each (sync_source_file e d dry D) xs acc w = (w', Ok acc') →
  deleted_files acc'.1 = deleted_files acc.1.
Proof.
  revert acc w. induction xs as [|x xs IH]; intros acc w Hrun.
  - by injection Hrun as <- <-.
  - rewrite for_each_cons in Hrun.
    destruct (sync_source_file e d dry D acc x w) as [wm [accm|msg]] eqn:Hstep; [|done].
    pose proof (sync_source_file_deleted e d dry D acc x w accm) as Hd.
    rewrite Hstep in Hd. destruct (Hd eq_refl) as [Hd1 _].
    apply IH in Hrun. congruence.
Qed.

Lemma dry_view_id st : deleted_files st = [] → dry_view st = st.
Proof. destruct st. simpl. intros ->. done. Qed.

(** When the real run counts no error, the dry run from the same file
    system returns the same counts and the same lists, but for the deleted
    files, which it lists by their base names. *)
Lemma dry_run_agrees_with_clean_real_run e self d w w1 sr :
  sync_folder e self d false w = (w1, Ok sr) →
  errors sr = 0 →
  sync_folder e self d true w = (w, Ok (dry_view sr)).
Proof.
  intros Hrun Herr. rewrite sync_folder_eq in Hrun. rewrite orb_false_r in Hrun.
  rewrite sync_folder_eq, orb_true_r.
  assert (∃ wr, (∀ q, wget wr q = wget w q) ∧ is_Some (wr !! d)
                ∧ sync_loops e d false (walk (source_path self) w) (walk d w) wr
                  = (w1, Ok sr)) as (wr & Hwr & Hroot & Hloops).
  { case_bool_decide as Hex.
    - exists w. done.
    - destruct (fault e (OpMakedirs d)); [done|].
      exists (<[d := tree_of w d]> w). split_and!; [|by rewrite lookup_insert_eq|done].
      intros q. apply wget_ensure_root. }
  clear Hrun. rewrite sync_loops_eq in Hloops. rewrite sync_loops_eq.
  destruct (for_each _ (map_to_list (walk (source_path self) w)) _ wr)
    as [wm [[stm pr]|msg]] eqn:Hsrc; [|done]. simpl in Hloops.
  pose proof (dest_loop_errors _ _ _ _ _ _ _ _ Hloops) as Hle.
  pose proof (source_loop_deleted _ _ _ _ _ _ _ _ _ Hsrc) as Hdel. simpl in Hdel.
  rewrite (source_loop_agrees e (source_path self) d w w _ stats0 ∅ wr wm (stm, pr));
    try done.
  - simpl. rewrite <- (dry_view_id stm) at 1 by done.
    apply (dest_loop_agrees e pr _ stm wm w1 sr w); [done|lia].
  - by apply source_loop_good_init.
  - simpl. lia.
Qed.

(** C1 on the code. A dry run leaves the file system as it is
    ([sync_folder_dry_run_world]) and counts what a real run without error
    counts ([dry_run_agrees_with_clean_real_run]), but its statistics are
    not those of the real run: for an orphan of the replica the dry run
    lists the base name among the deleted files where the real run lists
    the relative path. *)
Theorem dry_run_lists_base_names :
  let dry := sync_folder quiet library "replica" true w_protected in
  let real := sync_folder quiet library "replica" false w_protected in
  dry.1 = w_protected
  ∧ ∃ sd sr, dry.2 = Ok sd ∧ real.2 = Ok sr
             ∧ errors sr = 0
             ∧ deleted sd = 1 ∧ deleted sr = 1
             ∧ deleted_files sd = ["b.epub"]
             ∧ deleted_files sr = ["old/b.epub"]
             ∧ sd ≠ sr.
Proof.
  simpl. split; [apply sync_folder_dry_run_world|].
  do 2 eexists. split_and!; try (vm_compute; reflexivity).
  vm_compute. discriminate.
Qed.

(** * Further properties of the code *)

Import Path Fs SyncService Notions Examples Trace Samples Layout.

(** ** What a run leaves alone *)

Lemma sync_source_file_root e d dry D acc it w r :
  r ≠ d → (sync_source_file e d dry D acc it w).1 !! r = w !! r.
Proof.
  intros Hr. destruct acc as [st pr], it as [rel sm].
  io_cases; unfold wput; simpl; by rewrite ?lookup_insert_ne by done.
Qed.

Lemma sync_dest_file_root e d dry pr st q dm w r :
  m_path dm = (d, q) → r ≠ d →
  (sync_dest_file e dry pr st (q, dm) w).1 !! r = w !! r.
Proof.
  intros Hp Hr. io_cases; try done.
  unfold wdel. rewrite Hp. simpl. destruct (w !! d); [|done].
  by rewrite lookup_insert_ne.
Qed.

Lemma sync_loops_root e d dry sp w0 w r :
  r ≠ d →
  (sync_loops e d dry (walk sp w0) (walk d w0) w).1 !! r = w !! r.
Proof.
  intros Hr. rewrite sync_loops_eq.
  destruct (for_each _ (map_to_list (walk sp w0)) _ w) as [w1 r1] eqn:Hfe1.
  apply (for_each_run _ (λ _ _ w', w' !! r = w !! r) (λ w', w' !! r = w !! r))
    in Hfe1; [| |done].
  2:{ intros x xs acc w' Hw.
      pose proof (sync_source_file_root e d dry (walk d w0) acc x w' r Hr) as Hs.
      destruct (sync_source_file e d dry (walk d w0) acc x w') as [w'' [acc'|msg]];
        simpl in *; congruence. }
  destruct r1 as [acc|msg]; [|done].
  destruct (for_each _ (map_to_list (walk d w0)) _ w1) as [w2 r2] eqn:Hfe2.
  apply (for_each_run _ (λ xs _ w', items_of d w0 xs ∧ w' !! r = w !! r)
           (λ w', w' !! r = w !! r)) in Hfe2.
  - simpl. destruct r2; [apply Hfe2|done].
  - intros [q dm] xs st w' [Hit Hw].
    apply items_of_cons in Hit as (Hx & _ & Hit).
    pose proof (item_meta _ _ (q, dm) Hx) as [_ Hpath]. simpl in Hpath.
    pose proof (sync_dest_file_root e d dry acc.2 st q dm w' r Hpath Hr) as Hs.
    destruct (sync_dest_file e dry acc.2 st (q, dm) w') as [w'' [st'|msg]];
      simpl in *; [split; [done|congruence]|congruence].
  - split; [apply items_of_walk|done].
Qed.

(** X2. A run of [sync_folder], dry or real, returning or raising, leaves
    every directory that lies apart from its destination exactly as it
    was: in particular the library, when the library and the destination
    lie apart. *)
Theorem sync_folder_other_roots e self d dry w r :
  apart r d = true → (sync_folder e self d dry w).1 !! r = w !! r.
Proof.
  intros Hr%apart_ne. rewrite sync_folder_eq.
  destruct (bool_decide (is_Some (w !! d)) || dry).
  - by apply sync_loops_root.
  - destruct (fault e (OpMakedirs d)); [done|].
    rewrite sync_loops_root by done. by rewrite lookup_insert_ne.
Qed.

Lemma sync_folder_other_roots_witness :
  (sync_folder quiet library "replica" false w_protected).1 !! "library"
  = w_protected !! "library".
Proof.
  apply (sync_folder_other_roots quiet library "replica" false w_protected "library").
  vm_compute. reflexivity.
Defined.

(** A path that neither catalog holds is left as it is. *)
Lemma sync_loops_uncatalogued e d dry sp w0 w p :
  walk sp w0 !! p = None → walk d w0 !! p = None →
  wget (sync_loops e d dry (walk sp w0) (walk d w0) w).1 (d, p) = wget w (d, p).
Proof.
  intros Hs Hd. rewrite sync_loops_eq.
  destruct (for_each _ (map_to_list (walk sp w0)) _ w) as [w1 r1] eqn:Hfe1.
  apply (for_each_run _
    (λ xs _ w', items_of sp w0 xs ∧ wget w' (d, p) = wget w (d, p))
    (λ w', wget w' (d, p) = wget w (d, p))) in Hfe1;
    [| |by split; [apply items_of_walk|]].
  2:{ intros x xs acc w' (Hit & Hw).
      apply items_of_cons in Hit as (Hx & _ & Hit).
      pose proof (item_meta _ _ _ Hx) as [Hrel _].
      assert ((d, p) ≠ (d, x.1)) as Hne by (intros [= ->]; congruence).
      pose proof (sync_source_file_frame e d dry (walk d w0) acc x.1 x.2 w' (d, p)
                    Hrel Hne) as Hfr.
      rewrite <- surjective_pairing in Hfr.
      destruct (sync_source_file e d dry (walk d w0) acc x w') as [w'' [acc'|msg]];
        simpl in *; [split; [done|congruence]|congruence]. }
  destruct r1 as [acc|msg]; [|done]. destruct Hfe1 as [_ Hw1].
  destruct (for_each _ (map_to_list (walk d w0)) _ w1) as [w2 r2] eqn:Hfe2.
  apply (for_each_run _
    (λ xs _ w', items_of d w0 xs ∧ wget w' (d, p) = wget w (d, p))
    (λ w', wget w' (d, p) = wget w (d, p))) in Hfe2.
  - simpl. destruct r2; [apply Hfe2|done].
  - intros [q dm] xs st w' [Hit Hw].
    apply items_of_cons in Hit as (Hx & _ & Hit).
    pose proof (item_meta _ _ (q, dm) Hx) as [_ Hpath]. simpl in Hpath, Hx.
    assert ((d, p) ≠ m_path dm) as Hne by (rewrite Hpath; intros [= ->]; congruence).
    pose proof (sync_dest_file_frame e dry acc.2 st q dm w' (d, p) Hne) as Hfr.
    destruct (sync_dest_file e dry acc.2 st (q, dm) w') as [w'' [st'|msg]];
      simpl in *; [split; [done|congruence]|congruence].
  - split; [apply items_of_walk|done].
Qed.

(** X3. A file whose name starts with a dot is in no catalog, and a run
    of [sync_folder], dry or real, leaves the file of the destination at
    such a path as it was: it is neither overwritten nor removed. *)
Theorem hidden_files_are_left_alone e self d dry w p :
  startswith_dot (basename p) = true →
  let r := sync_folder e self d dry w in
  wget r.1 (d, p) = wget w (d, p)
  ∧ walk (source_path self) w !! p = None
  ∧ walk d w !! p = None.
Proof.
  intros Hdot. simpl.
  assert (∀ root, walk root w !! p = None) as Hnone.
  { intros root. by rewrite walk_lookup, Hdot. }
  split; [|by split].
  rewrite sync_folder_eq.
  destruct (bool_decide (is_Some (w !! d)) || dry).
  - by apply sync_loops_uncatalogued.
  - destruct (fault e (OpMakedirs d)); [done|].
    rewrite sync_loops_uncatalogued by done. apply wget_ensure_root.
Qed.

Lemma hidden_files_are_left_alone_witness :
  let r := sync_folder quiet library "replica" false w_hidden in
  wget r.1 ("replica", "book/.DS_Store") = wget w_hidden ("replica", "book/.DS_Store")
  ∧ walk (source_path library) w_hidden !! "book/.DS_Store" = None
  ∧ walk "replica" w_hidden !! "book/.DS_Store" = None.
Proof.
  apply (hidden_files_are_left_alone quiet library "replica" false w_hidden
           "book/.DS_Store").
  reflexivity.
Defined.

(** ** The counters of a run *)

Lemma counts_match_notes st p :
  counts_match st →
  counts_match (note_added p st) ∧ counts_match (note_updated p st)
  ∧ counts_match (note_deleted p st) ∧ counts_match (note_unchanged st)
  ∧ counts_match (note_ignored p st) ∧ counts_match (note_error p st).
Proof.
  intros (Ha & Hu & Hd & Hi & He). unfold counts_match. simpl.
  rewrite !length_app. simpl. split_and!; lia.
Qed.

Lemma sync_source_file_counts e d dry D st pr it w acc' :
  (sync_source_file e d dry D (st, pr) it w).2 = Ok acc' →
  (counts_match st → counts_match acc'.1)
  ∧ classified acc'.1 + errors acc'.1 = S (classified st + errors st)
  ∧ deleted acc'.1 = deleted st
  ∧ (dry = true → errors acc'.1 = errors st).
Proof.
  destruct it as [rel sm], acc' as [st' pr']. intros H.
  assert (dry = true → errors st' = errors st) as Hdry.
  { intros ->. clear -H. by io_cases. }
  simpl.
  destruct (sync_source_file_stats _ _ _ _ _ _ _ _ _ _ H)
    as [[_ [= -> ->]]|(_ & _ & Hst)]; simpl in *;
    [|destruct Hst as [-> | [-> | [-> | ->]]]];
    (split; [intros Hc; apply (counts_match_notes st rel Hc)|]);
    unfold classified; simpl in *; split_and!; try exact Hdry; try done; lia.
Qed.

Lemma sync_dest_file_counts e dry pr st it w st' :
  (sync_dest_file e dry pr st it w).2 = Ok st' →
  (counts_match st → counts_match st')
  ∧ classified st' = classified st
  ∧ deleted st ≤ deleted st'
  ∧ errors st ≤ errors st'
  ∧ deleted st' + errors st' ≤ S (deleted st + errors st)
  ∧ (dry = true → errors st' = errors st).
Proof.
  destruct it as [q dm]. intros H.
  assert (dry = true → errors st' = errors st) as Hdry.
  { intros ->. clear -H. by io_cases. }
  destruct (sync_dest_file_stats _ _ _ _ _ _ _ _ H) as [-> | [[x ->] | [x ->]]];
    (split; [intros Hc; try done; apply (counts_match_notes st x Hc)|]);
    unfold classified; simpl in *; split_and!; try exact Hdry; try done; lia.
Qed.

(** The tally of the two loops. *)
Lemma sync_loops_tally e d dry S D w w1 st :
  sync_loops e d dry S D w = (w1, Ok st) →
  counts_match st
  ∧ classified st ≤ size S
  ∧ size S ≤ classified st + errors st
  ∧ classified st + deleted st + errors st ≤ size S + size D
  ∧ (dry = true → errors st = 0).
Proof.
  intros Hrun. rewrite sync_loops_eq in Hrun.
  destruct (for_each _ (map_to_list S) _ w) as [wm rm] eqn:Hfe1.
  apply (for_each_run _
    (λ xs acc _, counts_match acc.1
                 ∧ classified acc.1 + errors acc.1 + length xs = size S
                 ∧ deleted acc.1 = 0
                 ∧ (dry = true → errors acc.1 = 0))
    (λ _, True)) in Hfe1.
  3:{ split_and!; try done. simpl. apply length_map_to_list. }
  2:{ intros x xs [st0 pr] w' (Hc & Hn & Hd & He).
      pose proof (sync_source_file_counts e d dry D st0 pr x w') as Hs.
      destruct (sync_source_file e d dry D (st0, pr) x w') as [w'' [acc'|msg]];
        [|done].
      destruct (Hs _ eq_refl) as (Hc' & Hn' & Hd' & He'). simpl in *.
      split_and!; [by apply Hc'|lia|lia|]. intros Hdry. rewrite He' by done. auto. }
  destruct rm as [[stm pr]|msg]; [|done]. simpl in Hfe1, Hrun.
  destruct Hfe1 as (Hc & Hn & Hd & He).
  apply (for_each_run _
    (λ xs st' _, counts_match st'
                 ∧ classified st' = classified stm
                 ∧ errors stm ≤ errors st'
                 ∧ deleted st' + errors st' + length xs ≤ errors stm + size D
                 ∧ (dry = true → errors st' = 0))
    (λ _, True)) in Hrun.
  - destruct Hrun as (Hc' & Hn' & Hle & Hd' & He'). simpl in *.
    split_and!; [done|lia|lia|lia|done].
  - intros x xs st0 w' (Hc' & Hn' & Hle & Hd' & He').
    pose proof (sync_dest_file_counts e dry pr st0 x w') as Hs.
    destruct (sync_dest_file e dry pr st0 x w') as [w'' [st'|msg]]; [|done].
    destruct (Hs _ eq_refl) as (Hc2 & Hn2 & Hd2 & Hle2 & Hsum & He2). simpl in *.
    split_and!; [by apply Hc2|lia|lia|lia|].
    intros Hdry. rewrite He2 by done. auto.
  - split_and!; try done. rewrite length_map_to_list. lia.
Qed.

(** X4. In the statistics that [sync_folder] returns, each of the five
    counters that has a list is the length of its list. *)
Theorem counters_match_lists e self d dry w w1 st :
  sync_folder e self d dry w = (w1, Ok st) →
  added st = length (added_files st)
  ∧ updated st = length (updated_files st)
  ∧ deleted st = length (deleted_files st)
  ∧ ignored st = length (ignored_files st)
  ∧ errors st = length (error_files st).
Proof.
  intros Hrun. rewrite sync_folder_eq in Hrun.
  destruct (bool_decide (is_Some (w !! d)) || dry).
  - by apply sync_loops_tally in Hrun as [Hc _].
  - destruct (fault e (OpMakedirs d)); [done|].
    by apply sync_loops_tally in Hrun as [Hc _].
Qed.

Lemma counters_match_lists_witness :
  let st := stats_of (sync_folder quiet library "replica" false w_mixed).2 in
  added st = length (added_files st)
  ∧ updated st = length (updated_files st)
  ∧ deleted st = length (deleted_files st)
  ∧ ignored st = length (ignored_files st)
  ∧ errors st = length (error_files st).
Proof.
  apply (counters_match_lists quiet library "replica" false w_mixed
           (sync_folder quiet library "replica" false w_mixed).1).
  vm_compute. reflexivity.
Defined.

(** X5. Every file of the source catalog is counted once: the files
    counted as added, updated, unchanged or ignored are at most as many as
    the source files, and they are all of them but for those counted as
    errors; with the deletions and the errors the counters sum to no more
    than the sizes of the two catalogs. A dry run counts no error, so its
    four counters sum to the number of source files. *)
Theorem every_source_file_is_counted_once e self d dry w w1 st :
  sync_folder e self d dry w = (w1, Ok st) →
  let n := size (walk (source_path self) w) in
  let m := size (walk d w) in
  added st + updated st + unchanged st + ignored st ≤ n
  ∧ n ≤ added st + updated st + unchanged st + ignored st + errors st
  ∧ added st + updated st + unchanged st + ignored st + deleted st + errors st
    ≤ n + m
  ∧ (dry = true →
       errors st = 0
       ∧ added st + updated st + unchanged st + ignored st = n).
Proof.
  intros Hrun. simpl. rewrite sync_folder_eq in Hrun.
  assert (∃ w', sync_loops e d dry (walk (source_path self) w) (walk d w) w'
                = (w1, Ok st)) as [w' Hloops].
  { destruct (bool_decide (is_Some (w !! d)) || dry); [eauto|].
    destruct (fault e (OpMakedirs d)); [done|eauto]. }
  apply sync_loops_tally in Hloops as (_ & H1 & H2 & H3 & H4).
  unfold classified in *. split_and!; [done..|].
  intros Hdry. specialize (H4 Hdry). split; [done|lia].
Qed.

Lemma every_source_file_is_counted_once_witness :
  let st := stats_of (sync_folder quiet library "replica" true w_mixed).2 in
  let n := size (walk (source_path library) w_mixed) in
  let m := size (walk "replica" w_mixed) in
  added st + updated st + unchanged st + ignored st ≤ n
  ∧ n ≤ added st + updated st + unchanged st + ignored st + errors st
  ∧ added st + updated st + unchanged st + ignored st + deleted st + errors st
    ≤ n + m
  ∧ (true = true →
       errors st = 0
       ∧ added st + updated st + unchanged st + ignored st = n).
Proof.
  apply (every_source_file_is_counted_once quiet library "replica" true w_mixed
           (sync_folder quiet library "replica" true w_mixed).1).
  vm_compute. reflexivity.
Defined.

(** ** The result of a real run *)

(** The loops of a real run start from the file system [w], with the
    destination in place, or made. *)
Lemma sync_folder_real_loops e self d w w1 st :
  sync_folder e self d false w = (w1, Ok st) →
  ∃ wr, (∀ q, wget wr q = wget w q) ∧ is_Some (wr !! d)
        ∧ sync_loops e d false (walk (source_path self) w) (walk d w) wr
          = (w1, Ok st).
Proof.
  intros Hrun. rewrite sync_folder_eq in Hrun. rewrite orb_false_r in Hrun.
  case_bool_decide as Hex.
  - exists w. done.
  - destruct (fault e (OpMakedirs d)); [done|].
    exists (<[d := tree_of w d]> w). split_and!; [|by rewrite lookup_insert_eq|done].
    intros q. apply wget_ensure_root.
Qed.

(** The file of a catalog entry. *)
Lemma walk_file root w rel m :
  walk root w !! rel = Some m →
  startswith_dot (basename rel) = false
  ∧ ∃ f, wget w (root, rel) = Some f.
Proof. intros (f & Hf & _ & Hvis)%walk_lookup_Some. eauto. Qed.

(** X6. For a library and a destination that lie apart: when a real run
    returns with no error counted, the destination mirrors the source
    catalog. The destination exists; every file of the source catalog that
    is not ignored has a copy at the same relative path, which has its
    size and a modification time that the comparison takes for the same,
    or else its digest; every file of the destination catalog that is
    still there is such a copy or has a protected name; and a file that
    was not in the destination and now is stands at the path of a file of
    the source catalog that is not ignored. *)
Theorem clean_real_run_mirrors e self d w w1 st :
  apart (source_path self) d = true →
  sync_folder e self d false w = (w1, Ok st) →
  errors st = 0 →
  let sp := source_path self in
  is_Some (w1 !! d)
  ∧ (∀ rel sm, walk sp w !! rel = Some sm →
       is_ignored (basename rel) = false →
       ∃ fs fd, wget w (sp, rel) = Some fs ∧ wget w1 (d, rel) = Some fd
                ∧ settled_files e sp d rel fs fd)
  ∧ (∀ q dm, walk d w !! q = Some dm → is_Some (wget w1 (d, q)) →
       (is_Some (walk sp w !! q) ∧ is_ignored (basename q) = false)
       ∨ is_protected (basename q) = true)
  ∧ (∀ q, wget w (d, q) = None → is_Some (wget w1 (d, q)) →
       is_Some (walk sp w !! q) ∧ is_ignored (basename q) = false).
Proof.
  intros Hne%apart_ne Hrun Herr. simpl. set (sp := source_path self) in *.
  apply sync_folder_real_loops in Hrun as (wr & Hwr & Hroot & Hloops). fold sp in Hloops.
  pose proof (sync_loops_real_settles e sp d w wr w1 st Hwr Hroot Hloops Herr)
    as (Hd & Hsrc & Hdst).
  assert (∀ rel, wget w1 (sp, rel) = wget w (sp, rel)) as Hkept.
  { intros rel. pose proof (sync_loops_root e d false sp w wr sp Hne) as Hr.
    rewrite Hloops in Hr. simpl in Hr. rewrite <- Hwr.
    unfold wget, tree_of. simpl. by rewrite Hr. }
  split_and!; [done|..].
  - intros rel sm (Hvis & fs & Hfs)%walk_file Hign.
    destruct (Hsrc rel fs) as (fd & Hfd & Hset); [by rewrite Hkept|done..|].
    by exists fs, fd.
  - intros q dm (Hvis & _)%walk_file [fd Hfd].
    destruct (Hdst q fd Hfd Hvis) as [[[fs Hfs] Hign]|Hprot]; [left|by right].
    split; [|done]. rewrite Hkept in Hfs. by rewrite walk_lookup, Hvis, Hfs.
  - intros q Hnone [fd Hfd].
    destruct (walk sp w !! q) as [sm|] eqn:Hs.
    + split; [done|]. destruct (is_ignored (basename q)) eqn:Hign; [|done].
      destruct (sync_loops_ignored e d false sp w wr q sm Hs Hign) as [Hw _].
      rewrite Hloops in Hw. simpl in Hw. rewrite (Hw Hnone), Hwr in Hfd. congruence.
    + pose proof (sync_loops_uncatalogued e d false sp w wr q Hs) as Hun.
      rewrite Hloops in Hun. simpl in Hun. rewrite Hun, Hwr in Hfd; [congruence|].
      rewrite walk_lookup, Hnone. by destruct (startswith_dot _).
Qed.

Lemma clean_real_run_mirrors_witness :
  let w1 := (sync_folder quiet library "replica" false w_mixed).1 in
  let sp := source_path library in
  is_Some (w1 !! "replica")
  ∧ (∀ rel sm, walk sp w_mixed !! rel = Some sm →
       is_ignored (basename rel) = false →
       ∃ fs fd, wget w_mixed (sp, rel) = Some fs ∧ wget w1 ("replica", rel) = Some fd
                ∧ settled_files quiet sp "replica" rel fs fd)
  ∧ (∀ q dm, walk "replica" w_mixed !! q = Some dm →
       is_Some (wget w1 ("replica", q)) →
       (is_Some (walk sp w_mixed !! q) ∧ is_ignored (basename q) = false)
       ∨ is_protected (basename q) = true)
  ∧ (∀ q, wget w_mixed ("replica", q) = None → is_Some (wget w1 ("replica", q)) →
       is_Some (walk sp w_mixed !! q) ∧ is_ignored (basename q) = false).
Proof.
  apply (clean_real_run_mirrors quiet library "replica" w_mixed _
           (stats_of (sync_folder quiet library "replica" false w_mixed).2)).
  - vm_compute. reflexivity.
  - vm_compute. reflexivity.
  - vm_compute. reflexivity.
Defined.

(** ** What the lists of a real run say *)

(** An item of the source loop of a real run lists its path as added or
    updated only when the copy is in place. *)
Lemma sync_source_file_copied e d D st pr rel sm w w' acc' :
  m_relative_path sm = rel →
  sync_source_file e d false D (st, pr) (rel, sm) w = (w', Ok acc') →
  (added_files acc'.1 = added_files st ∧ updated_files acc'.1 = updated_files st)
  ∨ (added_files acc'.1 = added_files st ++ [rel]
     ∧ updated_files acc'.1 = updated_files st
     ∧ D !! rel = None
     ∧ ∃ f, wget w (m_path sm) = Some f ∧ wget w' (d, rel) = Some f)
  ∨ (added_files acc'.1 = added_files st
     ∧ updated_files acc'.1 = updated_files st ++ [rel]
     ∧ ∃ dm f fd, D !! rel = Some dm
                  ∧ wget w (m_path sm) = Some f ∧ wget w (m_path dm) = Some fd
                  ∧ md5 e (f_data f) ≠ md5 e (f_data fd)
                  ∧ wget w' (d, rel) = Some f).
Proof.
  intros Hrel Hrun. destruct sm as [sp0 sz mt rel0]. simpl in Hrel. subst rel0.
  io_cases; auto;
    repeat match goal with
           | H : negb (String.eqb _ _) = true |- _ =>
               apply negb_true_iff, String.eqb_neq in H
           end;
    right; first
      [ left; split_and!; [done..|];
        eexists; rewrite ?wget_wput, ?decide_True by done;
        rewrite ?wget_ensure_root in *; by eauto
      | right; split_and!; [done..|];
        do 3 eexists; rewrite ?wget_wput, ?decide_True by done;
        rewrite ?wget_ensure_root in *; split_and!; by eauto ].
Qed.

Lemma sync_dest_file_lists e dry pr st it w st' :
  (sync_dest_file e dry pr st it w).2 = Ok st' →
  added_files st' = added_files st ∧ updated_files st' = updated_files st.
Proof. destruct it. intros H. by io_cases. Qed.

(** An item of the destination loop of a real run lists its path as
    deleted only when the file is gone. *)
Lemma sync_dest_file_removed e pr st q dm w w' st' :
  sync_dest_file e false pr st (q, dm) w = (w', Ok st') →
  deleted_files st' = deleted_files st
  ∨ (deleted_files st' = deleted_files st ++ [q]
     ∧ (q ∉ pr) ∧ is_protected (basename q) = false
     ∧ is_Some (wget w (m_path dm)) ∧ wget w' (m_path dm) = None).
Proof.
  intros Hrun. unfold sync_dest_file in Hrun.
  case_bool_decide as Hpr; [injection Hrun as <- <-; by left|].
  destruct (is_protected (basename q)) eqn:Hprot; [injection Hrun as <- <-; by left|].
  simpl in Hrun. rewrite bind_eq in Hrun. unfold try_, os_remove in Hrun.
  destruct (wget w (m_path dm)) eqn:Hq; [|injection Hrun as <- <-; by left].
  destruct (fault e (OpRemove (m_path dm))); injection Hrun as <- <-; [by left|].
  right. split_and!; [done..|eauto|]. rewrite wget_wdel. by rewrite decide_True.
Qed.

Lemma source_loop_trace_step e sp d w0 x xs acc w w' acc' :
  source_loop_trace e sp d w0 (x :: xs) acc w →
  sync_source_file e d false (walk d w0) acc x w = (w', Ok acc') →
  source_loop_trace e sp d w0 xs acc' w'.
Proof.
  intros (Hit & HF & HG1 & HG5 & HG4 & HA & HU & HD) Hrun.
  destruct x as [rel sm], acc as [st pr].
  apply items_of_cons in Hit as (Hx & Hnin & Hit). simpl in Hx, Hnin.
  pose proof (item_meta _ _ (rel, sm) Hx) as [Hrel Hpath]. simpl in Hrel, Hpath.
  pose proof Hx as (fs0 & _ & _ & Hvis)%walk_lookup_Some.
  assert (rel ∉ pr) as Hnpr.
  { intros Hin. destruct (HG5 rel Hin) as [Hno _]. apply Hno. by left. }
  assert (∀ q, q ≠ (d, rel) → wget w' q = wget w q) as Hframe.
  { intros q Hq.
    pose proof (sync_source_file_frame e d false (walk d w0) (st, pr) rel sm w q
                  Hrel Hq) as Hfr.
    by rewrite Hrun in Hfr. }
  pose proof (sync_source_file_stats e d false (walk d w0) st pr rel sm w acc') as Hst.
  pose proof (sync_source_file_deleted e d false (walk d w0) (st, pr) (rel, sm) w acc')
    as Hdel.
  pose proof (sync_source_file_copied e d (walk d w0) st pr rel sm w w' acc' Hrel Hrun)
    as Hcp.
  rewrite Hrun in Hst, Hdel. specialize (Hst eq_refl).
  destruct (Hdel eq_refl) as [Hdel' _]. simpl in *.
  assert (wget w (sp, rel) = wget w0 (sp, rel)) as Hsrc.
  { destruct (decide (sp = d)) as [->|Hne]; [by apply HG1|by apply HF]. }
  destruct Hst as [[Hign ->]|(Hign & Hpr' & _)].
  - (* ignored *)
    rewrite sync_source_file_ignored in Hrun by done.
    injection Hrun as <-. simpl in *.
    split_and!; try done.
    + intros r Hr. destruct (HG5 r Hr) as (Hno & ? & ?). split_and!; [|done..].
      intros Hin. apply Hno. by right.
    + intros r Hr Hnr. destruct (HG4 r Hr Hnr) as [Hin|Hin]; [|by right].
      apply elem_of_cons in Hin as [->|Hin]; [congruence|by left].
  - assert (∀ r, r ∈ pr → wget w' (d, r) = wget w (d, r)) as Hold.
    { intros r Hr. apply Hframe. intros [= ->]. done. }
    unfold source_loop_trace. rewrite Hpr'. simpl. split_and!.
    + done.
    + intros r r' Hr. rewrite Hframe by congruence. by apply HF.
    + intros q [Hq1%not_elem_of_singleton Hq2]%not_elem_of_union.
      rewrite Hframe by congruence. by apply HG1.
    + intros r [->%elem_of_singleton|Hr]%elem_of_union.
      * split_and!; [done|by rewrite Hx|done].
      * destruct (HG5 r Hr) as (Hno & ? & ?). split_and!; [|done..].
        intros Hin. apply Hno. by right.
    + intros r Hr Hnr. destruct (HG4 r Hr Hnr) as [Hin|Hin].
      * apply elem_of_cons in Hin as [->|Hin]; [right; in_union|by left].
      * right. in_union.
    + intros r Hr.
      assert (r ∈ added_files st
              ∨ (r = rel ∧ walk d w0 !! rel = None
                 ∧ ∃ f, wget w (m_path sm) = Some f ∧ wget w' (d, rel) = Some f))
        as [Hin|(-> & Hnone & f & Hf1 & Hf2)].
      { destruct Hcp as [[Ha _]|[(Ha & _ & Hn & Hf)|(Ha & _)]]; rewrite Ha in Hr;
          [by left| |by left].
        apply elem_of_app in Hr as [Hr| ->%list_elem_of_singleton]; [by left|].
        right. done. }
      * destruct (HA r Hin) as (Hpr & Hn & f & Hf1 & Hf2).
        split_and!; [in_union|done|]. exists f. by rewrite Hold.
      * split_and!; [in_union| |].
        -- rewrite walk_lookup, Hvis in Hnone.
           by destruct (wget w0 (d, rel)).
        -- exists f. split; [|done]. rewrite Hpath in Hf1. congruence.
    + intros r Hr.
      assert (r ∈ updated_files st
              ∨ (r = rel ∧ ∃ dm f fd, walk d w0 !! rel = Some dm
                 ∧ wget w (m_path sm) = Some f ∧ wget w (m_path dm) = Some fd
                 ∧ md5 e (f_data f) ≠ md5 e (f_data fd)
                 ∧ wget w' (d, rel) = Some f))
        as [Hin|(-> & dm & f & fd & Hdm & Hf1 & Hfd & Hmd & Hf2)].
      { destruct Hcp as [[_ Hu]|[(_ & Hu & _)|(_ & Hu & Hf)]]; rewrite Hu in Hr;
          [by left|by left|].
        apply elem_of_app in Hr as [Hr| ->%list_elem_of_singleton]; [by left|].
        right. done. }
      * destruct (HU r Hin) as (Hpr & f & fd & Hf1 & Hfd & Hmd & Hf2).
        split; [in_union|]. exists f, fd. by rewrite Hold.
      * split; [in_union|]. exists f, fd.
        pose proof (item_meta _ _ (rel, dm) Hdm) as [_ Hdpath]. simpl in Hdpath.
        rewrite Hpath in Hf1. rewrite Hdpath, HG1 in Hfd by done.
        split_and!; [congruence|done..].
    + congruence.
Qed.

Lemma source_loop_trace_init e sp d w0 w :
  (∀ q, wget w q = wget w0 q) →
  source_loop_trace e sp d w0 (map_to_list (walk sp w0)) (stats0, ∅) w.
Proof.
  intros Hw. split_and!; [apply items_of_walk|done|done| | | | |done].
  - intros rel Hrel. by apply elem_of_empty in Hrel.
  - intros rel [m Hm] _. left. apply list_elem_of_fmap. exists (rel, m).
    split; [done|]. by apply elem_of_map_to_list.
  - intros rel Hrel. by apply elem_of_nil in Hrel.
  - intros rel Hrel. by apply elem_of_nil in Hrel.
Qed.

Lemma dest_loop_trace_step e d w0 wm stm pr x xs st w w' st' :
  dest_loop_trace d w0 wm stm pr (x :: xs) st w →
  sync_dest_file e false pr st x w = (w', Ok st') →
  dest_loop_trace d w0 wm stm pr xs st' w'.
Proof.
  intros (Hit & Hkeep & Ha & Hu & Hdel) Hrun. destruct x as [q dm].
  apply items_of_cons in Hit as (Hx & Hnin & Hit). simpl in Hx, Hnin.
  pose proof (item_meta _ _ (q, dm) Hx) as [_ Hpath]. simpl in Hpath.
  pose proof (sync_dest_file_lists e false pr st (q, dm) w st') as Hl.
  pose proof (sync_dest_file_removed e pr st q dm w w' st' Hrun) as Hrm.
  assert (∀ p, p ≠ (d, q) → wget w' p = wget w p) as Hframe.
  { intros p Hp. pose proof (sync_dest_file_frame e false pr st q dm w p) as Hfr.
    rewrite Hrun, Hpath in Hfr. by apply Hfr. }
  rewrite Hrun in Hl. destruct (Hl eq_refl) as [Hl1 Hl2].
  destruct Hrm as [Hsame|(Hnew & Hnpr & Hprot & _ & Hgone)].
  - destruct (decide (q ∈ pr)) as [Hpr|Hnpr].
    + rewrite sync_dest_file_processed in Hrun by done. injection Hrun as <- <-.
      by split_and!.
    + split_and!; [done| |congruence|congruence|].
      * intros rel Hrel. rewrite Hframe; [by apply Hkeep|]. intros [= ->]. done.
      * intros p Hp. rewrite Hsame in Hp.
        destruct (Hdel p Hp) as (? & ? & ? & Hnone). split_and!; [done..|].
        destruct (decide (p = q)) as [->|Hne].
        -- clear -Hrun Hnone Hpath. unfold sync_dest_file in Hrun.
           destruct (bool_decide _); [by injection Hrun as <- <-|].
           destruct (is_protected _); [by injection Hrun as <- <-|].
           simpl in Hrun. rewrite bind_eq in Hrun. unfold try_, os_remove in Hrun.
           rewrite Hpath, Hnone in Hrun. by injection Hrun as <- <-.
        -- rewrite Hframe; [done|]. intros [= ->]. done.
  - split_and!; [done| |congruence|congruence|].
    + intros rel Hrel. rewrite Hframe; [by apply Hkeep|]. intros [= ->]. done.
    + intros p Hp. rewrite Hnew in Hp.
      apply elem_of_app in Hp as [Hp| ->%list_elem_of_singleton].
      * destruct (Hdel p Hp) as (? & ? & ? & Hnone). split_and!; [done..|].
        destruct (decide (p = q)) as [->|Hne]; [by rewrite <- Hpath|].
        rewrite Hframe; [done|]. intros [= ->]. done.
      * split_and!; [done|done|by rewrite Hx|by rewrite <- Hpath].
Qed.

(** The two loops of any real run. *)
Lemma sync_loops_trace e sp d w0 w w1 st :
  (∀ q, wget w q = wget w0 q) →
  sync_loops e d false (walk sp w0) (walk d w0) w = (w1, Ok st) →
  (∀ rel, rel ∈ added_files st →
     wget w0 (d, rel) = None
     ∧ ∃ f, wget w0 (sp, rel) = Some f ∧ wget w1 (d, rel) = Some f)
  ∧ (∀ rel, rel ∈ updated_files st →
     ∃ f fd, wget w0 (sp, rel) = Some f ∧ wget w0 (d, rel) = Some fd
             ∧ md5 e (f_data f) ≠ md5 e (f_data fd)
             ∧ wget w1 (d, rel) = Some f)
  ∧ (∀ q, q ∈ deleted_files st →
       wget w1 (d, q) = None ∧ is_Some (wget w0 (d, q))
       ∧ is_protected (basename q) = false
       ∧ (wget w0 (sp, q) = None ∨ is_ignored (basename q) = true)).
Proof.
  intros Hw Hrun. rewrite sync_loops_eq in Hrun.
  destruct (for_each _ (map_to_list (walk sp w0)) _ w) as [wm rm] eqn:Hfe1.
  apply (for_each_run _ (source_loop_trace e sp d w0) (λ _, True)) in Hfe1;
    [| |by apply source_loop_trace_init].
  2:{ intros x xs acc wc HP.
      destruct (sync_source_file e d false (walk d w0) acc x wc)
        as [w' [acc'|msg]] eqn:Hstep; [|done].
      by eapply source_loop_trace_step. }
  destruct rm as [[stm pr]|msg]; [|done]. simpl in Hrun.
  destruct Hfe1 as (_ & HF & HG1 & HG5 & HG4 & HA & HU & HD). simpl in *.
  apply (for_each_run _ (dest_loop_trace d w0 wm stm pr) (λ _, True)) in Hrun.
  - destruct Hrun as (_ & Hkeep & Ha & Hu & Hdel). split_and!.
    + intros rel Hrel. rewrite Ha in Hrel.
      destruct (HA rel Hrel) as (Hpr & Hn & f & Hf1 & Hf2).
      split; [done|]. exists f. by rewrite Hkeep.
    + intros rel Hrel. rewrite Hu in Hrel.
      destruct (HU rel Hrel) as (Hpr & f & fd & Hf1 & Hfd & Hmd & Hf2).
      exists f, fd. by rewrite Hkeep.
    + intros q Hq. destruct (Hdel q Hq) as (Hnpr & Hprot & [dm Hdm] & Hgone).
      pose proof Hdm as (fd & Hfd & _ & Hvis)%walk_lookup_Some.
      split_and!; [done|eauto|done|].
      destruct (is_ignored (basename q)) eqn:Hign; [by right|left].
      destruct (wget w0 (sp, q)) as [fs|] eqn:Hfs; [|done].
      destruct (HG4 q) as [Hin|Hin]; [|done|by apply elem_of_nil in Hin|done].
      rewrite walk_lookup, Hvis, Hfs. simpl. eauto.
  - intros x xs st0 wc HP.
    destruct (sync_dest_file e false pr st0 x wc) as [w' [st'|msg]] eqn:Hstep; [|done].
    by eapply dest_loop_trace_step.
  - split_and!; [apply items_of_walk|done|done|done|].
    intros q Hq. rewrite HD in Hq. by apply elem_of_nil in Hq.
Qed.

(** X7. For a library and a destination that lie apart, what a real run
    lists as added or updated is in place when it returns, whatever errors
    it met elsewhere: a path listed as added was not in the destination
    catalog and now holds the file of the source, bytes and modification
    time; a path listed as updated held a file of another digest and now
    holds the file of the source. *)
Theorem listed_copies_are_in_place e self d w w1 st :
  apart (source_path self) d = true →
  sync_folder e self d false w = (w1, Ok st) →
  let sp := source_path self in
  (∀ rel, rel ∈ added_files st →
     walk d w !! rel = None
     ∧ ∃ f, wget w (sp, rel) = Some f ∧ wget w1 (d, rel) = Some f)
  ∧ (∀ rel, rel ∈ updated_files st →
     ∃ f fd, wget w (sp, rel) = Some f ∧ wget w (d, rel) = Some fd
             ∧ md5 e (f_data f) ≠ md5 e (f_data fd)
             ∧ wget w1 (d, rel) = Some f).
Proof.
  intros _ Hrun. simpl.
  apply sync_folder_real_loops in Hrun as (wr & Hwr & _ & Hloops).
  apply (sync_loops_trace e (source_path self) d w wr w1 st Hwr) in Hloops
    as (Hadd & Hupd & _).
  split; [|exact Hupd].
  intros rel Hrel. destruct (Hadd rel Hrel) as (Hnone & Hf).
  split; [|done]. rewrite walk_lookup, Hnone. by destruct (startswith_dot _).
Qed.

Lemma listed_copies_are_in_place_witness :
  let r := sync_folder quiet library "replica" false w_mixed in
  let st := stats_of r.2 in
  let sp := source_path library in
  (∀ rel, rel ∈ added_files st →
     walk "replica" w_mixed !! rel = None
     ∧ ∃ f, wget w_mixed (sp, rel) = Some f ∧ wget r.1 ("replica", rel) = Some f)
  ∧ (∀ rel, rel ∈ updated_files st →
     ∃ f fd, wget w_mixed (sp, rel) = Some f ∧ wget w_mixed ("replica", rel) = Some fd
             ∧ md5 quiet (f_data f) ≠ md5 quiet (f_data fd)
             ∧ wget r.1 ("replica", rel) = Some f).
Proof.
  apply (listed_copies_are_in_place quiet library "replica" w_mixed).
  - vm_compute. reflexivity.
  - vm_compute. reflexivity.
Defined.

(** X8. What a real run lists as deleted is an orphan that is gone: the
    destination held a file at that path and holds none when the run
    returns, the name is not protected, and the source catalog has no file
    at that path or has one that is ignored. *)
Theorem listed_deletions_are_orphans e self d w w1 st :
  sync_folder e self d false w = (w1, Ok st) →
  ∀ q, q ∈ deleted_files st →
    wget w1 (d, q) = None
    ∧ is_Some (wget w (d, q))
    ∧ is_protected (basename q) = false
    ∧ (walk (source_path self) w !! q = None ∨ is_ignored (basename q) = true).
Proof.
  intros Hrun q Hq.
  apply sync_folder_real_loops in Hrun as (wr & Hwr & _ & Hloops).
  apply (sync_loops_trace e (source_path self) d w wr w1 st Hwr) in Hloops
    as (_ & _ & Hdel).
  destruct (Hdel q Hq) as (Hgone & Hwas & Hprot & [Hnone|Hign]);
    (split_and!; [done..|]); [left|by right].
  rewrite walk_lookup, Hnone. by destruct (startswith_dot _).
Qed.

Lemma listed_deletions_are_orphans_witness :
  let r := sync_folder quiet library "replica" false w_mixed in
  wget r.1 ("replica", "old/b.epub") = None
  ∧ is_Some (wget w_mixed ("replica", "old/b.epub"))
  ∧ is_protected (basename "old/b.epub") = false
  ∧ (walk (source_path library) w_mixed !! "old/b.epub" = None
     ∨ is_ignored (basename "old/b.epub") = true).
Proof.
  apply (listed_deletions_are_orphans quiet library "replica" w_mixed
           (sync_folder quiet library "replica" false w_mixed).1
           (stats_of (sync_folder quiet library "replica" false w_mixed).2)).
  - vm_compute. reflexivity.
  - vm_compute. left.
Defined.

(** *** Where no operation fails *)

Lemma expected_copy_same e f : expected_copy e f (Some f) = f.
Proof.
  unfold expected_copy.
  destruct (negb (f_size f =? f_size f) || mtime_differs (f_mtime f) (f_mtime f));
    [|done].
  by destruct (String.eqb _ _).
Qed.

Lemma sync_source_file_outcome e sp d D st pr rel fs w :
  no_fault e →
  is_ignored (basename rel) = false →
  wget w (sp, rel) = Some fs →
  D !! rel = (λ f, Meta (d, rel) (f_size f) (f_mtime f) rel) <$> wget w (d, rel) →
  ∃ w' acc',
    sync_source_file e d false D (st, pr)
      (rel, Meta (sp, rel) (f_size fs) (f_mtime fs) rel) w = (w', Ok acc')
    ∧ errors acc'.1 = errors st
    ∧ wget w' (d, rel) = Some (expected_copy e fs (wget w (d, rel))).
Proof.
  intros Hnf Hign Hfs HD.
  unfold sync_source_file. simpl. rewrite Hign.
  unfold sync_regular_file. rewrite bind_eq.
  unfold get_destination_path. rewrite bind_eq. simpl.
  unfold os_makedirs_for at 1. simpl.
  destruct (wget w (d, rel)) as [fd|] eqn:Hfd; simpl in HD.
  - rewrite HD. simpl.
    destruct (negb (f_size fs =? f_size fd) || mtime_differs (f_mtime fs) (f_mtime fd))
      eqn:Htest.
    2:{ by eexists _, _. }
    rewrite bind_eq, calculate_file_hash_eq, Hfs, Hnf.
    rewrite bind_eq, calculate_file_hash_eq, Hfd, Hnf.
    destruct (String.eqb (md5 e (f_data fs)) (md5 e (f_data fd))) eqn:Hmd; simpl.
    { by eexists _, _. }
    rewrite bind_eq. unfold try_, shutil_copy2. rewrite Hfs.
    assert ((sp, rel) ≠ (d, rel)) as Hne.
    { intros [= ->]. rewrite Hfs in Hfd. injection Hfd as ->.
      by rewrite Nat.eqb_refl, mtime_differs_same in Htest. }
    rewrite bool_decide_eq_false_2 by done. rewrite Hnf.
    eexists _, _. split_and!; [done..|].
    rewrite wget_wput. by rewrite decide_True.
  - rewrite Hnf. rewrite HD. simpl.
    rewrite bind_eq. unfold try_. rewrite bind_eq.
    unfold os_makedirs_for. rewrite wget_ensure_root, Hfd, Hnf. simpl.
    unfold shutil_copy2. rewrite !wget_ensure_root, Hfs.
    assert ((sp, rel) ≠ (d, rel)) as Hne by (intros [= ->]; congruence).
    rewrite bool_decide_eq_false_2 by done. rewrite Hnf.
    eexists _, _. split_and!; [done..|].
    rewrite wget_wput. by rewrite decide_True.
Qed.

Lemma sync_dest_file_no_fault e d pr st q dm w :
  no_fault e → m_path dm = (d, q) →
  (q ∉ pr → is_Some (wget w (d, q))) →
  ∃ w' st', sync_dest_file e false pr st (q, dm) w = (w', Ok st')
            ∧ errors st' = errors st.
Proof.
  intros Hnf Hpath Hthere. unfold sync_dest_file.
  case_bool_decide as Hpr; [by eexists _, _|].
  destruct (is_protected (basename q)); [by eexists _, _|].
  simpl. rewrite bind_eq. unfold try_, os_remove. rewrite Hpath.
  destruct (Hthere Hpr) as [fd ->]. rewrite Hnf. by eexists _, _.
Qed.

Lemma sync_loops_faultless e sp d w0 w :
  no_fault e →
  (∀ q, wget w q = wget w0 q) → is_Some (w !! d) →
  ∃ w1 st, sync_loops e d false (walk sp w0) (walk d w0) w = (w1, Ok st)
           ∧ errors st = 0.
Proof.
  intros Hnf Hw Hroot. rewrite sync_loops_eq.
  destruct (for_each _ (map_to_list (walk sp w0)) _ w) as [wm rm] eqn:Hfe1.
  apply (for_each_run _
    (λ xs acc wc, errors acc.1 = 0 ∧ source_loop_good e sp d w0 xs acc wc)
    (λ _, False)) in Hfe1.
  3:{ split; [done|]. by apply source_loop_good_init. }
  2:{ intros [rel sm] xs [st pr] wc [Hz Hgood].
      pose proof Hgood as (Hit & _ & HF & HG1 & _ & _ & HG5). simpl in *.
      apply items_of_cons in Hit as (Hx & _ & _). simpl in Hx.
      pose proof Hx as (fs & Hfs & -> & Hvis)%walk_lookup_Some.
      assert (rel ∉ pr) as Hnpr.
      { intros Hin. apply (HG5 rel Hin). by left. }
      destruct (is_ignored (basename rel)) eqn:Hign.
      { rewrite sync_source_file_ignored by done. split; [done|].
        eapply source_loop_good_step;
          [exact Hgood|by apply sync_source_file_ignored|done]. }
      destruct (sync_source_file_outcome e sp d (walk d w0) st pr rel fs wc)
        as (w' & acc' & Hstep & Herr & _); try done.
      { destruct (decide (sp = d)) as [->|Hne]; [by rewrite HG1|by rewrite HF]. }
      { by rewrite walk_lookup, Hvis, HG1. }
      rewrite Hstep. split; [lia|].
      eapply source_loop_good_step; [exact Hgood|exact Hstep|done]. }
  destruct rm as [[stm pr]|msg]; [|done]. simpl in *.
  destruct Hfe1 as (Hz & Hgood).
  destruct (for_each _ (map_to_list (walk d w0)) _ wm) as [w1 r1] eqn:Hfe2.
  apply (for_each_run _
    (λ xs st wc, errors st = 0 ∧ dest_loop_good e sp d w0 pr xs wc
                 ∧ ∀ q, q ∈ xs.*1 → q ∉ pr → wget wc (d, q) = wget w0 (d, q))
    (λ _, False)) in Hfe2.
  - destruct r1 as [st|msg]; [|done]. exists w1, st. split; [done|apply Hfe2].
  - intros [q dm] xs st wc (Hz' & Hgood' & Hkeep).
    pose proof Hgood' as (Hit & _).
    apply items_of_cons in Hit as (Hx & Hnin & _). simpl in Hx, Hnin.
    pose proof (item_meta _ _ (q, dm) Hx) as [_ Hpath]. simpl in Hpath.
    pose proof Hx as (fd & Hfd & _ & _)%walk_lookup_Some.
    destruct (sync_dest_file_no_fault e d pr st q dm wc Hnf Hpath)
      as (w' & st' & Hstep & Herr).
    { intros Hnpr. rewrite Hkeep; [eauto|by left|done]. }
    pose proof (sync_dest_file_frame e false pr st q dm wc) as Hfr.
    rewrite Hstep in Hfr |- *. simpl in Hfr.
    split_and!; [lia| |].
    + eapply dest_loop_good_step; [exact Hgood'|exact Hstep|done].
    + intros q' Hq' Hnpr. rewrite Hfr; [apply Hkeep; [by right|done]|].
      rewrite Hpath. intros [= ->]. done.
  - destruct Hgood as (_ & Hr & HF & HG1 & HG3 & HG4 & _). simpl in *.
    split_and!; [done| |by intros; apply HG1].
    split_and!; [apply items_of_walk|done|done|done| |].
    + intros q Hq. left. by apply HG1.
    + intros q [m Hm] _ _. left. apply list_elem_of_fmap. exists (q, m).
      split; [done|]. by apply elem_of_map_to_list.
Qed.

(** The copy of a source file that is not ignored, after the two loops. *)
Lemma sync_loops_copy e sp d w0 w w1 st p fs :
  no_fault e →
  (∀ q, wget w q = wget w0 q) →
  wget w0 (sp, p) = Some fs →
  startswith_dot (basename p) = false →
  is_ignored (basename p) = false →
  sync_loops e d false (walk sp w0) (walk d w0) w = (w1, Ok st) →
  wget w1 (d, p) = Some (expected_copy e fs (wget w0 (d, p))).
Proof.
  intros Hnf Hw Hfs Hvis Hign Hrun. rewrite sync_loops_eq in Hrun.
  destruct (for_each _ (map_to_list (walk sp w0)) _ w) as [wm rm] eqn:Hfe1.
  apply (for_each_run _
    (λ xs acc wc, source_loop_trace e sp d w0 xs acc wc
                  ∧ (p ∈ xs.*1
                     ∨ (p ∈ acc.2
                        ∧ wget wc (d, p) = Some (expected_copy e fs (wget w0 (d, p))))))
    (λ _, True)) in Hfe1.
  3:{ split; [by apply source_loop_trace_init|]. left.
      apply list_elem_of_fmap.
      exists (p, Meta (sp, p) (f_size fs) (f_mtime fs) p). split; [done|].
      apply elem_of_map_to_list. by rewrite walk_lookup, Hvis, Hfs. }
  2:{ intros [rel sm] xs [st0 pr] wc [Htr Hp].
      destruct (sync_source_file e d false (walk d w0) (st0, pr) (rel, sm) wc)
        as [w' [acc'|msg]] eqn:Hstep; [|done].
      split; [by eapply source_loop_trace_step|].
      destruct Htr as (Hit & HF & HG1 & HG5 & _). simpl in *.
      apply items_of_cons in Hit as (Hx & Hnin & _). simpl in Hx, Hnin.
      pose proof (item_meta _ _ (rel, sm) Hx) as [Hrel _]. simpl in Hrel.
      assert (rel ∉ pr) as Hnpr.
      { intros Hin. destruct (HG5 rel Hin) as [Hno _]. apply Hno. by left. }
      pose proof (sync_source_file_stats e d false (walk d w0) st0 pr rel sm wc acc')
        as Hst.
      rewrite Hstep in Hst. specialize (Hst eq_refl).
      destruct (decide (rel = p)) as [->|Hne].
      - right.
        assert (sm = Meta (sp, p) (f_size fs) (f_mtime fs) p) as ->.
        { rewrite walk_lookup, Hvis, Hfs in Hx. simpl in Hx. congruence. }
        destruct (sync_source_file_outcome e sp d (walk d w0) st0 pr p fs wc)
          as (w2 & acc2 & Hstep2 & _ & Hout); try done.
        { destruct (decide (sp = d)) as [->|Hne]; [by rewrite HG1|by rewrite HF]. }
        { by rewrite walk_lookup, Hvis, HG1. }
        rewrite Hstep in Hstep2. injection Hstep2 as <- <-.
        rewrite HG1 in Hout by done. split; [|done].
        destruct Hst as [[? _]|(_ & -> & _)]; [congruence|in_union].
      - destruct Hp as [Hp|[Hp Hout]].
        + left. apply elem_of_cons in Hp as [?|?]; [congruence|done].
        + right.
          pose proof (sync_source_file_frame e d false (walk d w0) (st0, pr) rel sm wc
                        (d, p) Hrel) as Hfr.
          rewrite Hstep in Hfr. simpl in Hfr. rewrite Hfr by congruence.
          split; [|done].
          destruct Hst as [[_ ->]|(_ & -> & _)]; [done|in_union]. }
  destruct rm as [[stm pr]|msg]; [|done]. simpl in Hfe1, Hrun.
  destruct Hfe1 as [_ [Hp|[Hp Hout]]]; [by apply elem_of_nil in Hp|].
  apply (for_each_run _
    (λ xs _ wc, items_of d w0 xs ∧ wget wc (d, p) = wget wm (d, p))
    (λ _, True)) in Hrun.
  - destruct Hrun as [_ ->]. done.
  - intros [q dm] xs st0 wc [Hit Hkeep].
    apply items_of_cons in Hit as (Hx & _ & Hit). simpl in Hx.
    pose proof (item_meta _ _ (q, dm) Hx) as [_ Hpath]. simpl in Hpath.
    destruct (decide (q = p)) as [->|Hne].
    { by rewrite sync_dest_file_processed. }
    pose proof (sync_dest_file_frame e false pr st0 q dm wc (d, p)) as Hfr.
    destruct (sync_dest_file e false pr st0 (q, dm) wc) as [w' [st'|msg]]; [|done].
    simpl in Hfr. rewrite Hfr by (rewrite Hpath; congruence). done.
  - split; [apply items_of_walk|done].
Qed.

(** A file of the destination that the source loop does not process and
    whose name is protected stays. *)
Lemma sync_loops_kept e sp d dry w0 w p :
  (walk sp w0 !! p = None ∨ is_ignored (basename p) = true) →
  is_protected (basename p) = true →
  wget (sync_loops e d dry (walk sp w0) (walk d w0) w).1 (d, p) = wget w (d, p).
Proof.
  intros Hsrc Hprot. rewrite sync_loops_eq.
  destruct (for_each _ (map_to_list (walk sp w0)) _ w) as [w1 r1] eqn:Hfe1.
  apply (for_each_run _
    (λ xs _ w', items_of sp w0 xs ∧ wget w' (d, p) = wget w (d, p))
    (λ w', wget w' (d, p) = wget w (d, p))) in Hfe1;
    [| |by split; [apply items_of_walk|]].
  2:{ intros [rel sm] xs acc w' (Hit & Hw).
      apply items_of_cons in Hit as (Hx & _ & Hit). simpl in Hx.
      pose proof (item_meta _ _ (rel, sm) Hx) as [Hrel _]. simpl in Hrel.
      destruct (decide (rel = p)) as [->|Hne].
      - destruct Hsrc as [Hnone|Hign]; [congruence|].
        rewrite sync_source_file_ignored by done. done.
      - pose proof (sync_source_file_frame e d dry (walk d w0) acc rel sm w' (d, p)
                      Hrel) as Hfr.
        destruct (sync_source_file e d dry (walk d w0) acc (rel, sm) w')
          as [w'' [acc'|msg]]; simpl in *;
          rewrite Hfr by congruence; done. }
  destruct r1 as [acc|msg]; [|done]. destruct Hfe1 as [_ Hw1].
  destruct (for_each _ (map_to_list (walk d w0)) _ w1) as [w2 r2] eqn:Hfe2.
  apply (for_each_run _
    (λ xs _ w', items_of d w0 xs ∧ wget w' (d, p) = wget w (d, p))
    (λ w', wget w' (d, p) = wget w (d, p))) in Hfe2.
  - simpl. destruct r2; [apply Hfe2|done].
  - intros [q dm] xs st w' [Hit Hw].
    apply items_of_cons in Hit as (Hx & _ & Hit).
    pose proof (item_meta _ _ (q, dm) Hx) as [_ Hpath]. simpl in Hpath, Hx.
    destruct (decide (q = p)) as [->|Hne].
    { by rewrite sync_dest_file_protected. }
    pose proof (sync_dest_file_frame e dry acc.2 st q dm w' (d, p)) as Hfr.
    destruct (sync_dest_file e dry acc.2 st (q, dm) w') as [w'' [st'|msg]];
      simpl in *; rewrite Hfr by (rewrite Hpath; congruence); done.
  - split; [apply items_of_walk|done].
Qed.

Lemma catalogued_eq root w p :
  catalogued root w p
  = if startswith_dot (basename p) then None else wget w (root, p).
Proof.
  unfold catalogued. rewrite walk_lookup.
  destruct (startswith_dot (basename p)); [done|].
  by destruct (wget w (root, p)).
Qed.

(** In the model a catalog lists every file whose name does not start
    with a dot. *)
Lemma mirror_file_eq e sp d w p :
  mirror_file e sp d w p
  = let kept := if is_protected (basename p) then wget w (d, p) else None in
    if startswith_dot (basename p) then wget w (d, p)
    else match wget w (sp, p) with
         | Some fs =>
             if is_ignored (basename p) then kept
             else Some (expected_copy e fs (wget w (d, p)))
         | None => kept
         end.
Proof.
  unfold mirror_file. rewrite !catalogued_eq.
  destruct (startswith_dot (basename p)); [done|]. simpl.
  destruct (wget w (sp, p)) as [fs|], (wget w (d, p)) as [fd|];
    by destruct (is_ignored (basename p)), (is_protected (basename p)).
Qed.

(** The two loops of a real run on which nothing fails. *)
Lemma sync_loops_mirror e sp d w0 w :
  no_fault e →
  (∀ q, wget w q = wget w0 q) → is_Some (w !! d) →
  ∃ w1 st, sync_loops e d false (walk sp w0) (walk d w0) w = (w1, Ok st)
           ∧ errors st = 0
           ∧ is_Some (w1 !! d)
           ∧ ∀ p, wget w1 (d, p) = mirror_file e sp d w0 p.
Proof.
  intros Hnf Hwr Hroot.
  destruct (sync_loops_faultless e sp d w0 w Hnf Hwr Hroot) as (w1 & st & Hrun & Herr).
  pose proof (sync_loops_real_settles e sp d w0 w w1 st Hwr Hroot Hrun Herr)
    as (Hroot1 & _ & Hdst).
  exists w1, st. split_and!; [done..|].
  intros p. rewrite mirror_file_eq. simpl.
  pose proof (sync_loops_uncatalogued e d false sp w0 w p) as Hun.
  rewrite Hrun in Hun. simpl in Hun.
  destruct (startswith_dot (basename p)) eqn:Hvis.
  { rewrite Hun, Hwr; [done|..]; by rewrite walk_lookup, Hvis. }
  assert ((walk sp w0 !! p = None ∨ is_ignored (basename p) = true) →
          wget w1 (d, p)
          = if is_protected (basename p) then wget w0 (d, p) else None) as Horphan.
  { intros Hsrc. destruct (is_protected (basename p)) eqn:Hprot.
    - pose proof (sync_loops_kept e sp d false w0 w p Hsrc Hprot) as Hk.
      rewrite Hrun in Hk. simpl in Hk. by rewrite Hk, Hwr.
    - destruct (wget w1 (d, p)) as [fd|] eqn:Hfd; [|done].
      destruct (Hdst p fd Hfd Hvis) as [[[fs Hfs] Hign]|Hp]; [|congruence].
      destruct Hsrc as [Hnone|Hign']; [|congruence].
      rewrite walk_lookup, Hvis in Hnone.
      destruct (decide (sp = d)) as [Hsd|Hsd].
      + rewrite Hsd in Hnone.
        rewrite Hun, Hwr.
        * by destruct (wget w0 (d, p)).
        * by rewrite Hsd, walk_lookup, Hvis.
        * by rewrite walk_lookup, Hvis.
      + pose proof (sync_loops_root e d false sp w0 w sp Hsd) as Hr.
        rewrite Hrun in Hr. simpl in Hr.
        assert (wget w1 (sp, p) = wget w (sp, p)) as Hsame.
        { unfold wget, tree_of. simpl. by rewrite Hr. }
        rewrite Hsame, Hwr in Hfs. rewrite Hfs in Hnone. done. }
  destruct (wget w0 (sp, p)) as [fs|] eqn:Hfs.
  - destruct (is_ignored (basename p)) eqn:Hign; [by apply Horphan; right|].
    by apply (sync_loops_copy e sp d w0 w w1 st p fs).
  - apply Horphan. left. by rewrite walk_lookup, Hvis, Hfs.
Qed.

(** X9. For a library and a destination that lie apart, on an operating
    system where no operation fails, a real run of [sync_folder] returns
    and counts no error, and the destination that it leaves is known file
    by file. At the path of a file of the source catalog that is not
    ignored stands the file that the destination catalog had there, when
    the comparison takes the two for the same (the size and the
    modification time, or else the digest), and the source file
    otherwise; any other file of the destination catalog stays when its
    name is protected and is gone when it is not; a file that no catalog
    lists is as it was. The dry run from the same file system predicts the
    run: it returns the same statistics, the deleted files by their base
    names. *)
Theorem faultless_real_run_result e self d w :
  apart (source_path self) d = true →
  (∀ op, fault e op = None) →
  ∃ w1 st,
    sync_folder e self d false w = (w1, Ok st)
    ∧ errors st = 0
    ∧ (∀ p, wget w1 (d, p) = mirror_file e (source_path self) d w p)
    ∧ sync_folder e self d true w = (w, Ok (dry_view st)).
Proof.
  intros _ Hnf. set (sp := source_path self).
  assert (∃ wr, (∀ q, wget wr q = wget w q) ∧ is_Some (wr !! d)
                ∧ sync_folder e self d false w
                  = sync_loops e d false (walk sp w) (walk d w) wr)
    as (wr & Hwr & Hroot & Heq).
  { rewrite sync_folder_eq, orb_false_r. case_bool_decide as Hex.
    - by exists w.
    - rewrite Hnf. exists (<[d := tree_of w d]> w).
      split_and!; [intros q; apply wget_ensure_root|by rewrite lookup_insert_eq|done]. }
  destruct (sync_loops_mirror e sp d w wr Hnf Hwr Hroot)
    as (w1 & st & Hrun & Herr & _ & Hmir).
  exists w1, st. rewrite Heq. split_and!; [done..|].
  apply (dry_run_agrees_with_clean_real_run e self d w w1 st); [|done].
  by rewrite Heq.
Qed.

Lemma faultless_real_run_result_witness :
  ∃ w1 st,
    sync_folder quiet library "replica" false w_mixed = (w1, Ok st)
    ∧ errors st = 0
    ∧ (∀ p, wget w1 ("replica", p)
            = mirror_file quiet (source_path library) "replica" w_mixed p)
    ∧ sync_folder quiet library "replica" true w_mixed = (w_mixed, Ok (dry_view st)).
Proof.
  apply (faultless_real_run_result quiet library "replica" w_mixed).
  - vm_compute. reflexivity.
  - intros op. reflexivity.
Defined.

(** ** The test on the size and the time *)

Lemma sync_source_file_same_stat e d dry D st pr p sm dm w :
  is_ignored (basename p) = false →
  D !! p = Some dm →
  m_relative_path sm = p →
  is_Some (wget w (d, p)) →
  m_size sm = m_size dm →
  mtime_differs (m_mtime sm) (m_mtime dm) = false →
  sync_source_file e d dry D (st, pr) (p, sm) w
  = (w, Ok (note_unchanged st, {[p]} ∪ pr)).
Proof.
  intros Hign HD Hrel [f Hf] Hsize Hmt.
  unfold sync_source_file. simpl. rewrite Hign.
  unfold sync_regular_file. rewrite bind_eq.
  assert (get_destination_path e d sm dry w = (w, Ok (d, p))) as ->.
  { unfold get_destination_path. rewrite bind_eq, Hrel.
    destruct dry; simpl; [done|]. unfold os_makedirs_for. by rewrite Hf. }
  by rewrite HD, Hmt, Hsize, Nat.eqb_refl.
Qed.

Lemma sync_loops_same_stat e d dry sp w0 w p sm dm :
  walk sp w0 !! p = Some sm →
  walk d w0 !! p = Some dm →
  is_ignored (basename p) = false →
  m_size sm = m_size dm →
  mtime_differs (m_mtime sm) (m_mtime dm) = false →
  is_Some (wget w (d, p)) →
  let r := sync_loops e d dry (walk sp w0) (walk d w0) w in
  wget r.1 (d, p) = wget w (d, p)
  ∧ ∀ st, r.2 = Ok st →
      (p ∉ added_files st) ∧ (p ∉ updated_files st) ∧ (p ∉ ignored_files st)
      ∧ (dry = false → p ∉ deleted_files st) ∧ 1 ≤ unchanged st.
Proof.
  intros Hs Hd Hign Hsize Hmt Hsome. simpl. rewrite sync_loops_eq.
  destruct (for_each _ (map_to_list (walk sp w0)) _ w) as [w1 r1] eqn:Hfe1.
  apply (for_each_run _
    (λ xs acc w', items_of sp w0 xs
                  ∧ wget w' (d, p) = wget w (d, p)
                  ∧ (p ∈ xs.*1 ∨ (p ∈ acc.2 ∧ 1 ≤ unchanged acc.1))
                  ∧ (p ∉ added_files acc.1) ∧ (p ∉ updated_files acc.1)
                  ∧ (p ∉ ignored_files acc.1) ∧ deleted_files acc.1 = [])
    (λ w', wget w' (d, p) = wget w (d, p))) in Hfe1.
  3:{ split_and!; [apply items_of_walk|done| |apply not_elem_of_nil..|done].
      left. apply list_elem_of_fmap. exists (p, sm). split; [done|].
      by apply elem_of_map_to_list. }
  2:{ intros [rel sm'] xs [st pr] w' (Hit & Hwd & Hin & Hna & Hnu & Hni & Hnd).
      apply items_of_cons in Hit as (Hx & Hnin & Hit). simpl in Hx, Hnin.
      pose proof (item_meta _ _ (rel, sm') Hx) as [Hrel Hpath].
      simpl in Hrel, Hpath.
      destruct (decide (rel = p)) as [->|Hne].
      - assert (sm' = sm) as -> by congruence.
        rewrite (sync_source_file_same_stat e d dry (walk d w0) st pr p sm dm w');
          try done.
        + notes. split_and!; try done. right. split; [in_union|lia].
        + by rewrite Hwd.
      - assert ((d, p) ≠ (d, rel)) as Hne1 by congruence.
        pose proof (sync_source_file_frame e d dry (walk d w0) (st, pr) rel sm' w'
                      (d, p) Hrel Hne1) as Hfr1.
        pose proof (sync_source_file_stats e d dry (walk d w0) st pr rel sm' w') as Hst.
        destruct (sync_source_file e d dry (walk d w0) (st, pr) (rel, sm') w')
          as [w'' [acc'|msg]]; simpl in *; [|congruence].
        assert (p ∈ xs.*1 ∨ p ∈ pr ∧ 1 ≤ unchanged st) as Hin'.
        { destruct Hin as [Hin|Hin]; [|by right]. left.
          apply elem_of_cons in Hin as [?|?]; [congruence|done]. }
        split_and!; [done|congruence|..];
          destruct (Hst _ eq_refl) as [[_ ->]|(_ & Hpr & [Hs' | [Hs' | [Hs' | Hs']]])];
          rewrite ?Hpr, ?Hs'; notes;
          rewrite ?elem_of_app, ?not_elem_of_app, ?list_elem_of_singleton;
          try (intuition congruence).
        all: destruct Hin' as [?|[? ?]]; [by left|right; split; [in_union|lia]]. }
  destruct r1 as [[st1 pr1]|msg]; simpl; [|by split].
  destruct Hfe1 as (_ & Hwd & Hin & Hna & Hnu & Hni & Hnd). simpl in *.
  destruct Hin as [Hin|[Hin Hun]]; [by apply elem_of_nil in Hin|].
  destruct (for_each _ (map_to_list (walk d w0)) _ w1) as [w2 r2] eqn:Hfe2.
  apply (for_each_run _
    (λ xs st w', items_of d w0 xs ∧ wget w' (d, p) = wget w (d, p)
                 ∧ (p ∉ added_files st) ∧ (p ∉ updated_files st)
                 ∧ (p ∉ ignored_files st) ∧ 1 ≤ unchanged st
                 ∧ (dry = false → ∀ q, q ∈ deleted_files st → q ∉ pr1))
    (λ w', False)) in Hfe2.
  - destruct r2 as [st|msg]; [|done]. destruct Hfe2 as (_ & ? & ? & ? & ? & ? & Hdel).
    split; [done|]. intros ? [= <-]. split_and!; [done..| |done].
    intros Hdry Hp. by apply (Hdel Hdry p Hp).
  - intros [q dm'] xs st w' (Hit & Hw & Hna' & Hnu' & Hni' & Hun' & Hdel).
    apply items_of_cons in Hit as (Hx & _ & Hit). simpl in Hx.
    pose proof (item_meta _ _ (q, dm') Hx) as [_ Hpath]. simpl in Hpath.
    destruct (decide (q = p)) as [->|Hqp].
    { by rewrite sync_dest_file_processed. }
    pose proof (sync_dest_file_stats e dry pr1 st q dm' w') as Hst.
    pose proof (sync_dest_file_frame e dry pr1 st q dm' w' (d, p)) as Hfr.
    destruct (sync_dest_file_ok e dry pr1 st (q, dm') w') as [st' Hok].
    destruct (sync_dest_file e dry pr1 st (q, dm') w') as [w'' r] eqn:Hstep;
      simpl in *.
    subst r. rewrite Hfr by (rewrite Hpath; congruence).
    split_and!; [done|done|..];
      try (destruct (Hst _ eq_refl) as [-> | [[x ->] | [x ->]]]; done).
    intros -> q' Hq'.
    destruct (sync_dest_file_removed e pr1 st q dm' w' w'' st' Hstep)
      as [Hsame|(Hnew & Hnpr & _)].
    + rewrite Hsame in Hq'. by apply Hdel.
    + rewrite Hnew in Hq'. apply elem_of_app in Hq' as [Hq'| ->%list_elem_of_singleton];
        [by apply Hdel|done].
  - split_and!; [apply items_of_walk|done..|].
    intros _ q Hq. rewrite Hnd in Hq. by apply elem_of_nil in Hq.
Qed.

(** X10. A path that both catalogs hold under a name that is not ignored,
    with records of the same size and modification times at most a second
    apart, is taken for unchanged on that evidence alone: whatever the
    bytes of the two files, and whether or not they can be read, a run,
    dry or real, leaves the copy of the destination as it is, lists the
    path neither as added, updated nor ignored (nor, in a real run, as
    deleted) and counts it as unchanged. *)
Theorem same_size_and_time_is_not_compared e self d dry w p sm dm :
  walk (source_path self) w !! p = Some sm →
  walk d w !! p = Some dm →
  is_ignored (basename p) = false →
  m_size sm = m_size dm →
  (Qabs (m_mtime sm - m_mtime dm) <= 1)%Q →
  let r := sync_folder e self d dry w in
  wget r.1 (d, p) = wget w (d, p)
  ∧ is_Some (wget r.1 (d, p))
  ∧ ∀ st, r.2 = Ok st →
      (p ∉ added_files st) ∧ (p ∉ updated_files st) ∧ (p ∉ ignored_files st)
      ∧ (dry = false → p ∉ deleted_files st) ∧ 1 ≤ unchanged st.
Proof.
  intros Hs Hd Hign Hsize Hmt. simpl.
  assert (mtime_differs (m_mtime sm) (m_mtime dm) = false) as Hmt'.
  { unfold mtime_differs. apply negb_false_iff, Qle_bool_iff.
    eapply Qle_trans; [exact Hmt|]. unfold Qle. simpl. lia. }
  pose proof Hd as (_ & fd & Hfd)%walk_file.
  rewrite sync_folder_eq, bool_decide_eq_true_2 by by eapply wget_root_exists.
  simpl.
  destruct (sync_loops_same_stat e d dry (source_path self) w w p sm dm)
    as [Hw Hst]; [done..|by rewrite Hfd|].
  split_and!; [done|by rewrite Hw, Hfd|done].
Qed.

Lemma same_size_and_time_is_not_compared_witness :
  let p := "book/c.epub" in
  let r := sync_folder read_only library "replica" false w_stale in
  wget r.1 ("replica", p) = wget w_stale ("replica", p)
  ∧ is_Some (wget r.1 ("replica", p))
  ∧ ∀ st, r.2 = Ok st →
      (p ∉ added_files st) ∧ (p ∉ updated_files st) ∧ (p ∉ ignored_files st)
      ∧ (false = false → p ∉ deleted_files st) ∧ 1 ≤ unchanged st.
Proof.
  apply (same_size_and_time_is_not_compared read_only library "replica" false
           w_stale "book/c.epub"
           (Meta ("library", "book/c.epub") 9 50 "book/c.epub")
           (Meta ("replica", "book/c.epub") 9 50 "book/c.epub")).
  - vm_compute. reflexivity.
  - vm_compute. reflexivity.
  - reflexivity.
  - reflexivity.
  - vm_compute. discriminate.
Defined.

(** ** All the replicas *)

Lemma sync_replica_world e self dry results replica w :
  (sync_replica e self dry results replica w).1
  = (sync_folder e self replica dry w).1.
Proof.
  rewrite sync_replica_eq.
  by destruct (sync_folder e self replica dry w) as [w' [st|msg]].
Qed.

(** X11. A dry run of [sync_all], and so of [sync_folders], leaves the
    file system as it is and returns a result for each configured
    replica, whatever the replicas and whatever fails. *)
Theorem dry_run_of_all_replicas_writes_nothing e self w :
  ∃ results,
    sync_all e self true w = (w, Ok results)
    ∧ Router.sync_folders e self true w = (w, Ok results)
    ∧ dom results = list_to_set (replica_paths self).
Proof.
  assert ((sync_all e self true w).1 = w) as Hall.
  { unfold sync_all. apply for_each_world.
    intros results replica w''. rewrite sync_replica_world.
    apply sync_folder_dry_run_world. }
  destruct (sync_all_one_result_each e self true w) as (w' & results & Hrun & Hdom).
  rewrite Hrun in Hall. simpl in Hall. subst w'.
  by exists results.
Qed.

Lemma sync_replica_root e self dry results replica w r :
  r ≠ replica → (sync_replica e self dry results replica w).1 !! r = w !! r.
Proof.
  intros Hr. rewrite sync_replica_world, sync_folder_eq.
  destruct (bool_decide (is_Some (w !! replica)) || dry).
  - by apply sync_loops_root.
  - destruct (fault e (OpMakedirs replica)); [done|].
    rewrite sync_loops_root by done. by rewrite lookup_insert_ne.
Qed.

(** X12. [sync_all], dry or real, leaves every directory that lies apart
    from each of the configured replicas exactly as it was: the library
    is not written when it lies apart from all its replicas. *)
Theorem sync_all_touches_replicas_only e self dry w r :
  Forall (λ replica, apart r replica = true) (replica_paths self) →
  (sync_all e self dry w).1 !! r = w !! r.
Proof.
  unfold sync_all. generalize (∅ : gmap string replica_result).
  revert w. induction (replica_paths self) as [|x l IH]; intros w results Hr; [done|].
  apply Forall_cons in Hr as [Hrx%apart_ne Hrl].
  rewrite for_each_cons.
  pose proof (sync_replica_root e self dry results x w r Hrx) as Hroot.
  destruct (sync_replica e self dry results x w) as [w' [results'|msg]];
    simpl in Hroot; [|done].
  rewrite IH by done. done.
Qed.

Lemma sync_all_touches_replicas_only_witness :
  (sync_all quiet library false w_mixed).1 !! "library" = w_mixed !! "library".
Proof.
  apply (sync_all_touches_replicas_only quiet library false w_mixed "library").
  refine (bool_decide_unpack _ _). vm_compute. exact I.
Defined.

(** ** One run after the other *)

Import SyncHistory Router.

Lemma perform_sync_eq e self dry c m :
  ∃ w' res,
    sync_all e self dry (m_world m) = (w', Ok res)
    ∧ dom res = list_to_set (SyncService.replica_paths self)
    ∧ perform_sync e self dry c m
      = Machine (SyncStatus (Some (c_finished c)) false (Some res) None) w'
          (add_sync_entry (c_entry c) (c_saved c) (c_disk_ok c)
             (if dry then "dry_run" else "sync") "completed" (c_duration c)
             (source_path self) (SyncService.replica_paths self) res None
             (m_history m)).
Proof.
  destruct (sync_all_one_result_each e self dry (m_world m))
    as (w' & res & Hrun & Hdom).
  exists w', res. split_and!; [done..|].
  unfold perform_sync, perform_sync_finish, sync_folders. simpl.
  rewrite Hrun. simpl. by destruct dry.
Qed.



Lemma run_events_app e self sv evs1 evs2 :
  run_events e self sv (evs1 ++ evs2)
  = match run_events e self sv evs1 with
    | Some (sv1, resps1) =>
        match run_events e self sv1 evs2 with
        | Some (sv2, resps2) => Some (sv2, resps1 ++ resps2)
        | None => None
        end
    | None => None
    end.
Proof.
  revert sv. induction evs1 as [|ev evs1 IH]; intros sv; simpl.
  - by destruct (run_events e self sv evs2) as [[sv2 resps2]|].
  - destruct (step e self sv ev) as [[sv' resp]|]; [|done].
    rewrite IH. destruct (run_events e self sv' evs1) as [[sv1 resps1]|]; [|done].
    destruct (run_events e self sv1 evs2) as [[sv2 resps2]|]; [|done].
    by rewrite app_assoc.
Qed.

Lemma run_events_cons e self sv ev evs :
  run_events e self sv (ev :: evs)
  = match step e self sv ev with
    | None => None
    | Some (sv', resp) =>
        match run_events e self sv' evs with
        | None => None
        | Some (sv'', resps) => Some (sv'', option_list resp ++ resps)
        end
    end.
Proof. done. Qed.

(** While the flag is set, every trigger is refused and changes nothing. *)
Lemma run_triggers_refused e self sv drys :
  in_progress (m_status (sv_machine sv)) = true →
  run_events e self sv (Trigger <$> drys)
  = Some (sv, replicate (length drys)
                (Response "already_running"
                   (last_sync (m_status (sv_machine sv))) None)).
Proof.
  intros Hbusy. induction drys as [|dry drys IH]; [done|].
  rewrite fmap_cons, run_events_cons, step_trigger_already_running by done.
  by rewrite IH.
Qed.

(** X14. One run after the other. From the initial server, a trigger is
    answered [started]; once its task has started the status is
    [in_progress] and every further trigger is answered [already_running]
    and schedules nothing; when the task has finished the status is [idle]
    with the completion time, and the next trigger is answered [started]
    with that time and scheduled, no run being active. *)
Theorem one_run_then_the_next e self w dry drys c dry' :
  ∃ busy sv,
    run_events e self (server0 w) ([Trigger dry; TaskStarts] ++ (Trigger <$> drys))
    = Some (busy, Response "started" None None
                  :: replicate (length drys) (Response "already_running" None None))
    ∧ r_status (get_sync_status (m_status (sv_machine busy))) = "in_progress"
    ∧ sv_scheduled busy = [] ∧ sv_active busy = [dry]
    ∧ run_events e self busy [TaskFinishes c; Trigger dry']
      = Some (sv, [Response "started" (Some (c_finished c)) None])
    ∧ sv_machine sv = perform_sync e self dry c (Machine sync_status0 w Missing)
    ∧ r_status (get_sync_status (m_status (sv_machine sv))) = "idle"
    ∧ r_last_sync (get_sync_status (m_status (sv_machine sv))) = Some (c_finished c)
    ∧ sv_scheduled sv = [dry'] ∧ sv_active sv = [].
Proof.
  set (busy := Server (Machine (perform_sync_begin sync_status0) w Missing) [] [dry]).
  assert (run_events e self (server0 w) [Trigger dry; TaskStarts]
          = Some (busy, [Response "started" None None])) as Hstart by done.
  pose proof (run_triggers_refused e self busy drys eq_refl) as Hbusy.
  destruct (perform_sync_eq e self dry c (Machine sync_status0 w Missing))
    as (w' & res & _ & _ & Hdone).
  exists busy, (Server (perform_sync e self dry c (Machine sync_status0 w Missing))
                       [dry'] []).
  assert (run_events e self busy [TaskFinishes c; Trigger dry']
          = Some (Server (perform_sync e self dry c (Machine sync_status0 w Missing))
                         [dry'] [],
                  [Response "started" (Some (c_finished c)) None])) as Hend.
  { rewrite run_events_cons.
    change (step e self busy (TaskFinishes c))
      with (Some (Server (perform_sync e self dry c (Machine sync_status0 w Missing))
                         [] [], @None SyncResponse)).
    rewrite Hdone. done. }
  split_and!; [|done|done|done|done|done|by rewrite Hdone..|done|done].
  by rewrite run_events_app, Hstart, Hbusy.
Qed.

Import SyncHistory HistorySpec Ledger.

(** ** The queries of the ledger *)

Lemma head_insert_desc x l :
  head (insert_desc x l)
  = Some match head l with
         | Some y => if (timestamp y <=? timestamp x)%Z then x else y
         | None => x
         end.
Proof.
  destruct l as [|y l]; simpl; [done|].
  by destruct (timestamp y <=? timestamp x)%Z.
Qed.

Lemma foldl_max_by_timestamp x l :
  foldl (λ best y, if (timestamp best <? timestamp y)%Z then y else best) x l
  = match py_max_by_timestamp l with
    | Some m => if (timestamp m <=? timestamp x)%Z then x else m
    | None => x
    end.
Proof.
  revert x. induction l as [|y l IH]; intros x; [done|].
  pose proof (IH x) as Hx. pose proof (IH y) as Hy.
  destruct (py_max_by_timestamp_fold y l) as (_ & Hle & _).
  cbn [foldl py_max_by_timestamp]. cbv zeta in Hle.
  destruct (Z.ltb_spec (timestamp x) (timestamp y)) as [Hlt|Hge].
  - rewrite (proj2 (Z.leb_gt _ _)) by lia. done.
  - rewrite Hx, Hy. destruct (py_max_by_timestamp l) as [m|].
    + destruct (Z.leb_spec (timestamp m) (timestamp y));
        destruct (Z.leb_spec (timestamp m) (timestamp x)); try done;
        try (destruct (Z.leb_spec (timestamp y) (timestamp x))); try done; lia.
    + by rewrite (proj2 (Z.leb_le _ _)) by lia.
Qed.

Lemma py_max_by_timestamp_cons x l :
  py_max_by_timestamp (x :: l)
  = Some match py_max_by_timestamp l with
         | Some m => if (timestamp m <=? timestamp x)%Z then x else m
         | None => x
         end.
Proof. cbn [py_max_by_timestamp]. by rewrite foldl_max_by_timestamp. Qed.

(** The first entry of the sorted history is the one that [max] gives. *)
Lemma head_sort_desc l : head (sort_desc l) = py_max_by_timestamp l.
Proof.
  induction l as [|x l IH]; [done|].
  rewrite py_max_by_timestamp_cons, <- IH. apply head_insert_desc.
Qed.

Lemma get_history_eq limit s :
  get_history limit s
  = match limit with
    | Some k => if (k =? 0)%Z then sort_desc (_load_history s)
                else py_slice_to k (sort_desc (_load_history s))
    | None => sort_desc (_load_history s)
    end.
Proof.
  unfold get_history, to_dict. rewrite list_fmap_id. by destruct limit.
Qed.

Lemma get_latest_sync_max s :
  get_latest_sync s = py_max_by_timestamp (_load_history s).
Proof.
  unfold get_latest_sync. rewrite get_history_eq. simpl.
  unfold py_slice_to. simpl. rewrite <- head_sort_desc.
  by destruct (sort_desc (_load_history s)).
Qed.

(** X15. The most recent entry is the same for the two queries that give
    it, whatever the timestamps, equal ones included: [get_latest_sync]
    returns the [last_sync] of [get_stats], which is the first entry of
    the history as [get_history] sorts it; it is [None] exactly when no
    entry is stored. *)
Theorem latest_is_the_last_sync_of_the_stats v s :
  get_latest_sync s = last_sync (get_stats v s)
  ∧ get_latest_sync s = head (get_history None s)
  ∧ (get_latest_sync s = None ↔ _load_history s = []).
Proof.
  pose proof (get_latest_sync_max s) as Hmax.
  split_and!.
  - rewrite Hmax. destruct (decide (_load_history s = [])) as [Hnil|Hne].
    { unfold get_stats. by rewrite Hnil. }
    rewrite get_stats_nonempty by done. simpl. unfold to_dict.
    by rewrite option_fmap_id.
  - by rewrite Hmax, get_history_eq, head_sort_desc.
  - rewrite Hmax. by destruct (_load_history s).
Qed.

Lemma newer_first_trans : Transitive newer_first.
Proof. intros a b c. unfold newer_first. lia. Qed.

(** X16. A limited history is the newest part of the whole history: with
    a positive [limit] it is its first [limit] entries, as many as there
    are; with a negative one (the route accepts it) it is the whole but
    for the last [-limit] entries, the oldest; in each case no entry left
    out is newer than an entry returned. Without a [limit] in the request
    the route returns the first twenty. *)
Theorem limited_history_is_the_newest_part s (k : Z) :
  let all := get_history None s in
  let part := get_history (Some k) s in
  ((0 < k)%Z → part = take (Z.to_nat k) all
               ∧ length part = Z.to_nat k `min` length (_load_history s))
  ∧ ((k < 0)%Z → part = take (length all - Z.to_nat (- k)) all
                 ∧ length part = length (_load_history s) - Z.to_nat (- k))
  ∧ (∃ rest, all = part ++ rest
             ∧ ∀ x y, x ∈ part → y ∈ rest → (timestamp y ≤ timestamp x)%Z)
  ∧ Router.get_sync_history None s = take 20 all.
Proof.
  simpl. rewrite !get_history_eq.
  set (all := sort_desc (_load_history s)).
  assert (length all = length (_load_history s)) as Hlen.
  { unfold all. by rewrite sort_desc_perm. }
  assert (∀ n, ∀ x y, x ∈ take n all → y ∈ drop n all →
            (timestamp y ≤ timestamp x)%Z) as Hsplit.
  { intros n x y Hx Hy.
    pose proof (sort_desc_sorted (_load_history s)) as Hs. fold all in Hs.
    apply (@Sorted_StronglySorted _ _ newer_first_trans) in Hs. rewrite <- (take_drop n all) in Hs.
    apply (StronglySorted_app_1_elem_of _ _ _ x y Hs Hx Hy). }
  split_and!.
  - intros Hk. rewrite (proj2 (Z.eqb_neq k 0)) by lia.
    unfold py_slice_to. rewrite (proj2 (Z.leb_le 0 k)) by lia.
    split; [done|]. rewrite length_take. lia.
  - intros Hk. rewrite (proj2 (Z.eqb_neq k 0)) by lia.
    unfold py_slice_to. rewrite (proj2 (Z.leb_gt 0 k)) by lia.
    split; [done|]. rewrite length_take. lia.
  - destruct (Z.eqb_spec k 0) as [->|Hk].
    + exists []. split; [by rewrite app_nil_r|]. intros x y _ Hy.
      by apply elem_of_nil in Hy.
    + unfold py_slice_to. destruct (0 <=? k)%Z.
      * exists (drop (Z.to_nat k) all). split; [by rewrite take_drop|apply Hsplit].
      * exists (drop (length all - Z.to_nat (- k)) all).
        split; [by rewrite take_drop|apply Hsplit].
  - unfold Router.get_sync_history. by rewrite get_history_eq.
Qed.

Lemma most_recent_snoc {A} n (l : list A) x :
  0 < n → most_recent n (l ++ [x]) = most_recent (n - 1) l ++ [x].
Proof.
  intros Hn. rewrite !most_recent_drop, length_app. simpl.
  rewrite drop_app_le by lia. do 2 f_equal. lia.
Qed.

Lemma most_recent_elem_of {A} n (l : list A) x : x ∈ most_recent n l → x ∈ l.
Proof.
  intros Hx. rewrite (most_recent_suffix n l). apply elem_of_app. by right.
Qed.

Lemma get_stats_total v s :
  total_syncs (get_stats v s) = length (_load_history s).
Proof. unfold get_stats. by destruct (_load_history s). Qed.

(** X17. After a call of [add_sync_entry] whose save succeeds, with a
    timestamp later than those of the stored entries, [get_latest_sync]
    returns the entry of that call, and [get_stats] counts one entry more,
    up to the cap of a hundred. *)
Theorem newest_entry_becomes_the_latest v s c :
  a_disk_ok c = true →
  (∀ x, x ∈ _load_history s → (timestamp x < a_now c)%Z) →
  get_latest_sync (call s c) = Some (entry_of c)
  ∧ total_syncs (get_stats v (call s c)) = S (length (_load_history s)) `min` 100.
Proof.
  intros Hok Hnew.
  rewrite get_latest_sync_max, get_stats_total, call_saved by done.
  rewrite most_recent_snoc by (unfold max_entries; lia).
  split.
  - destruct (py_max_by_timestamp _) as [m|] eqn:Hm.
    + apply py_max_by_timestamp_spec in Hm as [Hin Hmax].
      apply elem_of_app in Hin as [Hin| ->%list_elem_of_singleton]; [|done].
      apply most_recent_elem_of, Hnew in Hin.
      assert (timestamp (entry_of c) ≤ timestamp m)%Z as Hle.
      { apply Hmax, elem_of_app. right. by apply list_elem_of_singleton. }
      simpl in Hle. lia.
    + by destruct (most_recent (max_entries - 1) (_load_history s)).
  - rewrite length_app, most_recent_drop, length_drop. simpl.
    unfold max_entries. lia.
Qed.

Lemma newest_entry_becomes_the_latest_witness :
  get_latest_sync (call one_run later_call) = Some (entry_of later_call)
  ∧ total_syncs (get_stats PyFloat.Sequential (call one_run later_call))
    = S (length (_load_history one_run)) `min` 100.
Proof.
  apply (newest_entry_becomes_the_latest PyFloat.Sequential one_run later_call).
  - reflexivity.
  - intros x [->|Hx]%elem_of_cons; [simpl; lia|by apply elem_of_nil in Hx].
Defined.

(** ** The history file under any sequence of requests *)

Lemma serve_consistent s r : consistent s → consistent (serve s r).
Proof.
  intros Hs. destruct r as [c|disk_ok]; simpl.
  - unfold call, add_sync_entry, _save_history.
    destruct (a_disk_ok c); [|done].
    rewrite py_last_n_most_recent. unfold consistent.
    cbn [total_entries entries]. rewrite length_fmap.
    split; [done|apply most_recent_length].
  - unfold clear_history. destruct s; [done| |]; by destruct disk_ok.
Qed.

(** X18. Under any sequence of calls of [add_sync_entry], saved or not,
    and of [clear_history], succeeding or not, the history file stays
    consistent: when it holds a document, [total_entries] is the number of
    its entries; and at most a hundred entries are read from it. *)
Theorem history_file_stays_consistent s reqs :
  consistent s →
  consistent (foldl serve s reqs)
  ∧ length (_load_history (foldl serve s reqs)) ≤ 100.
Proof.
  intros Hs.
  assert (consistent (foldl serve s reqs)) as Hc.
  { revert s Hs. induction reqs as [|r reqs IH]; intros s Hs; [done|].
    simpl. by apply IH, serve_consistent. }
  split; [done|].
  destruct (foldl serve s reqs) as [| |data]; simpl; [lia..|].
  destruct Hc as [_ Hlen]. by rewrite length_fmap.
Qed.

Lemma history_file_stays_consistent_witness :
  let reqs := (Add <$> three_calls) ++ [Clear false; Add lost_call] in
  consistent (foldl serve Missing reqs)
  ∧ length (_load_history (foldl serve Missing reqs)) ≤ 100.
Proof.
  apply (history_file_stays_consistent Missing). exact I.
Defined.

Import SyncService Config.

(** ** The configured replicas *)

Lemma lstrip_starts s : starts_with_space (lstrip s) = false.
Proof.
  induction s as [|c r IH]; simpl; [done|].
  destruct (is_space c) eqn:Hc; [done|]. simpl. by rewrite Hc.
Qed.

Lemma lstrip_id s : starts_with_space s = false → lstrip s = s.
Proof. destruct s as [|c r]; simpl; [done|]. by intros ->. Qed.

Lemma rstrip_starts s :
  starts_with_space s = false → starts_with_space (rstrip s) = false.
Proof.
  destruct s as [|c r]; simpl; [done|]. intros Hc.
  destruct (rstrip r); simpl; by rewrite ?Hc.
Qed.

Lemma rstrip_idemp s : rstrip (rstrip s) = rstrip s.
Proof.
  induction s as [|c r IH]; simpl; [done|].
  destruct (rstrip r) as [|c' r'] eqn:Hr.
  - destruct (is_space c) eqn:Hc; simpl; [done|]. by rewrite Hc.
  - change (rstrip (String c (String c' r')))
      with (match rstrip (String c' r') with
            | EmptyString => if is_space c then EmptyString else String c EmptyString
            | r'' => String c r''
            end).
    by rewrite IH.
Qed.

Lemma strip_idemp s : strip (strip s) = strip s.
Proof.
  unfold strip.
  rewrite (lstrip_id (rstrip (lstrip s))) by apply rstrip_starts, lstrip_starts.
  apply rstrip_idemp.
Qed.

Lemma has_comma_lstrip s : has_comma s = false → has_comma (lstrip s) = false.
Proof.
  induction s as [|c r IH]; simpl; [done|].
  intros [Hc Hr]%orb_false_iff. destruct (is_space c); [by apply IH|].
  simpl. by rewrite Hc, Hr.
Qed.

Lemma has_comma_rstrip s : has_comma s = false → has_comma (rstrip s) = false.
Proof.
  induction s as [|c r IH]; simpl; [done|].
  intros [Hc Hr]%orb_false_iff. specialize (IH Hr).
  destruct (rstrip r) as [|c' r']; simpl in *.
  - destruct (is_space c); simpl; by rewrite ?Hc.
  - by rewrite Hc, IH.
Qed.

Lemma has_comma_strip s : has_comma s = false → has_comma (strip s) = false.
Proof. intros H. by apply has_comma_rstrip, has_comma_lstrip. Qed.

Lemma split_comma_pieces s p : p ∈ split_comma s → has_comma p = false.
Proof.
  revert p. induction s as [|c r IH]; intros p; simpl.
  - by intros ->%list_elem_of_singleton.
  - destruct (Ascii.eqb c ",") eqn:Hc.
    + intros [->|Hp]%elem_of_cons; [done|by apply IH].
    + destruct (split_comma r) as [|h t].
      * intros ->%list_elem_of_singleton. simpl. by rewrite Hc.
      * intros [->|Hp]%elem_of_cons.
        -- simpl. rewrite Hc. apply IH. by left.
        -- apply IH. by right.
Qed.

Lemma replica_paths_list_elem self p :
  p ∈ replica_paths_list self → clean_path p.
Proof.
  unfold replica_paths_list.
  intros (q & -> & [Hq Hin]%list_elem_of_filter)%list_elem_of_fmap.
  split_and!; [done| |apply strip_idemp].
  by apply has_comma_strip, (split_comma_pieces (REPLICA_PATHS self)).
Qed.

(** X19. Every path of [replica_paths_list] is a clean one: not empty,
    without a comma, without white space at either end; and the keys of
    the dictionary that [sync_all] returns for the service made by
    [get_sync_service] are exactly these paths. *)
Theorem configured_replicas_are_clean_paths e settings dry w :
  (∀ p, p ∈ replica_paths_list settings →
     p ≠ "" ∧ has_comma p = false ∧ strip p = p)
  ∧ ∃ w' results,
      sync_all e (get_sync_service settings) dry w = (w', Ok results)
      ∧ ∀ r, r ∈ dom results ↔ r ∈ replica_paths_list settings.
Proof.
  split; [apply replica_paths_list_elem|].
  destruct (sync_all_one_result_each e (get_sync_service settings) dry w)
    as (w' & results & Hrun & Hdom).
  exists w', results. split; [done|]. intros r.
  rewrite Hdom. simpl. apply elem_of_list_to_set.
Qed.

(** *** Reading back a list that was joined *)

Lemma split_comma_cons s : ∃ h t, split_comma s = h :: t.
Proof.
  induction s as [|c r (h & t & IH)]; simpl; [by eexists _, _|].
  rewrite IH. destruct (Ascii.eqb c ","); by eexists _, _.
Qed.

Lemma split_comma_no_comma s : has_comma s = false → split_comma s = [s].
Proof.
  induction s as [|c r IH]; simpl; [done|].
  intros [Hc Hr]%orb_false_iff. by rewrite Hc, IH.
Qed.

Lemma split_comma_app a b :
  has_comma a = false →
  split_comma (a ++ String "," b) = a :: split_comma b.
Proof.
  induction a as [|c a IH]; simpl; [done|].
  intros [Hc Ha]%orb_false_iff. by rewrite Hc, IH.
Qed.

Lemma has_comma_app a b : has_comma (a ++ b) = has_comma a || has_comma b.
Proof.
  induction a as [|c a IH]; simpl; [done|]. by rewrite IH, orb_assoc.
Qed.

Lemma all_space_no_comma pad : all_space pad = true → has_comma pad = false.
Proof.
  induction pad as [|c r IH]; simpl; [done|].
  intros [Hc Hr]%andb_true_iff. rewrite IH by done.
  destruct (Ascii.eqb_spec c ","); [by subst c|done].
Qed.

Lemma lstrip_pad pad s : all_space pad = true → lstrip (pad ++ s) = lstrip s.
Proof.
  induction pad as [|c r IH]; simpl; [done|].
  intros [Hc Hr]%andb_true_iff. rewrite Hc. by apply IH.
Qed.

Lemma strip_pad pad p :
  all_space pad = true → strip (pad ++ p) = strip p.
Proof. intros H. unfold strip. by rewrite lstrip_pad. Qed.

Lemma split_comma_join pad p l :
  all_space pad = true →
  Forall clean_path (p :: l) →
  split_comma (join (String "," pad) (p :: l)) = p :: (String.append pad <$> l).
Proof.
  intros Hpad. revert p. induction l as [|q l IH]; intros p Hl.
  - apply Forall_cons in Hl as [(_ & Hp & _) _]. simpl.
    by apply split_comma_no_comma.
  - apply Forall_cons in Hl as [(_ & Hp & _) Hl].
    change (join (String "," pad) (p :: q :: l))
      with (p ++ String "," (pad ++ join (String "," pad) (q :: l)))%string.
    rewrite split_comma_app by done. f_equal.
    specialize (IH q Hl). pose proof Hl as [(_ & Hq & _) _]%Forall_cons.
    clear Hl. revert IH. generalize (join (String "," pad) (q :: l)). intros j IH.
    rewrite fmap_cons. 
    assert (∀ a j', has_comma a = false →
              split_comma (a ++ j')
              = match split_comma j' with
                | h :: t => (a ++ h)%string :: t
                | [] => [a]
                end) as Happ.
    { clear. induction a as [|c a IHa]; intros j' Ha; simpl.
      - destruct (split_comma_cons j') as (h & t & Hj). by rewrite Hj.
      - apply orb_false_iff in Ha as [Hc Ha]. rewrite Hc, IHa by done.
        by destruct (split_comma j'). }
    rewrite Happ by by apply all_space_no_comma. by rewrite IH.
Qed.

(** X20. Reading back a list that was joined: for clean paths (not empty,
    no comma, no white space at either end) joined with a comma, followed
    or not by white space, [replica_paths_list] returns the list itself. *)
Theorem joined_replicas_are_read_back library pad l :
  all_space pad = true →
  Forall clean_path l →
  replica_paths_list (MkSettings library (join (String "," pad) l)) = l.
Proof.
  intros Hpad Hl. unfold replica_paths_list. simpl.
  destruct l as [|p l]; [done|].
  rewrite split_comma_join by done.
  pose proof Hl as [(Hp1 & _ & Hp2) Hl']%Forall_cons.
  rewrite filter_cons, decide_True by by rewrite Hp2.
  rewrite fmap_cons, Hp2. f_equal.
  clear Hl Hp1 Hp2 p. induction Hl' as [|q l (Hq1 & _ & Hq2) _ IH]; [done|].
  rewrite fmap_cons, filter_cons.
  rewrite decide_True by (rewrite strip_pad, Hq2; done).
  rewrite fmap_cons, strip_pad, Hq2 by done. by rewrite IH.
Qed.

Lemma joined_replicas_are_read_back_witness :
  replica_paths_list
    (MkSettings "/library" (join ", " ["/mnt/usb"; "/srv/my books"]))
  = ["/mnt/usb"; "/srv/my books"].
Proof.
  apply (joined_replicas_are_read_back "/library" " " ["/mnt/usb"; "/srv/my books"]).
  - reflexivity.
  - repeat constructor; try discriminate.
Defined.

(** *** What the validators keep *)

Lemma lstrip_idemp s : lstrip (lstrip s) = lstrip s.
Proof. apply lstrip_id, lstrip_starts. Qed.

Lemma rstrip_cons c r :
  rstrip (String c r)
  = match rstrip r with
    | EmptyString => if is_space c then EmptyString else String c EmptyString
    | r' => String c r'
    end.
Proof. done. Qed.

Lemma lstrip_rstrip s : lstrip (rstrip s) = rstrip (lstrip s).
Proof.
  induction s as [|c r IH]; [done|].
  destruct (is_space c) eqn:Hc.
  - cbn [lstrip]. rewrite Hc, <- IH, rstrip_cons, Hc.
    destruct (rstrip r) as [|c' r']; [done|]. cbn [lstrip]. by rewrite Hc.
  - rewrite (lstrip_id (String c r)) by done.
    apply lstrip_id, rstrip_starts. done.
Qed.

Lemma strip_lstrip s : strip (lstrip s) = strip s.
Proof. unfold strip. by rewrite lstrip_idemp. Qed.

Lemma strip_rstrip s : strip (rstrip s) = strip s.
Proof. unfold strip. by rewrite lstrip_rstrip, rstrip_idemp. Qed.

Lemma split_comma_lstrip s :
  split_comma (lstrip s)
  = match split_comma s with
    | h :: t => lstrip h :: t
    | [] => []
    end.
Proof.
  induction s as [|c r IH]; [done|].
  destruct (split_comma_cons r) as (h & t & Hr). rewrite Hr in IH.
  destruct (is_space c) eqn:Hc.
  - cbn [lstrip]. rewrite Hc, IH. cbn [split_comma]. rewrite Hr.
    destruct (Ascii.eqb_spec c ","); [by subst c|].
    cbn [lstrip]. by rewrite Hc.
  - rewrite (lstrip_id (String c r)) by done. cbn [split_comma]. rewrite Hr.
    destruct (Ascii.eqb c ","); [done|]. cbn [lstrip]. by rewrite Hc.
Qed.

Lemma split_comma_single s x : split_comma s = [x] → s = x.
Proof.
  revert x. induction s as [|c r IH]; intros x; simpl; [by intros [= <-]|].
  destruct (split_comma_cons r) as (h & t & Hr). rewrite Hr in *.
  destruct (Ascii.eqb c ","); [done|]. intros [= <- ->]. by rewrite (IH h).
Qed.

Lemma split_comma_eq c r :
  split_comma (String c r)
  = if Ascii.eqb c "," then EmptyString :: split_comma r
    else match split_comma r with
         | h :: t => String c h :: t
         | [] => [String c EmptyString]
         end.
Proof. done. Qed.

Lemma split_comma_rstrip s :
  split_comma (rstrip s) = map_last rstrip (split_comma s).
Proof.
  induction s as [|c r IH]; [done|].
  destruct (split_comma_cons r) as (h & t & Hr). rewrite Hr in IH.
  rewrite rstrip_cons, split_comma_eq, Hr.
  destruct (Ascii.eqb_spec c ",") as [->|Hc].
  - change (map_last rstrip ("" :: h :: t)) with ("" :: map_last rstrip (h :: t)).
    rewrite <- IH. by destruct (rstrip r).
  - apply Ascii.eqb_neq in Hc. destruct t as [|h' t].
    + cbn [map_last] in *. rewrite rstrip_cons.
      pose proof (split_comma_single _ _ IH) as Heq. rewrite <- Heq.
      destruct (rstrip r) as [|c' r'].
      * destruct (is_space c); [done|]. by rewrite split_comma_eq, Hc.
      * by rewrite split_comma_eq, Hc, IH, Heq.
    + change (map_last rstrip (String c h :: h' :: t))
        with (String c h :: map_last rstrip (h' :: t)).
      change (map_last rstrip (h :: h' :: t))
        with (h :: map_last rstrip (h' :: t)) in IH.
      destruct (rstrip r) as [|c' r'].
      * simpl in IH. by destruct t.
      * by rewrite split_comma_eq, Hc, IH.
Qed.

Lemma trimmed_map_last_rstrip l : trimmed (map_last rstrip l) = trimmed l.
Proof.
  unfold trimmed. induction l as [|x l IH]; [done|].
  destruct l as [|y l].
  - cbn [map_last]. rewrite !filter_cons, !filter_nil, strip_rstrip.
    by destruct (decide (strip x ≠ "")); rewrite ?fmap_cons, ?strip_rstrip.
  - change (map_last rstrip (x :: y :: l)) with (x :: map_last rstrip (y :: l)).
    rewrite !(filter_cons _ x).
    destruct (decide (strip x ≠ "")); rewrite ?fmap_cons, IH; done.
Qed.

Lemma replica_paths_list_strip library v :
  replica_paths_list (MkSettings library (strip v))
  = replica_paths_list (MkSettings library v).
Proof.
  unfold replica_paths_list. simpl. fold (trimmed (split_comma (strip v))).
  fold (trimmed (split_comma v)).
  unfold strip at 1. rewrite split_comma_rstrip, trimmed_map_last_rstrip.
  rewrite split_comma_lstrip. destruct (split_comma_cons v) as (h & t & ->).
  unfold trimmed. rewrite !filter_cons, strip_lstrip.
  by destruct (decide (strip h ≠ "")); rewrite ?fmap_cons, ?strip_lstrip.
Qed.

Lemma validate_replica_paths_eq v :
  validate_replica_paths v = if bool_decide (strip v = "") then None else Some (strip v).
Proof.
  unfold validate_replica_paths. destruct (decide (v = "")) as [->|Hv]; [done|].
  by rewrite (bool_decide_eq_false_2 (v = "")) by done.
Qed.

Lemma validate_library_path_eq v :
  validate_library_path v = if bool_decide (strip v = "") then None else Some (strip v).
Proof.
  unfold validate_library_path. destruct (decide (v = "")) as [->|Hv]; [done|].
  by rewrite (bool_decide_eq_false_2 (v = "")) by done.
Qed.

(** X21. Loading the settings fails exactly when the library path or the
    replica paths are empty or white space; otherwise both values are kept
    trimmed, the trimming does not change the list of replicas that is
    read from the value, and loading the kept values again gives the same
    settings. *)
Theorem load_settings_trims_and_keeps_the_replicas library replicas :
  match load_settings library replicas with
  | Some settings =>
      CALIBRE_LIBRARY_PATH settings = strip library
      ∧ REPLICA_PATHS settings = strip replicas
      ∧ strip library ≠ "" ∧ strip replicas ≠ ""
      ∧ replica_paths_list settings
        = replica_paths_list (MkSettings library replicas)
      ∧ load_settings (CALIBRE_LIBRARY_PATH settings) (REPLICA_PATHS settings)
        = Some settings
  | None => strip library = "" ∨ strip replicas = ""
  end.
Proof.
  unfold load_settings.
  rewrite validate_library_path_eq, validate_replica_paths_eq.
  destruct (decide (strip library = "")) as [Hl|Hl].
  { rewrite (bool_decide_eq_true_2 (strip library = "")) by done. by left. }
  rewrite (bool_decide_eq_false_2 (strip library = "")) by done.
  destruct (decide (strip replicas = "")) as [Hr|Hr].
  { rewrite (bool_decide_eq_true_2 (strip replicas = "")) by done. by right. }
  rewrite (bool_decide_eq_false_2 (strip replicas = "")) by done.
  cbn [mbind option_bind CALIBRE_LIBRARY_PATH REPLICA_PATHS].
  split_and!; try done.
  - apply (replica_paths_list_strip library).
  - rewrite validate_library_path_eq, validate_replica_paths_eq, !strip_idemp.
    by rewrite !bool_decide_eq_false_2 by done.
Qed.

(** ** The roots of the replicas *)

Lemma sync_source_file_root_kept e d dry D acc it w r :
  is_Some (w !! r) → is_Some ((sync_source_file e d dry D acc it w).1 !! r).
Proof.
  intros Hr. destruct acc as [st pr], it as [rel sm].
  io_cases; repeat first [done | apply root_wput | apply root_ensure].
Qed.

Lemma sync_dest_file_root_kept e dry pr st it w r :
  is_Some (w !! r) → is_Some ((sync_dest_file e dry pr st it w).1 !! r).
Proof.
  intros Hr. destruct it as [q dm].
  io_cases; repeat first [done | apply root_wdel].
Qed.

Lemma sync_loops_root_kept e d dry S D w r :
  is_Some (w !! r) → is_Some ((sync_loops e d dry S D w).1 !! r).
Proof.
  intros Hr. rewrite sync_loops_eq.
  destruct (for_each _ (map_to_list S) _ w) as [w1 r1] eqn:Hfe1.
  apply (for_each_run _ (λ _ _ w', is_Some (w' !! r)) (λ w', is_Some (w' !! r)))
    in Hfe1; [| |done].
  2:{ intros x xs acc w' Hw.
      pose proof (sync_source_file_root_kept e d dry D acc x w' r Hw) as Hs.
      by destruct (sync_source_file e d dry D acc x w') as [w'' [acc'|msg]]. }
  destruct r1 as [acc|msg]; [|done].
  destruct (for_each _ (map_to_list D) _ w1) as [w2 r2] eqn:Hfe2.
  apply (for_each_run _ (λ _ _ w', is_Some (w' !! r)) (λ w', is_Some (w' !! r)))
    in Hfe2; [by destruct r2| |done].
  intros x xs st w' Hw.
  pose proof (sync_dest_file_root_kept e dry acc.2 st x w' r Hw) as Hs.
  by destruct (sync_dest_file e dry acc.2 st x w') as [w'' [st'|msg]].
Qed.

Lemma sync_replica_root_kept e self dry results replica w r :
  is_Some (w !! r) →
  is_Some ((sync_replica e self dry results replica w).1 !! r).
Proof.
  intros Hr.
  assert (is_Some ((sync_folder e self replica dry w).1 !! r)) as Hf.
  { rewrite sync_folder_eq.
    destruct (bool_decide (is_Some (w !! replica)) || dry).
    - by apply sync_loops_root_kept.
    - destruct (fault e (OpMakedirs replica)); [done|].
      by apply sync_loops_root_kept, root_ensure. }
  rewrite sync_replica_eq.
  by destruct (sync_folder e self replica dry w) as [w' [st|msg]].
Qed.

Lemma sync_replica_root_made e self results replica w :
  fault e (OpMakedirs replica) = None →
  is_Some ((sync_replica e self false results replica w).1 !! replica).
Proof.
  intros Hnf.
  assert (is_Some ((sync_folder e self replica false w).1 !! replica)) as Hf.
  { rewrite sync_folder_eq, orb_false_r. case_bool_decide as Hex.
    - by apply sync_loops_root_kept.
    - rewrite Hnf. apply sync_loops_root_kept. rewrite lookup_insert_eq. eauto. }
  rewrite sync_replica_eq.
  by destruct (sync_folder e self replica false w) as [w' [st|msg]].
Qed.

Lemma sync_all_roots e self l results w r :
  (∀ x, x ∈ l → fault e (OpMakedirs x) = None) →
  r ∈ l ∨ is_Some (w !! r) →
  is_Some ((for_each (sync_replica e self false) l results w).1 !! r).
Proof.
  revert results w. induction l as [|x l IH]; intros results w Hnf Hr.
  - destruct Hr as [Hr|Hr]; [by apply elem_of_nil in Hr|done].
  - rewrite for_each_cons.
    pose proof (sync_replica_root_made e self results x w (Hnf x ltac:(by left)))
      as Hmade.
    pose proof (sync_replica_root_kept e self false results x w r) as Hkept.
    destruct (sync_replica e self false results x w) as [w' [results'|msg]] eqn:Hstep.
    + apply IH; [intros y Hy; apply Hnf; by right|].
      destruct Hr as [[->|Hr]%elem_of_cons|Hr]; [by right|by left|right; by apply Hkept].
    + rewrite sync_replica_eq in Hstep.
      by destruct (sync_folder e self x false w) as [w'' [st|msg']].
Qed.

Lemma filter_all {A} (P : A → Prop) `{∀ x, Decision (P x)} (l : list A) :
  (∀ x, x ∈ l → P x) → filter P l = l.
Proof.
  induction l as [|x l IH]; intros Hall; [done|].
  rewrite filter_cons, decide_True by (apply Hall; by left).
  rewrite IH; [done|]. intros y Hy. apply Hall. by right.
Qed.

(** X22. When the operating system lets every configured replica be
    created, a real run of [sync_all] leaves each of them in place: after
    it [valid_replica_paths] is the whole of [replica_paths_list]. And no
    run removes a root directory. *)
Theorem real_run_makes_every_replica_valid e settings w :
  (∀ r, r ∈ replica_paths_list settings → fault e (OpMakedirs r) = None) →
  let w' := (sync_all e (get_sync_service settings) false w).1 in
  valid_replica_paths settings w' = replica_paths_list settings
  ∧ ∀ r, is_Some (w !! r) → is_Some (w' !! r).
Proof.
  intros Hnf. simpl. split.
  - unfold valid_replica_paths. apply filter_all. intros r Hr.
    apply (sync_all_roots e (get_sync_service settings)); [done|by left].
  - intros r Hr.
    apply (sync_all_roots e (get_sync_service settings)); [done|by right].
Qed.

Lemma real_run_makes_every_replica_valid_witness :
  let w' := (sync_all quiet (get_sync_service two_paths) false w_mixed).1 in
  valid_replica_paths two_paths w' = replica_paths_list two_paths
  ∧ ∀ r, is_Some (w_mixed !! r) → is_Some (w' !! r).
Proof.
  apply (real_run_makes_every_replica_valid quiet two_paths w_mixed).
  intros r Hr. reflexivity.
Defined.
